(** * URL shortener: resolution, visit recording and analytics

    A shallow embedding of the server side of the repository:
    - [server/routes/redirect.js]: the redirect and verify-password handlers,
      the visitor fingerprint and the visit recorder, together with the
      [Url] model that the same file carries;
    - [server/models/Analytics.js]: the schema of a recorded visit;
    - [server/routes/urls.js]: creation and update of links;
    - [server/routes/analytics.js]: the daily time series.

    The MongoDB collections are lists of documents in insertion order; a
    handler is a function from the store (and the data of the request) to
    a response and a new store.  Instants are milliseconds since the epoch,
    as JavaScript's [Date] has them, and every reading of the clock is an
    argument of the handler that takes it.  The store does not fail of its
    own: the only rejected promises are the refusals by schema validation
    and by a unique index. *)

From Stdlib Require Import ZArith List String Ascii Bool Lia Arith.
Import ListNotations.

Local Open Scope Z_scope.

(** ** JavaScript values used by the handlers *)

Module JS.

(** A value that may be [undefined] (or [null]) is an [option]; the only
    strings that are falsy are the absent one and the empty one. *)
Definition truthy (v : option string) : bool :=
  match v with
  | Some s => negb (String.eqb s EmptyString)
  | None => false
  end.

(** [a || b] *)
Definition or (a b : option string) : option string :=
  if truthy a then a else b.

(** [a || 'literal'] *)
Definition orDefault (a : option string) (d : string) : string :=
  match a with
  | Some s => if String.eqb s EmptyString then d else s
  | None => d
  end.

(** How a template literal renders a value that may be [undefined]. *)
Definition template (v : option string) : string :=
  match v with
  | Some s => s
  | None => "undefined"%string
  end.

(** [ToInt32]: the signed 32-bit integer congruent to [z] modulo 2^32. *)
Definition toInt32 (z : Z) : Z :=
  (z + 2147483648) mod 4294967296 - 2147483648.

(** [x << n] on numbers: the shift is taken on the 32-bit view. *)
Definition shl (x n : Z) : Z := toInt32 (Z.shiftl (toInt32 x) n).

(** [x & y] on numbers. *)
Definition band (x y : Z) : Z := toInt32 (Z.land (toInt32 x) (toInt32 y)).

(** [charCodeAt] on each position of a string of header bytes. *)
Fixpoint charCodes (s : string) : list Z :=
  match s with
  | EmptyString => []
  | String c r => Z.of_N (N_of_ascii c) :: charCodes r
  end.

(** One digit of [Number.prototype.toString(36)]. *)
Definition digit36 (d : Z) : ascii :=
  if d <? 10 then ascii_of_N (Z.to_N (48 + d))
  else ascii_of_N (Z.to_N (87 + d)).

Fixpoint toString36_go (fuel : nat) (n : Z) (acc : string) : string :=
  match fuel with
  | O => String (digit36 (n mod 36)) acc
  | S fuel' =>
      if n <? 36 then String (digit36 n) acc
      else toString36_go fuel' (n / 36) (String (digit36 (n mod 36)) acc)
  end.

(** [n.toString(36)] for a non-negative integer [n]; the number of
    iterations is bounded by the binary length of [n]. *)
Definition toString36 (n : Z) : string :=
  toString36_go (Z.to_nat (Z.log2 n)) n EmptyString.

(** The value of a base-36 numeral, to state that [toString36] loses
    nothing. *)
Definition value36 (c : ascii) : Z :=
  let k := Z.of_N (N_of_ascii c) in
  if k <? 58 then k - 48 else k - 87.

Fixpoint parse36_go (s : string) (acc : Z) : Z :=
  match s with
  | EmptyString => acc
  | String c r => parse36_go r (36 * acc + value36 c)
  end.

Definition parse36 (s : string) : Z := parse36_go s 0.

Definition isDigit36 (c : ascii) : bool :=
  let k := Z.of_N (N_of_ascii c) in
  ((48 <=? k) && (k <=? 57)) || ((97 <=? k) && (k <=? 122)).

Fixpoint allChars (p : ascii -> bool) (s : string) : bool :=
  match s with
  | EmptyString => true
  | String c r => p c && allChars p r
  end.

End JS.

(** ** The request, as far as the handlers read it *)

(** [req.ip], [req.connection.remoteAddress], the three headers read with
    [req.get], the route parameter and the password of the query string or
    of the body.  Header values reach the handler as strings of bytes. *)
Record Request := {
  ip : option string;
  remoteAddress : option string;
  header_UserAgent : option string;
  header_AcceptLanguage : option string;
  header_Referrer : option string;
  params_shortId : string;
  query_password : option string;
  body_password : option string
}.

(** ** Fingerprint: [generateVisitorId] (redirect.js) *)

(** One round of the loop:
    [hash = ((hash << 5) - hash) + char; hash = hash & hash]. *)
Definition hashStep (hash char : Z) : Z :=
  JS.band ((JS.shl hash 5 - hash) + char) ((JS.shl hash 5 - hash) + char).

Definition hashCode (combined : string) : Z :=
  fold_left hashStep (JS.charCodes combined) 0.

(** The text that is hashed:
    [`${ip}-${userAgent}-${acceptLanguage}`]. *)
Definition combinedOf (ip' : option string) (userAgent acceptLanguage : string)
  : string :=
  (JS.template ip' ++ "-" ++ userAgent ++ "-" ++ acceptLanguage)%string.

Definition generateVisitorId (req : Request) : string :=
  let ip' := JS.or (ip req) (remoteAddress req) in
  let userAgent := JS.orDefault (header_UserAgent req) "" in
  let acceptLanguage := JS.orDefault (header_AcceptLanguage req) "" in
  let hash := hashCode (combinedOf ip' userAgent acceptLanguage) in
  JS.toString36 (Z.abs hash).

(** ** Documents and collections *)

(** A document of the [Url] model (the schema is in redirect.js).  [_id] is
    the ObjectId the store assigns.  The stamps that the [timestamps] schema
    option maintains besides [createdAt] are read by no handler and are left
    out. *)
Record Url := {
  _id : N;
  originalUrl : string;
  shortId : string;
  customAlias : option string;
  userId : option N;
  isPasswordProtected : bool;
  password : option string;
  expiresAt : option Z;
  isActive : bool;
  clicks : Z;
  uniqueVisitors : Z;
  createdAt : Z;
  lastAccessed : option Z
}.

(** [location] of a recorded visit: the four fields of a successful
    geoip lookup. *)
Record Location := {
  country : string;
  region : string;
  city : string;
  timezone : string
}.

(** A document of the [Analytics] model (models/Analytics.js).  [location]
    is [None] for the empty object that is stored when the lookup fails. *)
Record Analytics := {
  urlId : N;
  visitorId : string;
  ipAddress : option string;
  userAgent : string;
  browser_name : string;
  browser_version : string;
  os_name : string;
  os_version : string;
  device_type : string;
  device_vendor : option string;
  device_model : option string;
  location : option Location;
  referrer : option string;
  timestamp : Z;
  isUnique : bool
}.

(** The two collections. *)
Record Db := {
  urls : list Url;
  analytics : list Analytics
}.

Definition optStringEqb (a b : option string) : bool :=
  match a, b with
  | Some x, Some y => String.eqb x y
  | None, None => true
  | _, _ => false
  end.

(** *** The [Url] model: methods and virtuals *)

(** [urlSchema.methods.isExpired], with the reading of the clock made
    explicit. *)
Definition isExpired (u : Url) (now : Z) : bool :=
  match expiresAt u with
  | None => false
  | Some t => now >? t
  end.

(** The [shortUrl] virtual: [this.customAlias || this.shortId]. *)
Definition shortUrl (u : Url) : string :=
  JS.orDefault (customAlias u) (shortId u).

(** *** Store operations *)

(** The filter [{ $or: [{ shortId }, { customAlias: shortId }] }]. *)
Definition matchesHandle (h : string) (u : Url) : bool :=
  String.eqb (shortId u) h || optStringEqb (customAlias u) (Some h).

(** [Url.findOne({ $or: [{ shortId }, { customAlias: shortId }],
    isActive: true })] *)
Definition findActiveByHandle (db : Db) (h : string) : option Url :=
  find (fun u => matchesHandle h u && isActive u) (urls db).

Fixpoint updateFirst (id : N) (f : Url -> Url) (l : list Url) : list Url :=
  match l with
  | [] => []
  | u :: r => if N.eqb (_id u) id then f u :: r else u :: updateFirst id f r
  end.

(** [Url.findByIdAndUpdate(id, update)]: the document with that [_id] is
    replaced by its update; nothing happens when there is none. *)
Definition findByIdAndUpdate (db : Db) (id : N) (f : Url -> Url) : Db :=
  {| urls := updateFirst id f (urls db); analytics := analytics db |}.

Definition incClicks (now : Z) (u : Url) : Url :=
  {| _id := _id u; originalUrl := originalUrl u; shortId := shortId u;
     customAlias := customAlias u; userId := userId u;
     isPasswordProtected := isPasswordProtected u; password := password u;
     expiresAt := expiresAt u; isActive := isActive u;
     clicks := clicks u + 1; uniqueVisitors := uniqueVisitors u;
     createdAt := createdAt u; lastAccessed := Some now |}.

Definition incUniqueVisitors (u : Url) : Url :=
  {| _id := _id u; originalUrl := originalUrl u; shortId := shortId u;
     customAlias := customAlias u; userId := userId u;
     isPasswordProtected := isPasswordProtected u; password := password u;
     expiresAt := expiresAt u; isActive := isActive u;
     clicks := clicks u; uniqueVisitors := uniqueVisitors u + 1;
     createdAt := createdAt u; lastAccessed := lastAccessed u |}.

(** The filter [{ urlId, visitorId }]. *)
Definition sameVisitor (id : N) (v : string) (a : Analytics) : bool :=
  N.eqb (urlId a) id && String.eqb (visitorId a) v.

(** [Analytics.findOne({ urlId, visitorId })] *)
Definition findVisit (db : Db) (id : N) (v : string) : option Analytics :=
  find (sameVisitor id v) (analytics db).

(** The [required: true] paths of the schema.  Mongoose's required check on
    a String path accepts a string of positive length only, so the empty
    string is refused like a missing value ([urlId] is always supplied). *)
Definition passesRequired (a : Analytics) : bool :=
  negb (String.eqb (visitorId a) "") &&
  JS.truthy (ipAddress a) &&
  negb (String.eqb (userAgent a) "").

(** [Analytics.create(doc)]: validation, then the insert, which the unique
    index [{ urlId: 1, visitorId: 1 }] refuses when the collection already
    holds a document with the same pair.  [None] is a rejected promise. *)
Definition Analytics_create (db : Db) (a : Analytics) : option Db :=
  if passesRequired a
     && negb (existsb (sameVisitor (urlId a) (visitorId a)) (analytics db))
  then Some {| urls := urls db; analytics := analytics db ++ [a] |}
  else None.

(** ** Resolution and visit recording (redirect.js) *)

(** What [ua-parser-js] reports for a User-Agent string. *)
Record UAResult := {
  ua_browser_name : option string;
  ua_browser_version : option string;
  ua_os_name : option string;
  ua_os_version : option string;
  ua_device_type : option string;
  ua_device_vendor : option string;
  ua_device_model : option string
}.

(** The outcomes of the two routes of redirect.js. *)
Inductive RedirectResponse :=
| NotFound                              (* 404 URL not found or inactive *)
| Expired                               (* 410 This link has expired *)
| PasswordRequired (handle : string)    (* 401 requiresPassword, shortId *)
| PasswordIncorrect                     (* 401 Incorrect password *)
| Redirect (destination : string)       (* res.redirect(originalUrl) *)
| PasswordMissing                       (* 400 Password is required *)
| NotPasswordProtected                  (* 400 not password protected *)
| Verified (destination : string).      (* success, originalUrl *)

Section Redirect.

(** The two external lookups, pure functions of their argument:
    [new UAParser(userAgent)] and [geoip.lookup(ip)]. *)
Variable uaParser : string -> UAResult.
Variable geoip_lookup : option string -> option Location.

(** The document that [trackAnalytics] builds. *)
Definition analyticsData (id : N) (req : Request) (v : string)
    (now : Z) (existingVisit : option Analytics) : Analytics :=
  let ip' := JS.or (ip req) (remoteAddress req) in
  let userAgent' := JS.orDefault (header_UserAgent req) "" in
  let ua := uaParser userAgent' in
  {| urlId := id;
     visitorId := v;
     ipAddress := ip';
     userAgent := userAgent';
     browser_name := JS.orDefault (ua_browser_name ua) "Unknown";
     browser_version := JS.orDefault (ua_browser_version ua) "Unknown";
     os_name := JS.orDefault (ua_os_name ua) "Unknown";
     os_version := JS.orDefault (ua_os_version ua) "Unknown";
     device_type := JS.orDefault (ua_device_type ua) "desktop";
     device_vendor := JS.or (ua_device_vendor ua) None;
     device_model := JS.or (ua_device_model ua) None;
     location := geoip_lookup ip';
     referrer := JS.or (header_Referrer req) None;
     timestamp := now;
     isUnique := match existingVisit with None => true | Some _ => false end
  |}.

(** [trackAnalytics(urlId, req, visitorId)].  Whatever is thrown inside
    is caught and logged: the store is then left as the failing step
    found it. *)
Definition trackAnalytics (now : Z) (db : Db) (id : N) (req : Request)
    (v : string) : Db :=
  let existingVisit := findVisit db id v in
  match Analytics_create db (analyticsData id req v now existingVisit) with
  | None => db
  | Some db1 =>
      match existingVisit with
      | None => findByIdAndUpdate db1 id incUniqueVisitors
      | Some _ => db1
      end
  end.

(** The end of both routes once the gates are passed: fingerprint,
    recording, click counter and [lastAccessed]. *)
Definition recordVisit (tVisit tAccess : Z) (db : Db) (u : Url)
    (req : Request) : Db :=
  let v := generateVisitorId req in
  let db1 := trackAnalytics tVisit db (_id u) req v in
  findByIdAndUpdate db1 (_id u) (incClicks tAccess).

(** [router.get('/:shortId')].  [tExpiry], [tVisit] and [tAccess] are the
    three readings of the clock, in the order the handler takes them. *)
Definition get_shortId (tExpiry tVisit tAccess : Z) (db : Db)
    (req : Request) : RedirectResponse * Db :=
  match findActiveByHandle db (params_shortId req) with
  | None => (NotFound, db)
  | Some u =>
      if isExpired u tExpiry then (Expired, db)
      else if isPasswordProtected u
              && negb (JS.truthy (query_password req))
      then (PasswordRequired (shortUrl u), db)
      else if isPasswordProtected u
              && negb (optStringEqb (query_password req) (password u))
      then (PasswordIncorrect, db)
      else (Redirect (originalUrl u), recordVisit tVisit tAccess db u req)
  end.

(** [router.post('/:shortId/verify-password')] *)
Definition post_verify_password (tExpiry tVisit tAccess : Z) (db : Db)
    (req : Request) : RedirectResponse * Db :=
  if negb (JS.truthy (body_password req)) then (PasswordMissing, db)
  else
    match findActiveByHandle db (params_shortId req) with
    | None => (NotFound, db)
    | Some u =>
        if isExpired u tExpiry then (Expired, db)
        else if negb (isPasswordProtected u)
        then (NotPasswordProtected, db)
        else if negb (optStringEqb (body_password req) (password u))
        then (PasswordIncorrect, db)
        else (Verified (originalUrl u), recordVisit tVisit tAccess db u req)
    end.

End Redirect.

(** ** Creation and update of links (urls.js) *)

Module Urls.

(** The fields the two handlers take from [req.body].  The flag is a JSON
    boolean when present. *)
Record Body := {
  b_originalUrl : option string;
  b_customAlias : option string;
  b_expiresAt : option string;
  b_isPasswordProtected : option bool;
  b_password : option string
}.

Inductive Response :=
| ValidationFailed              (* 400 with the validator's errors *)
| AliasTaken                    (* 400 Custom alias is already taken *)
| PasswordRequired              (* 400 Password is required when ... *)
| Created (url : Url) (qrCode : string)   (* 201 *)
| Updated (url : option Url)    (* 200, the document after the update *)
| UrlNotFound                   (* 404 URL not found *)
| ServerError.                  (* 500, from the catch block *)

(** The character class of [/^[a-zA-Z0-9_-]+$/]. *)
Definition isAliasChar (c : ascii) : bool :=
  let k := Z.of_N (N_of_ascii c) in
  ((97 <=? k) && (k <=? 122)) || ((65 <=? k) && (k <=? 90))
  || ((48 <=? k) && (k <=? 57)) || (k =? 95) || (k =? 45).

Definition matchesAlias (s : string) : bool :=
  negb (String.eqb s "") && JS.allChars isAliasChar s.

(** [.optional()] skips a validator on an absent field only. *)
Definition optionalField {A : Type} (p : A -> bool) (v : option A) : bool :=
  match v with
  | None => true
  | Some x => p x
  end.

Definition requiredField {A : Type} (p : A -> bool) (v : option A) : bool :=
  match v with
  | None => false
  | Some x => p x
  end.

Definition isSome {A : Type} (v : option A) : bool :=
  match v with
  | None => false
  | Some _ => true
  end.

(** [{ $or: [{ customAlias }, { shortId: customAlias }] }] *)
Definition holdsName (a : string) (u : Url) : bool :=
  optStringEqb (customAlias u) (Some a) || String.eqb (shortId u) a.

(** The ObjectId of a new document: one that no document carries. *)
Definition freshId (db : Db) : N :=
  N.succ (fold_right (fun u m => N.max (_id u) m) 0%N (urls db)).

(** [url.save()] of a new document.  The unique indexes on [shortId] and
    (sparse) on [customAlias] refuse a duplicate; [None] is the rejected
    promise. *)
Definition save (db : Db) (u : Url) : option Db :=
  if existsb (fun w => String.eqb (shortId w) (shortId u)) (urls db)
     || (isSome (customAlias u)
         && existsb (fun w => optStringEqb (customAlias w) (customAlias u))
              (urls db))
  then None
  else Some {| urls := urls db ++ [u]; analytics := analytics db |}.

(** What an update sets, field by field ([updateFields]). *)
Definition applyUpdate (newExpiry : option Z) (b : Body) (u : Url) : Url :=
  {| _id := _id u;
     originalUrl := JS.orDefault (b_originalUrl b) (originalUrl u);
     shortId := shortId u;
     customAlias :=
       match b_customAlias b with Some a => Some a | None => customAlias u end;
     userId := userId u;
     isPasswordProtected :=
       match b_isPasswordProtected b with
       | Some p => p
       | None => isPasswordProtected u
       end;
     password :=
       match b_password b with Some p => Some p | None => password u end;
     expiresAt :=
       match b_expiresAt b with Some _ => newExpiry | None => expiresAt u end;
     isActive := isActive u;
     clicks := clicks u;
     uniqueVisitors := uniqueVisitors u;
     createdAt := createdAt u;
     lastAccessed := lastAccessed u |}.

(** [.select('-password')] *)
Definition withoutPassword (u : Url) : Url :=
  {| _id := _id u; originalUrl := originalUrl u; shortId := shortId u;
     customAlias := customAlias u; userId := userId u;
     isPasswordProtected := isPasswordProtected u; password := None;
     expiresAt := expiresAt u; isActive := isActive u;
     clicks := clicks u; uniqueVisitors := uniqueVisitors u;
     createdAt := createdAt u; lastAccessed := lastAccessed u |}.

Section Handlers.

(** What lies outside the repository: the validators [isURL] and
    [isISO8601] of [express-validator]; the instant that [new Date] reads
    from a text, [None] for an Invalid Date (the validator accepts texts
    that [Date] cannot read, week dates for one); and [QRCode.toDataURL],
    [None] when it throws, as it does for a text that is too long for a
    QR code. *)
Variable isURL : string -> bool.
Variable isISO8601 : string -> bool.
Variable newDate : string -> option Z.
Variable toDataURL : string -> option string.

Definition validCreate (b : Body) : bool :=
  requiredField isURL (b_originalUrl b)
  && optionalField matchesAlias (b_customAlias b)
  && optionalField isISO8601 (b_expiresAt b)
  && optionalField (fun p => negb (String.eqb p "")) (b_password b).

Definition validUpdate (b : Body) : bool :=
  optionalField isURL (b_originalUrl b)
  && optionalField matchesAlias (b_customAlias b)
  && optionalField isISO8601 (b_expiresAt b)
  && optionalField (fun p => negb (String.eqb p "")) (b_password b).

(** [expiresAt ? new Date(expiresAt) : null].  The outer [None] is the
    Invalid Date: the Date path of the schema refuses to cast it, and
    the write that carries it is rejected. *)
Definition expiryOf (b : Body) : option (option Z) :=
  match b_expiresAt b with
  | Some s => if String.eqb s "" then Some None
              else option_map Some (newDate s)
  | None => Some None
  end.

(** [`${req.protocol}://${req.get('host')}/${url.shortUrl}`], [origin]
    being the text of the first two. *)
Definition addressOf (origin : string) (u : Url) : string :=
  (origin ++ "/" ++ shortUrl u)%string.

Definition flagOf (b : Body) : bool :=
  match b_isPasswordProtected b with
  | Some p => p
  | None => false
  end.

(** [router.post('/')].  [now] is the clock at the insert, [token] is
    what [nanoid(8)] returns for this document and [user] the caller
    that [optionalAuth] has identified, if any.  The QR code is drawn
    after the insert, inside the same [try]: when that throws, the
    answer is the 500 of the catch block and the link stays stored. *)
Definition create (origin : string) (now : Z) (token : string)
    (user : option N) (db : Db) (b : Body) : Response * Db :=
  if negb (validCreate b) then (ValidationFailed, db)
  else if JS.truthy (b_customAlias b)
          && existsb (holdsName (JS.orDefault (b_customAlias b) ""))
               (urls db)
  then (AliasTaken, db)
  else if flagOf b && negb (JS.truthy (b_password b))
  then (PasswordRequired, db)
  else
    match expiryOf b with
    | None => (ServerError, db)
    | Some expiry =>
        let url :=
          {| _id := freshId db;
             originalUrl := JS.orDefault (b_originalUrl b) "";
             shortId := token;
             customAlias := b_customAlias b;
             userId := user;
             isPasswordProtected := flagOf b;
             password := if flagOf b then b_password b else None;
             expiresAt := expiry;
             isActive := true;
             clicks := 0;
             uniqueVisitors := 0;
             createdAt := now;
             lastAccessed := None |} in
        match save db url with
        | None => (ServerError, db)
        | Some db1 =>
            match toDataURL (addressOf origin url) with
            | Some qrCode => (Created url qrCode, db1)
            | None => (ServerError, db1)
            end
        end
    end.

(** [router.put('/:id')], for the caller [user] that [auth] has
    identified.  The unique index on [customAlias] cannot refuse this
    update: the alias check has excluded every other document that
    holds the new alias.  An Invalid Date makes [findByIdAndUpdate]
    throw before it writes. *)
Definition update (user : N) (id : N) (db : Db) (b : Body)
    : Response * Db :=
  if negb (validUpdate b) then (ValidationFailed, db)
  else
    match find (fun u => N.eqb (_id u) id
                         && match userId u with
                            | Some o => N.eqb o user
                            | None => false
                            end) (urls db) with
    | None => (UrlNotFound, db)
    | Some existingUrl =>
        if JS.truthy (b_customAlias b)
           && negb (optStringEqb (b_customAlias b)
                      (customAlias existingUrl))
           && existsb (fun u => holdsName
                                  (JS.orDefault (b_customAlias b) "") u
                                && negb (N.eqb (_id u) id)) (urls db)
        then (AliasTaken, db)
        else if flagOf b && negb (JS.truthy (b_password b))
        then (PasswordRequired, db)
        else
          match expiryOf b with
          | None => (ServerError, db)
          | Some expiry =>
              let db1 := findByIdAndUpdate db id (applyUpdate expiry b) in
              (Updated (option_map withoutPassword
                          (find (fun u => N.eqb (_id u) id) (urls db1))),
               db1)
          end
    end.

End Handlers.

(** The invariant of the data model: a password is stored exactly when
    the link is password protected. *)
Definition passwordInvariant (u : Url) : Prop :=
  password u <> None <-> isPasswordProtected u = true.

End Urls.

(** ** The daily time series (analytics.js) *)

Module Stats.

(** One point of the series. *)
Record Bucket := {
  date : string;
  clicks : Z;
  uniqueVisitors : Z
}.

Definition msPerDay : Z := 86400000.

(** *** Calendar dates *)

(** Year, month and day of the civil date that lies [z] days after
    1970-01-01 (proleptic Gregorian calendar). *)
Definition civil (z : Z) : Z * Z * Z :=
  let z := z + 719468 in
  let era := z / 146097 in
  let doe := z - era * 146097 in
  let yoe := (doe - doe / 1460 + doe / 36524 - doe / 146096) / 365 in
  let doy := doe - (365 * yoe + yoe / 4 - yoe / 100) in
  let mp := (5 * doy + 2) / 153 in
  let d := doy - (153 * mp + 2) / 5 + 1 in
  let m := if mp <? 10 then mp + 3 else mp - 9 in
  let y := yoe + era * 400 in
  (if m <=? 2 then y + 1 else y, m, d).

Definition decimal (d : Z) : ascii := ascii_of_N (Z.to_N (48 + d mod 10)).

Definition pad2 (n : Z) : string :=
  String (decimal (n / 10)) (String (decimal n) "").

Definition pad4 (n : Z) : string :=
  String (decimal (n / 1000)) (String (decimal (n / 100)) (pad2 n)).

(** [format('YYYY-MM-DD')] of a day, for the years 0000 to 9999. *)
Definition formatDay (z : Z) : string :=
  let '(y, m, d) := civil z in
  (pad4 y ++ "-" ++ pad2 m ++ "-" ++ pad2 d)%string.

(** *** Sorting by timestamp *)

Fixpoint insertByTime (a : Analytics) (l : list Analytics)
  : list Analytics :=
  match l with
  | [] => [a]
  | b :: r => if timestamp a <? timestamp b then a :: b :: r
              else b :: insertByTime a r
  end.

(** [.sort({ timestamp: 1 })] *)
Definition sortByTime (l : list Analytics) : list Analytics :=
  fold_left (fun acc a => insertByTime a acc) l [].

(** *** The time zone of the process *)

(** What [moment] does with days depends on the time zone of the
    process, and follows its wall clock.  A zone is given by these
    operations on instants (milliseconds since the epoch):
    [addDays t n] is [moment(t).add(n, 'days')], and
    [subtract(n, 'days')] is [addDays t (- n)]; [startOfDay] and
    [endOfDay] are [startOf('day')] and [endOf('day')]; [dayOf] is the
    local calendar day that [format('YYYY-MM-DD')] prints, in days since
    1970-01-01.  Adding one day moves an instant forward by at least
    [minDay] milliseconds, the length of the shortest day of the zone. *)
Record Zone := {
  addDays : Z -> Z -> Z;
  startOfDay : Z -> Z;
  endOfDay : Z -> Z;
  dayOf : Z -> Z;
  minDay : Z;
  minDay_pos : 0 < minDay;
  addDays_forward : forall t, t + minDay <= addDays t 1
}.

(** A zone that keeps one offset from UTC all year, in milliseconds
    (UTC itself is [fixed 0]): every local day is [msPerDay] long. *)
Definition fixed (utcOffset : Z) : Zone :=
  {| addDays := fun t n => t + n * msPerDay;
     startOfDay := fun t => (t + utcOffset) / msPerDay * msPerDay - utcOffset;
     endOfDay := fun t =>
       (t + utcOffset) / msPerDay * msPerDay - utcOffset + msPerDay - 1;
     dayOf := fun t => (t + utcOffset) / msPerDay;
     minDay := msPerDay;
     minDay_pos := eq_refl;
     addDays_forward := fun t => Z.le_refl (t + msPerDay) |}.

Section Moment.

Variable zone : Zone.

(** [moment(a.timestamp).isBetween(dayStart, dayEnd, null, '[]')] *)
Definition inDayOf (current : Z) (a : Analytics) : bool :=
  (startOfDay zone current <=? timestamp a)
  && (timestamp a <=? endOfDay zone current).

(** The body of the loop: the bucket pushed for [current]. *)
Definition bucketAt (analytics : list Analytics) (current : Z) : Bucket :=
  let dayAnalytics := filter (inDayOf current) analytics in
  {| date := formatDay (dayOf zone current);
     clicks := Z.of_nat (List.length dayAnalytics);
     uniqueVisitors :=
       Z.of_nat (List.length (filter isUnique dayAnalytics)) |}.

(** [while (current.isSameOrBefore(endDate)) { ...; current.add(1,
    'day') }], with a bound on the number of rounds. *)
Fixpoint seriesLoop (rounds : nat) (analytics : list Analytics)
    (current endDate : Z) : list Bucket :=
  match rounds with
  | O => []
  | S n =>
      if current <=? endDate
      then bucketAt analytics current
           :: seriesLoop n analytics (addDays zone current 1) endDate
      else []
  end.

(** [processTimeSeriesData(analytics, startDate, endDate, period)].
    Since every round moves [current] forward by [minDay] at least, the
    loop leaves by its own test within
    [(endDate - startDate) / minDay + 1] rounds (see
    [seriesLoop_enough_rounds]). *)
Definition processTimeSeriesData (analytics : list Analytics)
    (startDate endDate : Z) (period : string) : list Bucket :=
  seriesLoop (Z.to_nat ((endDate - startDate) / minDay zone + 1))
    analytics startDate endDate.

(** The [switch (period)] of the route: the length of the window in
    days. *)
Definition periodDays (period : string) : Z :=
  if String.eqb period "24h" then 1
  else if String.eqb period "7d" then 7
  else if String.eqb period "30d" then 30
  else if String.eqb period "90d" then 90
  else 7.

(** [Analytics.find({ urlId, timestamp: { $gte, $lte } })
      .sort({ timestamp: 1 })] *)
Definition findInWindow (db : Db) (id : N) (startDate endDate : Z)
  : list Analytics :=
  sortByTime
    (filter (fun a => N.eqb (urlId a) id
                      && (startDate <=? timestamp a)
                      && (timestamp a <=? endDate)) (analytics db)).

(** The [charts.timeSeries] part of [router.get('/url/:urlId')] for the
    caller [user]; [None] is the 404 for a link the caller does not
    own.  The handler reads the clock twice: [tEnd] is the reading for
    [endDate = moment()], [tStart] the later one for
    [startDate = moment().subtract(n, 'days')]. *)
Definition get_url_timeSeries (tEnd tStart : Z) (db : Db) (user : N)
    (id : N) (period : string) : option (list Bucket) :=
  match find (fun u => N.eqb (_id u) id
                       && match userId u with
                          | Some o => N.eqb o user
                          | None => false
                          end) (urls db) with
  | None => None
  | Some _ =>
      let endDate := tEnd in
      let startDate := addDays zone tStart (- periodDays period) in
      let analytics := findInWindow db id startDate endDate in
      Some (processTimeSeriesData analytics startDate endDate period)
  end.

(** What a dense series has to show for one local day: the events of
    link [id] in the window that fall on [day], and those of them that
    are flagged unique. *)
Definition eventsOn (db : Db) (id : N) (startDate endDate day : Z)
  : list Analytics :=
  filter (fun a => N.eqb (urlId a) id
                   && (startDate <=? timestamp a)
                   && (timestamp a <=? endDate)
                   && (dayOf zone (timestamp a) =? day)) (analytics db).

Definition dayBucket (db : Db) (id : N) (startDate endDate day : Z)
  : Bucket :=
  {| date := formatDay day;
     clicks := Z.of_nat (List.length (eventsOn db id startDate endDate day));
     uniqueVisitors :=
       Z.of_nat (List.length
                   (filter isUnique
                      (eventsOn db id startDate endDate day))) |}.

End Moment.

End Stats.

(** ** Concurrent visits *)

(** Handlers run interleaved: each [await] of [trackAnalytics] and of the
    counter update is one operation on the store, and operations of
    different requests may alternate in any order.  A visit that has passed
    the gates is at one of these points. *)
Inductive Pc :=
| AtFind                                        (* before Analytics.findOne *)
| AtCreate (existingVisit : option Analytics)   (* before Analytics.create *)
| AtIncUnique                                   (* before $inc uniqueVisitors *)
| AtIncClicks                                   (* before $inc clicks *)
| Finished.

Record Visit := {
  v_req : Request;
  v_pc : Pc
}.

Fixpoint setNth {A : Type} (i : nat) (x : A) (l : list A) : list A :=
  match l, i with
  | [], _ => []
  | _ :: r, O => x :: r
  | y :: r, S j => y :: setNth j x r
  end.

Section Interleaving.

Variable uaParser : string -> UAResult.
Variable geoip_lookup : option string -> option Location.

(** All visits of the system resolve the link [id]. *)
Variable id : N.

(** The next store operation of one visit, at clock reading [now]. *)
Definition visit_step (now : Z) (req : Request) (pc : Pc) (db : Db)
  : Pc * Db :=
  let v := generateVisitorId req in
  match pc with
  | AtFind => (AtCreate (findVisit db id v), db)
  | AtCreate existingVisit =>
      match Analytics_create db
              (analyticsData uaParser geoip_lookup id req v now
                 existingVisit) with
      | None => (AtIncClicks, db)
      | Some db1 =>
          (match existingVisit with
           | None => AtIncUnique
           | Some _ => AtIncClicks
           end, db1)
      end
  | AtIncUnique => (AtIncClicks, findByIdAndUpdate db id incUniqueVisitors)
  | AtIncClicks => (Finished, findByIdAndUpdate db id (incClicks now))
  | Finished => (Finished, db)
  end.

(** The scheduler lets visit number [i] perform its next operation. *)
Definition stepAt (st : Db * list Visit) (ev : nat * Z) : Db * list Visit :=
  let '(db, ths) := st in
  let '(i, now) := ev in
  match nth_error ths i with
  | None => (db, ths)
  | Some th =>
      let '(pc', db') := visit_step now (v_req th) (v_pc th) db in
      (db', setNth i {| v_req := v_req th; v_pc := pc' |} ths)
  end.

(** An interleaving is the list of the scheduler's choices. *)
Definition run (sched : list (nat * Z)) (st : Db * list Visit)
  : Db * list Visit :=
  fold_left stepAt sched st.

Definition arrive (req : Request) : Visit :=
  {| v_req := req; v_pc := AtFind |}.

Definition isFinished (th : Visit) : bool :=
  match v_pc th with
  | Finished => true
  | _ => false
  end.

End Interleaving.

(** The request carries what the [Analytics] schema requires: an address
    and a User-Agent that are not empty. *)
Definition recordable (req : Request) : bool :=
  JS.truthy (JS.or (ip req) (remoteAddress req))
  && JS.truthy (header_UserAgent req).

(** The events of one visitor of one link, and the counters of a link. *)
Definition visitsOf (db : Db) (id : N) (v : string) : list Analytics :=
  filter (sameVisitor id v) (analytics db).

Definition findById (db : Db) (id : N) : option Url :=
  find (fun u => N.eqb (_id u) id) (urls db).

Definition uniqueVisitorsOf (db : Db) (id : N) : Z :=
  match findById db id with
  | Some u => uniqueVisitors u
  | None => 0
  end.

Definition clicksOf (db : Db) (id : N) : Z :=
  match findById db id with
  | Some u => clicks u
  | None => 0
  end.

(** Bookkeeping over the visits in flight: how many have their increment
    of [uniqueVisitors] still ahead of them, and how many have not yet
    counted their click. *)
Definition owesUnique (th : Visit) : Z :=
  match v_pc th with
  | AtIncUnique => 1
  | _ => 0
  end.

Definition owesClick (th : Visit) : Z :=
  match v_pc th with
  | Finished => 0
  | _ => 1
  end.

Definition total (f : Visit -> Z) (ths : list Visit) : Z :=
  fold_right (fun th n => f th + n) 0 ths.

(** A visit that has not yet tried its insert and has seen no earlier
    event. *)
Definition early (th : Visit) : Prop :=
  v_pc th = AtFind \/ v_pc th = AtCreate None.

(** A visit by the visitor [v] whose request the schema can store. *)
Definition fromVisitor (v : string) (th : Visit) : Prop :=
  generateVisitorId (v_req th) = v /\ recordable (v_req th) = true.

(** What every interleaving of first visits by [v] to the link [id] keeps
    true, [U0] and [C0] being the counters before the visits.  Before the
    first insert all visits are [early]; from the first insert on there is
    one event, it is flagged unique, and the counter together with the one
    increment that may still be owed makes [U0 + 1]. *)
Definition Inv (id : N) (v : string) (U0 C0 : Z) (st : Db * list Visit)
  : Prop :=
  let '(db, ths) := st in
  Forall (fromVisitor v) ths
  /\ findById db id <> None
  /\ clicksOf db id + total owesClick ths = C0 + Z.of_nat (List.length ths)
  /\ ((visitsOf db id v = [] /\ Forall early ths
       /\ uniqueVisitorsOf db id = U0)
      \/ (exists e, visitsOf db id v = [e] /\ isUnique e = true
                    /\ uniqueVisitorsOf db id + total owesUnique ths
                       = U0 + 1)).

(** What every interleaving of visits keeps true when none of their
    requests can be stored: the events stay as they were in [db0], no
    visit comes to the increment of [uniqueVisitors], and the clicks are
    counted all the same. *)
Definition Unrecorded (id : N) (db0 : Db) (st : Db * list Visit) : Prop :=
  let '(db, ths) := st in
  analytics db = analytics db0
  /\ findById db id <> None
  /\ uniqueVisitorsOf db id = uniqueVisitorsOf db0 id
  /\ clicksOf db id + total owesClick ths
     = clicksOf db0 id + Z.of_nat (List.length ths)
  /\ Forall (fun th => recordable (v_req th) = false
                       /\ v_pc th <> AtIncUnique) ths.


(** ** Sample data *)

Module Sample.

(** A parser and a geoip table that know nothing. *)
Definition uaParser (_ : string) : UAResult :=
  {| ua_browser_name := None; ua_browser_version := None;
     ua_os_name := None; ua_os_version := None;
     ua_device_type := None; ua_device_vendor := None;
     ua_device_model := None |}.

Definition geoip (_ : option string) : option Location := None.

Definition link : Url :=
  {| _id := 1%N; originalUrl := "https://example.com/a";
     shortId := "Ab3dE9xZ"; customAlias := None; userId := Some 7%N;
     isPasswordProtected := false; password := None;
     expiresAt := None; isActive := true;
     clicks := 0; uniqueVisitors := 0;
     createdAt := 1000; lastAccessed := None |}.

(** A link that is both switched off and past its expiry. *)
Definition retired : Url :=
  {| _id := 2%N; originalUrl := "https://example.com/old";
     shortId := "Qw8rTy2u"; customAlias := Some "promo"%string;
     userId := Some 7%N;
     isPasswordProtected := false; password := None;
     expiresAt := Some 5000; isActive := false;
     clicks := 0; uniqueVisitors := 0;
     createdAt := 1000; lastAccessed := None |}.

Definition locked : Url :=
  {| _id := 3%N; originalUrl := "https://example.com/vault";
     shortId := "Zx5cVb7n"; customAlias := Some "vault"%string;
     userId := Some 7%N;
     isPasswordProtected := true; password := Some "secret"%string;
     expiresAt := Some 9000; isActive := true;
     clicks := 0; uniqueVisitors := 0;
     createdAt := 1000; lastAccessed := None |}.

Definition db : Db := {| urls := [link; retired; locked]; analytics := [] |}.

Definition visitor (handle : string) (pw : option string) : Request :=
  {| ip := Some "203.0.113.9"%string;
     remoteAddress := Some "203.0.113.9"%string;
     header_UserAgent := Some "Mozilla/5.0"%string;
     header_AcceptLanguage := Some "en-US"%string;
     header_Referrer := None;
     params_shortId := handle;
     query_password := pw;
     body_password := pw |}.

(** A client that sends no User-Agent header. *)
Definition bare (handle : string) : Request :=
  {| ip := Some "203.0.113.9"%string;
     remoteAddress := Some "203.0.113.9"%string;
     header_UserAgent := None;
     header_AcceptLanguage := None;
     header_Referrer := None;
     params_shortId := handle;
     query_password := None;
     body_password := None |}.

(** A request of which nothing is known, and one whose attributes are
    all the empty string. *)
Definition anonymous : Request :=
  {| ip := None; remoteAddress := None;
     header_UserAgent := None; header_AcceptLanguage := None;
     header_Referrer := None; params_shortId := "Ab3dE9xZ";
     query_password := None; body_password := None |}.

Definition blank : Request :=
  {| ip := Some ""%string; remoteAddress := Some ""%string;
     header_UserAgent := Some ""%string;
     header_AcceptLanguage := Some ""%string;
     header_Referrer := None; params_shortId := "Ab3dE9xZ";
     query_password := None; body_password := None |}.

Definition undefinedAddress : Request :=
  {| ip := Some "undefined"%string; remoteAddress := None;
     header_UserAgent := Some ""%string;
     header_AcceptLanguage := Some ""%string;
     header_Referrer := Some "https://news.example"%string;
     params_shortId := "promo";
     query_password := None; body_password := None |}.

(** Stand-ins for what lies outside the repository.  The week date is
    ISO 8601 and is not read by [Date]; a text of more than 2000
    characters is too long for a QR code. *)
Definition isURL (s : string) : bool := String.prefix "https://" s.

Definition newDate (s : string) : option Z :=
  if String.eqb s "1970-01-01T00:00:09.000Z" then Some 9000 else None.

Definition isISO8601 (s : string) : bool :=
  String.eqb s "1970-01-01T00:00:09.000Z" || String.eqb s "1970-W01-4".

Definition toDataURL (s : string) : option string :=
  if (String.length s <=? 2000)%nat
  then Some ("data:image/png;base64," ++ s)%string
  else None.

Definition origin : string := "https://sho.rt".

(** Bodies of create and update requests. *)
Definition newLink (alias : string) : Urls.Body :=
  {| Urls.b_originalUrl := Some "https://example.com/launch"%string;
     Urls.b_customAlias := Some alias;
     Urls.b_expiresAt := None;
     Urls.b_isPasswordProtected := None;
     Urls.b_password := None |}.

Definition unprotect : Urls.Body :=
  {| Urls.b_originalUrl := None;
     Urls.b_customAlias := None;
     Urls.b_expiresAt := None;
     Urls.b_isPasswordProtected := Some false;
     Urls.b_password := None |}.

(** A create request whose expiry is a week date, and an alias of 2400
    letters. *)
Definition weekDate : Urls.Body :=
  {| Urls.b_originalUrl := Some "https://example.com/launch"%string;
     Urls.b_customAlias := None;
     Urls.b_expiresAt := Some "1970-W01-4"%string;
     Urls.b_isPasswordProtected := None;
     Urls.b_password := None |}.

Fixpoint letters (n : nat) : string :=
  match n with
  | O => ""%string
  | S m => String "a" (letters m)
  end.

Definition longAlias : string := letters 2400.

(** Noon of 2026-11-01 (UTC), and three visits to [link]: two on
    2026-10-30 and one on 2026-11-01. *)
Definition noon : Z := 20758 * 86400000 + 43200000.

Definition visitAt (t : Z) (v : string) (unique : bool) : Analytics :=
  {| urlId := 1%N; visitorId := v;
     ipAddress := Some "203.0.113.9"%string;
     userAgent := "Mozilla/5.0";
     browser_name := "Unknown"; browser_version := "Unknown";
     os_name := "Unknown"; os_version := "Unknown";
     device_type := "desktop"; device_vendor := None;
     device_model := None; location := None; referrer := None;
     timestamp := t; isUnique := unique |}.

Definition visited : Db :=
  {| urls := [link; retired; locked];
     analytics := [visitAt (noon - 2 * 86400000) "itwqrd" true;
                   visitAt (noon - 2 * 86400000 + 60000) "k17cpc" true;
                   visitAt (noon - 3600000) "140" true] |}.

End Sample.

From Stdlib Require Import Permutation Sorted.

(** ** What the handlers keep true of the store *)

(** A link without its counters and its access stamp: what no resolution
    is to change. *)
Definition sansCounters (u : Url) : Url :=
  {| _id := _id u; originalUrl := originalUrl u; shortId := shortId u;
     customAlias := customAlias u; userId := userId u;
     isPasswordProtected := isPasswordProtected u; password := password u;
     expiresAt := expiresAt u; isActive := isActive u;
     clicks := 0; uniqueVisitors := 0;
     createdAt := createdAt u; lastAccessed := None |}.

(** The pair that the unique index of the events is on. *)
Definition visitKey (a : Analytics) : N * string := (urlId a, visitorId a).

Definition eventsOfLink (db : Db) (id : N) : list Analytics :=
  filter (fun a => N.eqb (urlId a) id) (analytics db).

(** The events respect the unique index, and each is flagged unique. *)
Definition eventsSound (db : Db) : Prop :=
  NoDup (map visitKey (analytics db))
  /\ Forall (fun a => isUnique a = true) (analytics db).

(** No link has more unique visitors than clicks. *)
Definition countersSound (db : Db) : Prop :=
  Forall (fun u => 0 <= uniqueVisitors u <= clicks u) (urls db).

(** The unique-visitor counter of a link is the number of its events. *)
Definition visitorsCounted (db : Db) : Prop :=
  forall id, findById db id <> None ->
    uniqueVisitorsOf db id = Z.of_nat (List.length (eventsOfLink db id)).

(** What a successful resolution did for the visitor [v] of the link
    [id] at the instant [t]: nothing to the events and the unique-visitor
    counter, or one event appended and one visitor counted. *)
Definition visitOutcome (db db' : Db) (id : N) (v : string) (t : Z) : Prop :=
  (uniqueVisitorsOf db' id = uniqueVisitorsOf db id
   /\ analytics db' = analytics db)
  \/ (uniqueVisitorsOf db' id = uniqueVisitorsOf db id + 1
      /\ findVisit db id v = None
      /\ exists e, analytics db' = analytics db ++ [e]
           /\ urlId e = id /\ visitorId e = v
           /\ timestamp e = t /\ isUnique e = true).

(** The aliases in use, and what the indexes of the [Url] collection
    enforce: [_id], [shortId] and (sparse) [customAlias] are unique. *)
Definition aliasesOf (l : list Url) : list string :=
  flat_map (fun u => match customAlias u with
                     | Some a => [a]
                     | None => []
                     end) l.

Definition indexed (db : Db) : Prop :=
  NoDup (map _id (urls db))
  /\ NoDup (map shortId (urls db))
  /\ NoDup (aliasesOf (urls db)).

(** The fields of a link that an update request cannot reach. *)
Definition keptByUpdate (u : Url)
  : N * string * option N * bool * Z * Z * Z * option Z :=
  (_id u, shortId u, userId u, isActive u, clicks u, uniqueVisitors u,
   createdAt u, lastAccessed u).

(** ** The owner's routes of urls.js *)

Module Owner.

(** [{ userId: req.user._id }] *)
Definition ownedBy (user : N) (u : Url) : bool :=
  match userId u with
  | Some o => N.eqb o user
  | None => false
  end.

(** [{ _id: req.params.id, userId: req.user._id }] *)
Definition owns (user id : N) (u : Url) : bool :=
  N.eqb (_id u) id && ownedBy user u.

Fixpoint removeFirst (p : Url -> bool) (l : list Url) : list Url :=
  match l with
  | [] => []
  | u :: r => if p u then r else u :: removeFirst p r
  end.

Inductive DeleteResponse :=
| DeleteNotFound                (* 404 URL not found *)
| Deleted.                      (* URL deleted successfully *)

(** [router.delete('/:id')]: [Url.findOneAndDelete] of the caller's
    document.  The events of the link are not touched. *)
Definition delete (user id : N) (db : Db) : DeleteResponse * Db :=
  match find (owns user id) (urls db) with
  | None => (DeleteNotFound, db)
  | Some _ =>
      (Deleted, {| urls := removeFirst (owns user id) (urls db);
                   analytics := analytics db |})
  end.

Inductive DetailResponse :=
| DetailNotFound                        (* 404 URL not found *)
| Detail (url : Url) (qrCode : string)  (* 200 *)
| DetailError.                          (* 500, from the catch block *)

(** [router.get('/:id')]: the caller's document with
    [.select('-password')] and its QR code, the 404 when the caller has
    no such document, the 500 when [QRCode.toDataURL] throws. *)
Definition get_id (toDataURL : string -> option string) (origin : string)
    (user id : N) (db : Db) : DetailResponse :=
  match find (owns user id) (urls db) with
  | None => DetailNotFound
  | Some u =>
      match toDataURL (Urls.addressOf origin u) with
      | Some qrCode => Detail (Urls.withoutPassword u) qrCode
      | None => DetailError
      end
  end.

Record Pagination := {
  currentPage : Z;
  totalPages : Z;
  totalUrls : Z;
  hasNext : bool;
  hasPrev : bool
}.

Fixpoint insertByCreated (u : Url) (l : list Url) : list Url :=
  match l with
  | [] => [u]
  | w :: r => if createdAt w <? createdAt u then u :: w :: r
              else w :: insertByCreated u r
  end.

(** [.sort({ createdAt: -1 })]; links created in the same millisecond
    keep the order of the collection here. *)
Definition sortByCreated (l : list Url) : list Url :=
  fold_left (fun acc u => insertByCreated u acc) l [].

Section Search.

(** [{ $regex: search, $options: 'i' }] on one field: the store's regular
    expression engine, given the pattern and the text. *)
Variable regexTest : string -> string -> bool.

Definition searchFilter (search : string) (u : Url) : bool :=
  regexTest search (originalUrl u)
  || match customAlias u with
     | Some a => regexTest search a
     | None => false
     end
  || regexTest search (shortId u).

(** The [query] of the listing: the caller's links, narrowed by a
    non-empty [search]. *)
Definition query (user : N) (search : string) (u : Url) : bool :=
  ownedBy user u
  && (if String.eqb search "" then true else searchFilter search u).

(** [router.get('/')] for [page] and [limit] given as positive decimal
    numerals (1 and 10 when absent). *)
Definition get_urls (user : N) (page limit : positive) (search : string)
    (db : Db) : list Url * Pagination :=
  let matching := filter (query user search) (urls db) in
  let skip := (Z.pos page - 1) * Z.pos limit in
  let found := firstn (Pos.to_nat limit)
                 (skipn (Z.to_nat skip) (sortByCreated matching)) in
  let total := Z.of_nat (List.length matching) in
  (map Urls.withoutPassword found,
   {| currentPage := Z.pos page;
      totalPages := (total + Z.pos limit - 1) / Z.pos limit;
      totalUrls := total;
      hasNext := Z.pos page * Z.pos limit <? total;
      hasPrev := 1 <? Z.pos page |}).

End Search.

End Owner.

(** ** The breakdowns of analytics.js *)

Module Breakdown.

(** The value under a key of a counting object: a number, or the text
    that [(value || 0) + 1] makes of a value that is no number. *)
Inductive Count :=
| Num (n : Z)
| Text.

(** The function-valued properties that every object inherits from
    [Object.prototype]. *)
Definition functionNames : list string :=
  ["constructor"; "hasOwnProperty"; "isPrototypeOf";
   "propertyIsEnumerable"; "toLocaleString"; "toString"; "valueOf";
   "__defineGetter__"; "__defineSetter__"; "__lookupGetter__";
   "__lookupSetter__"]%string.

Definition inherited (k : string) : bool :=
  existsb (String.eqb k) functionNames.

(** [counts[k] = (counts[k] || 0) + 1] on the own properties, kept in the
    order of their creation.  A key that is read for the first time yields
    the inherited function, if there is one, and the sum is then a text. *)
Fixpoint bump (k : string) (o : list (string * Count))
  : list (string * Count) :=
  match o with
  | [] => [(k, if inherited k then Text else Num 1)]
  | (k', c) :: r =>
      if String.eqb k' k
      then (k', match c with Num n => Num (n + 1) | Text => Text end) :: r
      else (k', c) :: bump k r
  end.

(** The same for any key: [__proto__] is an accessor whose setter ignores
    what is no object, so that assignment creates nothing. *)
Definition increment (k : string) (o : list (string * Count))
  : list (string * Count) :=
  if String.eqb k "__proto__" then o else bump k o.

Definition digitValue (c : ascii) : option N :=
  let k := N_of_ascii c in
  if ((48 <=? k) && (k <=? 57))%N then Some (k - 48)%N else None.

Fixpoint parseDigits (s : string) (acc : N) : option N :=
  match s with
  | EmptyString => Some acc
  | String c r =>
      match digitValue c with
      | Some d => parseDigits r (10 * acc + d)%N
      | None => None
      end
  end.

(** The array index that a key denotes: a canonical decimal numeral of at
    most 2^32 - 2. *)
Definition arrayIndex (s : string) : option N :=
  match s with
  | EmptyString => None
  | String c r =>
      if Ascii.eqb c "0" && negb (String.eqb r "") then None
      else match parseDigits s 0 with
           | Some n => if (n <=? 4294967294)%N then Some n else None
           | None => None
           end
  end.

Definition isIndexKey (e : string * Count) : bool :=
  match arrayIndex (fst e) with
  | Some _ => true
  | None => false
  end.

Definition indexOf (e : string * Count) : N :=
  match arrayIndex (fst e) with
  | Some n => n
  | None => 0%N
  end.

Fixpoint insertByIndex (e : string * Count) (l : list (string * Count))
  : list (string * Count) :=
  match l with
  | [] => [e]
  | f :: r => if (indexOf e <? indexOf f)%N then e :: f :: r
              else f :: insertByIndex e r
  end.

(** [Object.entries]: the keys that are array indices in ascending order,
    then the other keys in the order of their creation. *)
Definition entries (o : list (string * Count)) : list (string * Count) :=
  fold_left (fun acc e => insertByIndex e acc) (filter isIndexKey o) []
  ++ filter (fun e => negb (isIndexKey e)) o.

(** The common shape of the four helpers: count the events by a label. *)
Definition countBy (label : Analytics -> string) (analytics : list Analytics)
  : list (string * Count) :=
  entries (fold_left (fun o a => increment (label a) o) analytics []).

(** [activity.device?.type || 'desktop'] and its three siblings. *)
Definition deviceLabel (a : Analytics) : string :=
  JS.orDefault (Some (device_type a)) "desktop".

Definition browserLabel (a : Analytics) : string :=
  JS.orDefault (Some (browser_name a)) "Unknown".

Definition countryLabel (a : Analytics) : string :=
  match location a with
  | Some l => JS.orDefault (Some (country l)) "Unknown"
  | None => "Unknown"%string
  end.

Definition referrerLabel (a : Analytics) : string :=
  JS.orDefault (referrer a) "Direct".

Definition processDeviceData := countBy deviceLabel.
Definition processBrowserData := countBy browserLabel.
Definition processLocationData := countBy countryLabel.
Definition processReferrerData := countBy referrerLabel.

(** How many events carry the label [k]. *)
Definition occurrences (label : Analytics -> string) (k : string)
    (analytics : list Analytics) : Z :=
  Z.of_nat (List.length (filter (fun a => String.eqb (label a) k) analytics)).

(** A label that no object inherits and that is not [__proto__]. *)
Definition ordinary (k : string) : bool :=
  negb (inherited k) && negb (String.eqb k "__proto__").

Definition numberOf (c : Count) : Z :=
  match c with
  | Num n => n
  | Text => 0
  end.

(** The value under a key, and the sum of the numbers of an object. *)
Definition lookup (k : string) (o : list (string * Count)) : option Count :=
  option_map snd (find (fun e => String.eqb (fst e) k) o).

Definition sumOfCounts (o : list (string * Count)) : Z :=
  fold_right (fun e s => numberOf (snd e) + s) 0 o.

(** What the counting keeps true of its object: the keys are distinct,
    [__proto__] is none of them, and a key holds a text exactly when it
    names an inherited function, a positive number otherwise. *)
Definition wellKept (e : string * Count) : Prop :=
  fst e <> "__proto__"%string
  /\ match snd e with
     | Text => inherited (fst e) = true
     | Num n => inherited (fst e) = false /\ 0 < n
     end.

Definition consistent (o : list (string * Count)) : Prop :=
  NoDup (map fst o) /\ Forall wellKept o.

End Breakdown.

(** ** The summary and the ranking of analytics.js *)

Module Report.

(** The [summary] of [router.get('/url/:urlId')] without
    [averageClicksPerDay], which is a floating-point quotient. *)
Record Summary := {
  s_totalClicks : Z;
  s_uniqueVisitors : Z;
  s_periodClicks : Z;
  s_periodUniqueVisitors : Z
}.

(** The two clock readings are those of [Stats.get_url_timeSeries]: the
    summary and the series are computed from the same query. *)
Definition get_url_summary (zone : Stats.Zone) (tEnd tStart : Z) (db : Db)
    (user : N) (id : N) (period : string) : option Summary :=
  match find (fun u => N.eqb (_id u) id
                       && match userId u with
                          | Some o => N.eqb o user
                          | None => false
                          end) (urls db) with
  | None => None
  | Some url =>
      let endDate := tEnd in
      let startDate := Stats.addDays zone tStart
                         (- Stats.periodDays period) in
      let analytics := Stats.findInWindow db id startDate endDate in
      Some {| s_totalClicks := clicks url;
              s_uniqueVisitors := uniqueVisitors url;
              s_periodClicks := Z.of_nat (List.length analytics);
              s_periodUniqueVisitors :=
                Z.of_nat (List.length (filter isUnique analytics)) |}
  end.

(** One row of [topUrls]. *)
Record TopUrl := {
  t_id : N;
  t_shortUrl : string;
  t_originalUrl : string;
  t_clicks : Z;
  t_uniqueVisitors : Z
}.

Definition toTopUrl (u : Url) : TopUrl :=
  {| t_id := _id u; t_shortUrl := shortUrl u;
     t_originalUrl := originalUrl u; t_clicks := clicks u;
     t_uniqueVisitors := uniqueVisitors u |}.

Fixpoint insertByClicks (u : Url) (l : list Url) : list Url :=
  match l with
  | [] => [u]
  | w :: r => if clicks w <? clicks u then u :: w :: r
              else w :: insertByClicks u r
  end.

(** [urls.sort((a, b) => b.clicks - a.clicks)]: descending, and stable. *)
Definition sortByClicks (l : list Url) : list Url :=
  fold_left (fun acc u => insertByClicks u acc) l [].

(** The [topUrls] of [router.get('/dashboard')], over the caller's links
    ([Url.find({ userId })]). *)
Definition topUrls (user : N) (db : Db) : list TopUrl :=
  map toTopUrl
    (firstn 5 (sortByClicks (filter (Owner.ownedBy user) (urls db)))).

Definition sum (l : list Z) : Z := fold_right Z.add 0 l.

End Report.


(** ** Concurrent visits by any visitors *)

(** A visit that found an earlier event of its visitor meets it again at
    its insert, since nothing removes events in between. *)
Definition seenStill (id : N) (db : Db) (th : Visit) : Prop :=
  match v_pc th with
  | AtCreate (Some _) =>
      existsb (sameVisitor id (generateVisitorId (v_req th))) (analytics db)
      = true
  | _ => True
  end.

(** The visits that have their insert still ahead of them. *)
Definition mayInsert (th : Visit) : Z :=
  match v_pc th with
  | AtFind | AtCreate _ => 1
  | _ => 0
  end.

(** What every interleaving of visits to the link [id] keeps true of the
    store, whoever the visitors are, [db0] being the store before them:
    the links differ in counters and stamps only, the events are those of
    [db0] followed by first visits to [id], and the two counters of the
    link together with the increments still owed account for every visit
    and every new event. *)
Definition Shared (id : N) (db0 : Db) (st : Db * list Visit) : Prop :=
  let '(db, ths) := st in
  findById db id <> None
  /\ map sansCounters (urls db) = map sansCounters (urls db0)
  /\ clicksOf db id + total owesClick ths
     = clicksOf db0 id + Z.of_nat (List.length ths)
  /\ Forall (seenStill id db) ths
  /\ (NoDup (map visitKey (analytics db0)) ->
      NoDup (map visitKey (analytics db)))
  /\ exists new,
       analytics db = analytics db0 ++ new
       /\ Forall (fun e => urlId e = id /\ isUnique e = true) new
       /\ Z.of_nat (List.length new) + total mayInsert ths
          <= Z.of_nat (List.length ths)
       /\ total owesUnique ths <= Z.of_nat (List.length new)
       /\ uniqueVisitorsOf db id + total owesUnique ths
          = uniqueVisitorsOf db0 id + Z.of_nat (List.length new).

(** Four visits to one link by three clients, one of which sends no
    User-Agent. *)
Module Crowd.

Definition curl : Request :=
  {| ip := Some "198.51.100.4"%string;
     remoteAddress := Some "198.51.100.4"%string;
     header_UserAgent := Some "curl/8.0"%string;
     header_AcceptLanguage := None;
     header_Referrer := Some "constructor"%string;
     params_shortId := "Ab3dE9xZ";
     query_password := None;
     body_password := None |}.

Definition reqs : list Request :=
  [Sample.visitor "Ab3dE9xZ" None; curl; Sample.bare "Ab3dE9xZ";
   Sample.visitor "Ab3dE9xZ" None].

Definition sched : list (nat * Z) :=
  [(0%nat, 2000); (3%nat, 2001); (1%nat, 2002); (3%nat, 2003);
   (2%nat, 2004); (0%nat, 2005); (1%nat, 2006); (2%nat, 2007);
   (0%nat, 2008); (3%nat, 2009); (1%nat, 2010); (2%nat, 2011);
   (0%nat, 2012); (1%nat, 2013); (3%nat, 2014); (3%nat, 2015)].

End Crowd.
(** * Properties *)

(** ** The fingerprint *)

Lemma N_of_digit36 (d : Z) :
  0 <= d < 36 ->
  Z.of_N (N_of_ascii (JS.digit36 d)) = if d <? 10 then 48 + d else 87 + d.
Proof.
  intros Hd. unfold JS.digit36.
  destruct (d <? 10) eqn:E; rewrite N_ascii_embedding; lia.
Qed.

Lemma isDigit36_digit36 (d : Z) :
  0 <= d < 36 -> JS.isDigit36 (JS.digit36 d) = true.
Proof.
  intros Hd. unfold JS.isDigit36. rewrite (N_of_digit36 d Hd).
  destruct (d <? 10) eqn:E.
  - apply Z.ltb_lt in E. apply orb_true_iff. left.
    apply andb_true_iff. split; apply Z.leb_le; lia.
  - apply Z.ltb_ge in E. apply orb_true_iff. right.
    apply andb_true_iff. split; apply Z.leb_le; lia.
Qed.

Lemma value36_digit36 (d : Z) :
  0 <= d < 36 -> JS.value36 (JS.digit36 d) = d.
Proof.
  intros Hd. unfold JS.value36. rewrite (N_of_digit36 d Hd).
  destruct (d <? 10) eqn:E.
  - apply Z.ltb_lt in E.
    replace (48 + d <? 58) with true by (symmetry; apply Z.ltb_lt; lia). lia.
  - apply Z.ltb_ge in E.
    replace (87 + d <? 58) with false by (symmetry; apply Z.ltb_ge; lia). lia.
Qed.

Lemma toString36_go_digits (fuel : nat) :
  forall n acc, 0 <= n ->
    JS.allChars JS.isDigit36 acc = true ->
    JS.allChars JS.isDigit36 (JS.toString36_go fuel n acc) = true.
Proof.
  induction fuel as [|fuel IH]; intros n acc Hn Hacc; simpl.
  - rewrite isDigit36_digit36, Hacc; [reflexivity|].
    apply Z.mod_pos_bound; lia.
  - destruct (n <? 36) eqn:E.
    + apply Z.ltb_lt in E. simpl.
      rewrite isDigit36_digit36, Hacc; [reflexivity | lia].
    + apply IH.
      * apply Z.div_pos; lia.
      * simpl. rewrite isDigit36_digit36, Hacc; [reflexivity|].
        apply Z.mod_pos_bound; lia.
Qed.

Lemma toString36_go_nonempty (fuel : nat) :
  forall n acc, JS.toString36_go fuel n acc <> EmptyString.
Proof.
  induction fuel as [|fuel IH]; intros n acc; simpl.
  - discriminate.
  - destruct (n <? 36); [discriminate | apply IH].
Qed.

Lemma parse36_go_app (s : string) :
  forall t acc,
    JS.parse36_go (s ++ t)%string acc = JS.parse36_go t (JS.parse36_go s acc).
Proof.
  induction s as [|c s IH]; intros t acc; simpl; [reflexivity | apply IH].
Qed.

(** With enough rounds, the numeral that [toString36_go] puts before [acc]
    reads back as [n]. *)
Lemma toString36_go_value (fuel : nat) :
  forall n acc, 0 <= n < 2 ^ Z.of_nat (S fuel) ->
    exists s, JS.toString36_go fuel n acc = (s ++ acc)%string
              /\ forall a, JS.parse36_go s a = 36 ^ Z.of_nat (String.length s) * a + n.
Proof.
  induction fuel as [|fuel IH]; intros n acc Hn.
  - assert (n < 36) by (change (2 ^ Z.of_nat 1) with 2 in Hn; lia).
    exists (String (JS.digit36 (n mod 36)) EmptyString). split; [reflexivity|].
    intros a. simpl. rewrite Z.mod_small by lia.
    rewrite value36_digit36 by lia. lia.
  - simpl JS.toString36_go. destruct (n <? 36) eqn:E.
    + apply Z.ltb_lt in E.
      exists (String (JS.digit36 n) EmptyString). split; [reflexivity|].
      intros a. simpl. rewrite value36_digit36 by lia. lia.
    + apply Z.ltb_ge in E.
      destruct (IH (n / 36) (String (JS.digit36 (n mod 36)) acc))
        as [s [Hs Hv]].
      { split; [apply Z.div_pos; lia|].
        apply Z.div_lt_upper_bound; [lia|].
        replace (Z.of_nat (S (S fuel))) with (Z.succ (Z.of_nat (S fuel)))
          in Hn by lia.
        rewrite Z.pow_succ_r in Hn by lia. lia. }
      exists (s ++ String (JS.digit36 (n mod 36)) EmptyString)%string. split.
      * rewrite Hs. clear. induction s as [|c s IHs]; simpl;
          [reflexivity | now rewrite IHs].
      * intros a. rewrite parse36_go_app, Hv. cbn [JS.parse36_go].
        rewrite value36_digit36 by (apply Z.mod_pos_bound; lia).
        assert (HL : String.length
                       (s ++ String (JS.digit36 (n mod 36)) EmptyString)
                     = S (String.length s)).
        { clear. induction s as [|c s IHs]; simpl; [reflexivity|].
          now rewrite IHs. }
        rewrite HL.
        replace (Z.of_nat (S (String.length s)))
          with (Z.succ (Z.of_nat (String.length s))) by lia.
        rewrite Z.pow_succ_r by lia.
        pose proof (Z.div_mod n 36 ltac:(lia)). nia.
Qed.

(** [toString36] is exact: the key reads back as the number it renders. *)
Lemma parse36_toString36 (n : Z) : 0 <= n -> JS.parse36 (JS.toString36 n) = n.
Proof.
  intros Hn. unfold JS.parse36, JS.toString36.
  destruct (toString36_go_value (Z.to_nat (Z.log2 n)) n EmptyString)
    as [s [Hs Hv]].
  - split; [assumption|].
    destruct (Z.eq_dec n 0) as [->|Hz]; [simpl; lia|].
    replace (Z.of_nat (S (Z.to_nat (Z.log2 n)))) with (Z.succ (Z.log2 n))
      by (pose proof (Z.log2_nonneg n); lia).
    apply Z.log2_spec. lia.
  - rewrite Hs.
    replace (s ++ "")%string with s
      by (clear; induction s as [|c s IHs]; simpl; [reflexivity|];
          now rewrite <- IHs).
    rewrite Hv. lia.
Qed.

Lemma toInt32_range (z : Z) : -2147483648 <= JS.toInt32 z < 2147483648.
Proof.
  unfold JS.toInt32.
  pose proof (Z.mod_pos_bound (z + 2147483648) 4294967296 ltac:(lia)). lia.
Qed.

Lemma toInt32_small (z : Z) :
  -2147483648 <= z < 2147483648 -> JS.toInt32 z = z.
Proof.
  intros H. unfold JS.toInt32. rewrite Z.mod_small; lia.
Qed.

Lemma hashStep_range (h c : Z) :
  -2147483648 <= hashStep h c < 2147483648.
Proof. unfold hashStep, JS.band. apply toInt32_range. Qed.

(** The loop computes [31 * hash + char] on 32-bit integers. *)
Lemma hashStep_31 (h c : Z) :
  -2147483648 <= h < 2147483648 ->
  hashStep h c = JS.toInt32 (31 * h + c).
Proof.
  intros Hh. unfold hashStep, JS.band, JS.shl.
  rewrite Z.land_diag, (toInt32_small h Hh).
  rewrite toInt32_small by apply toInt32_range.
  rewrite Z.shiftl_mul_pow2 by lia. change (2 ^ 5) with 32.
  unfold JS.toInt32.
  replace (((h * 32 + 2147483648) mod 4294967296 - 2147483648 - h + c
            + 2147483648))
    with ((h * 32 + 2147483648) mod 4294967296 + (c - h)) by lia.
  rewrite Zplus_mod_idemp_l.
  f_equal. f_equal. lia.
Qed.

Lemma hashCode_range (s : string) :
  -2147483648 <= hashCode s < 2147483648.
Proof.
  unfold hashCode.
  assert (G : forall l h, -2147483648 <= h < 2147483648 ->
                -2147483648 <= fold_left hashStep l h < 2147483648).
  { induction l as [|c l IH]; intros h Hh; simpl; [assumption|].
    apply IH, hashStep_range. }
  apply G. lia.
Qed.

Example generateVisitorId_sample :
  generateVisitorId (Sample.visitor "Ab3dE9xZ" None) = "itwqrd"%string.
Proof. vm_compute. reflexivity. Qed.

(** C7 (as amended).  The key depends on nothing but the address, the
    User-Agent and the Accept-Language: two requests that agree on them get
    the same key, and a key (a non-empty base-36 numeral) comes out for
    every request.  An absent User-Agent or Accept-Language counts as the
    empty string; an absent address counts as the text [undefined]. *)
Theorem generateVisitorId_stable (r1 r2 : Request) :
  JS.template (JS.or (ip r1) (remoteAddress r1))
    = JS.template (JS.or (ip r2) (remoteAddress r2)) ->
  JS.orDefault (header_UserAgent r1) "" = JS.orDefault (header_UserAgent r2) "" ->
  JS.orDefault (header_AcceptLanguage r1) ""
    = JS.orDefault (header_AcceptLanguage r2) "" ->
  generateVisitorId r1 = generateVisitorId r2
  /\ generateVisitorId r1 <> EmptyString
  /\ JS.allChars JS.isDigit36 (generateVisitorId r1) = true
  /\ JS.parse36 (generateVisitorId r1) <= 2147483648.
Proof.
  intros Ha Hu Hl. unfold generateVisitorId, combinedOf.
  rewrite Ha, Hu, Hl. repeat split.
  - apply toString36_go_nonempty.
  - apply toString36_go_digits; [apply Z.abs_nonneg | reflexivity].
  - rewrite parse36_toString36 by apply Z.abs_nonneg.
    match goal with |- Z.abs (hashCode ?s) <= _ =>
      pose proof (hashCode_range s) end.
    lia.
Qed.

Lemma generateVisitorId_stable_witness :
  generateVisitorId Sample.anonymous
    = generateVisitorId Sample.undefinedAddress
  /\ generateVisitorId Sample.anonymous <> EmptyString
  /\ JS.allChars JS.isDigit36 (generateVisitorId Sample.anonymous) = true
  /\ JS.parse36 (generateVisitorId Sample.anonymous) <= 2147483648.
Proof.
  exact (generateVisitorId_stable Sample.anonymous Sample.undefinedAddress
           eq_refl eq_refl eq_refl).
Defined.

(** C7 (as stated) fails for the address: a request without one does not
    get the key of a request whose three attributes are empty strings. *)
Lemma generateVisitorId_absent_address :
  generateVisitorId Sample.anonymous = "k17cpc"%string
  /\ generateVisitorId Sample.blank = "140"%string
  /\ generateVisitorId Sample.anonymous <> generateVisitorId Sample.blank.
Proof. vm_compute. repeat split. discriminate. Qed.

(** ** Store lemmas *)

Lemma optStringEqb_eq (a b : option string) :
  optStringEqb a b = true <-> a = b.
Proof.
  destruct a as [x|], b as [y|]; simpl; split; intros H;
    try discriminate; try reflexivity.
  - apply String.eqb_eq in H. now subst.
  - injection H as ->. apply String.eqb_refl.
Qed.

Lemma optStringEqb_neq (a b : option string) :
  optStringEqb a b = false <-> a <> b.
Proof.
  split.
  - intros H E. apply optStringEqb_eq in E. congruence.
  - intros H. destruct (optStringEqb a b) eqn:E; [|reflexivity].
    apply optStringEqb_eq in E. contradiction.
Qed.

Lemma matchesHandle_spec (h : string) (u : Url) :
  matchesHandle h u = true <-> shortId u = h \/ customAlias u = Some h.
Proof.
  unfold matchesHandle. rewrite orb_true_iff, String.eqb_eq, optStringEqb_eq.
  reflexivity.
Qed.

(** The public handle of a link resolves to a filter that the link
    matches. *)
Lemma shortUrl_matches (u : Url) : matchesHandle (shortUrl u) u = true.
Proof.
  apply matchesHandle_spec. unfold shortUrl, JS.orDefault.
  destruct (customAlias u) as [a|]; [|now left].
  destruct (String.eqb a "") eqn:E; [now left | now right].
Qed.

Lemma findActiveByHandle_Some (db : Db) (h : string) (u : Url) :
  findActiveByHandle db h = Some u ->
  In u (urls db) /\ isActive u = true
  /\ (shortId u = h \/ customAlias u = Some h).
Proof.
  unfold findActiveByHandle. intros H. apply find_some in H.
  destruct H as [Hin Hp]. apply andb_true_iff in Hp.
  destruct Hp as [Hm Ha]. apply matchesHandle_spec in Hm. auto.
Qed.



(** ** Resolution *)

Section RedirectProperties.

Variable uaParser : string -> UAResult.
Variable geoip_lookup : option string -> option Location.

Local Notation "'GET'" := (get_shortId uaParser geoip_lookup).
Local Notation "'POST'" := (post_verify_password uaParser geoip_lookup).




(** ** Recording *)

Lemma analytics_findByIdAndUpdate (db : Db) (id : N) (f : Url -> Url) :
  analytics (findByIdAndUpdate db id f) = analytics db.
Proof. reflexivity. Qed.

Lemma findVisit_existsb (db : Db) (id : N) (v : string) :
  findVisit db id v <> None ->
  existsb (sameVisitor id v) (analytics db) = true.
Proof.
  unfold findVisit. intros H.
  destruct (find (sameVisitor id v) (analytics db)) as [a|] eqn:E;
    [|contradiction].
  apply find_some in E. apply existsb_exists. exists a. exact E.
Qed.

(** The recorder does nothing at all for a visitor it has already seen:
    the insert is refused by the unique index and the error is
    swallowed. *)
Lemma trackAnalytics_seen (now : Z) (db : Db) (id : N) (req : Request)
    (v : string) :
  findVisit db id v <> None ->
  trackAnalytics uaParser geoip_lookup now db id req v = db.
Proof.
  intros H. unfold trackAnalytics, Analytics_create. simpl.
  rewrite (findVisit_existsb _ _ _ H). simpl.
  rewrite andb_false_r. reflexivity.
Qed.

(** C1, where the code departs from it.  A resolution that passes every
    gate, made by a visitor of whom the link already has an event, leaves
    the collection of events as it was: no event is appended for the
    repeat visit. *)
Theorem repeat_visit_not_recorded (tExpiry tVisit tAccess : Z) (db : Db)
    (req : Request) (u : Url) :
  findActiveByHandle db (params_shortId req) = Some u ->
  fst (GET tExpiry tVisit tAccess db req) = Redirect (originalUrl u) ->
  findVisit db (_id u) (generateVisitorId req) <> None ->
  analytics (snd (GET tExpiry tVisit tAccess db req)) = analytics db.
Proof.
  intros Hu Hr Hseen. unfold get_shortId in *. rewrite Hu in *.
  destruct (isExpired u tExpiry); [discriminate|].
  destruct (isPasswordProtected u && negb (JS.truthy (query_password req)));
    [discriminate|].
  destruct (isPasswordProtected u
            && negb (optStringEqb (query_password req) (password u)));
    [discriminate|].
  cbn [snd]. unfold recordVisit. rewrite analytics_findByIdAndUpdate.
  now rewrite trackAnalytics_seen.
Qed.

(** C3, where the code departs from it.  Two resolutions of the same
    link from the same client: both redirect, the clicks are 2 and the
    unique visitors 1, but the collection holds one event only, the
    first; none with [isUnique = false] was stored. *)
Theorem two_identical_resolutions :
  let req := Sample.visitor "Ab3dE9xZ" None in
  let first := GET 2000 2001 2002 Sample.db req in
  let second := GET 3000 3001 3002 (snd first) req in
  fst first = Redirect "https://example.com/a"
  /\ fst second = Redirect "https://example.com/a"
  /\ map isUnique (analytics (snd first)) = [true]
  /\ map isUnique (analytics (snd second)) = [true]
  /\ map timestamp (analytics (snd second)) = [2001]
  /\ uniqueVisitorsOf (snd second) 1 = 1
  /\ clicksOf (snd second) 1 = 2.
Proof. vm_compute. repeat split. Qed.

End RedirectProperties.





Lemma repeat_visit_not_recorded_witness :
  let req := Sample.visitor "Ab3dE9xZ" None in
  let db1 := snd (get_shortId Sample.uaParser Sample.geoip 2000 2001 2002
                    Sample.db req) in
  analytics (snd (get_shortId Sample.uaParser Sample.geoip 3000 3001 3002
                    db1 req)) = analytics db1.
Proof.
  intros req db1.
  apply (repeat_visit_not_recorded Sample.uaParser Sample.geoip
           3000 3001 3002 db1 req (incClicks 2002 (incUniqueVisitors Sample.link))).
  - reflexivity.
  - reflexivity.
  - vm_compute. discriminate.
Defined.

(** ** Creation and update *)

Lemma find_updateFirst (id : N) (f : Url -> Url) (l : list Url) :
  (forall u, _id (f u) = _id u) ->
  find (fun u => N.eqb (_id u) id) (updateFirst id f l)
  = option_map f (find (fun u => N.eqb (_id u) id) l).
Proof.
  intros Hf. induction l as [|w l IH]; simpl; [reflexivity|].
  destruct (N.eqb (_id w) id) eqn:E; simpl.
  - now rewrite Hf, E.
  - now rewrite E.
Qed.

Lemma findById_update (db : Db) (id : N) (f : Url -> Url) :
  (forall u, _id (f u) = _id u) ->
  findById (findByIdAndUpdate db id f) id = option_map f (findById db id).
Proof. intros Hf. unfold findById. simpl. now apply find_updateFirst. Qed.

Lemma find_owned (db : Db) (id user : N) (u : Url) :
  findById db id = Some u -> userId u = Some user ->
  find (fun w => N.eqb (_id w) id
                 && match userId w with
                    | Some o => N.eqb o user
                    | None => false
                    end) (urls db) = Some u.
Proof.
  unfold findById. intros Hf Ho.
  induction (urls db) as [|w l IH]; simpl in *; [discriminate|].
  destruct (N.eqb (_id w) id) eqn:E; simpl.
  - injection Hf as ->. rewrite Ho, N.eqb_refl. reflexivity.
  - now apply IH.
Qed.

Lemma existsb_false_forall {A : Type} (p : A -> bool) (l : list A) :
  existsb p l = false <-> forall x, In x l -> p x = false.
Proof.
  split.
  - intros H x Hin. destruct (p x) eqn:E; [|reflexivity].
    assert (existsb p l = true) by (apply existsb_exists; eauto). congruence.
  - intros H. destruct (existsb p l) eqn:E; [|reflexivity].
    apply existsb_exists in E. destruct E as [x [Hin Hp]].
    rewrite (H x Hin) in Hp. discriminate.
Qed.

Lemma holdsName_spec (a : string) (u : Url) :
  Urls.holdsName a u = true <-> shortId u = a \/ customAlias u = Some a.
Proof.
  unfold Urls.holdsName. rewrite orb_true_iff, optStringEqb_eq, String.eqb_eq.
  tauto.
Qed.

Lemma matchesAlias_truthy (a : string) :
  Urls.matchesAlias a = true ->
  JS.truthy (Some a) = true /\ forall d, JS.orDefault (Some a) d = a.
Proof.
  unfold Urls.matchesAlias. intros H. apply andb_true_iff in H.
  destruct H as [H _]. simpl. destruct (String.eqb a ""); [discriminate|].
  split; reflexivity.
Qed.

Section UrlsProperties.

Variable isURL : string -> bool.
Variable isISO8601 : string -> bool.
Variable newDate : string -> option Z.
Variable toDataURL : string -> option string.

Local Notation "'CREATE'" :=
  (Urls.create isURL isISO8601 newDate toDataURL).
Local Notation "'UPDATE'" := (Urls.update isURL isISO8601 newDate).

(** Creation keeps the invariant: the new link stores a password exactly
    when it is protected. *)
Lemma create_passwordInvariant (origin : string) (now : Z) (token : string)
    (user : option N) (db db' : Db) (b : Urls.Body) (url : Url)
    (qrCode : string) :
  CREATE origin now token user db b = (Urls.Created url qrCode, db') ->
  Urls.passwordInvariant url.
Proof.
  unfold Urls.create, Urls.passwordInvariant.
  destruct (negb (Urls.validCreate isURL isISO8601 b)); [discriminate|].
  destruct (JS.truthy (Urls.b_customAlias b) && _); [discriminate|].
  destruct (Urls.flagOf b) eqn:Hflag; simpl.
  - destruct (JS.truthy (Urls.b_password b)) eqn:Hpw; simpl;
      [|discriminate].
    destruct (Urls.expiryOf newDate b) as [expiry|]; [|discriminate].
    destruct (Urls.save db _) as [db1|]; [|discriminate].
    destruct (toDataURL _) as [q|]; [|discriminate].
    intros H. injection H as <- _ _. simpl.
    destruct (Urls.b_password b); [|discriminate]. split; congruence.
  - destruct (Urls.expiryOf newDate b) as [expiry|]; [|discriminate].
    destruct (Urls.save db _) as [db1|]; [|discriminate].
    destruct (toDataURL _) as [q|]; [|discriminate].
    intros H. injection H as <- _ _. simpl. split; congruence.
Qed.

(** An update that switches protection on without a password is refused
    and changes nothing. *)
Lemma update_protection_needs_password (user id : N) (db : Db)
    (b : Urls.Body) (u : Url) :
  Urls.validUpdate isURL isISO8601 b = true ->
  findById db id = Some u -> userId u = Some user ->
  Urls.b_customAlias b = None ->
  Urls.b_isPasswordProtected b = Some true ->
  Urls.b_password b = None ->
  UPDATE user id db b = (Urls.PasswordRequired, db).
Proof.
  intros Hv Hf Ho Ha Hp Hpw. unfold Urls.update.
  rewrite Hv, (find_owned _ _ _ _ Hf Ho), Ha. simpl.
  unfold Urls.flagOf. rewrite Hp, Hpw. reflexivity.
Qed.

(** C4, where the code departs from it.  An update of a protected link
    that only switches the protection off is accepted, and the stored
    document then has [isPasswordProtected = false] with the old password
    still in place: the invariant is lost.  (This is so whenever the
    request gets as far as the write: an expiry text that [Date] cannot
    read makes the write throw, and the answer is then the 500 with the
    store as it was.) *)
Theorem update_clearing_protection_keeps_password (user id : N) (db : Db)
    (b : Urls.Body) (u : Url) (p : string) :
  Urls.validUpdate isURL isISO8601 b = true ->
  findById db id = Some u -> userId u = Some user ->
  password u = Some p ->
  Urls.b_customAlias b = None ->
  Urls.b_isPasswordProtected b = Some false ->
  Urls.b_password b = None ->
  (Urls.expiryOf newDate b = None ->
   UPDATE user id db b = (Urls.ServerError, db))
  /\ forall expiry, Urls.expiryOf newDate b = Some expiry ->
     exists u',
       UPDATE user id db b
         = (Urls.Updated (Some (Urls.withoutPassword u')),
            findByIdAndUpdate db id (Urls.applyUpdate expiry b))
       /\ findById (snd (UPDATE user id db b)) id = Some u'
       /\ isPasswordProtected u' = false
       /\ password u' = Some p
       /\ ~ Urls.passwordInvariant u'.
Proof.
  intros Hv Hf Ho Hp Ha Hflag Hpw. split.
  { intros He. unfold Urls.update.
    rewrite Hv, (find_owned _ _ _ _ Hf Ho), Ha. simpl negb. cbv iota.
    unfold Urls.flagOf. rewrite Hflag. simpl andb. cbv iota.
    now rewrite He. }
  intros expiry He.
  exists (Urls.applyUpdate expiry b u).
  assert (Hfind : findById
                    (findByIdAndUpdate db id (Urls.applyUpdate expiry b))
                    id
                  = Some (Urls.applyUpdate expiry b u)).
  { rewrite findById_update by reflexivity. now rewrite Hf. }
  assert (Hrun : UPDATE user id db b
                 = (Urls.Updated
                      (Some (Urls.withoutPassword
                               (Urls.applyUpdate expiry b u))),
                    findByIdAndUpdate db id (Urls.applyUpdate expiry b))).
  { unfold Urls.update.
    rewrite Hv, (find_owned _ _ _ _ Hf Ho), Ha. simpl negb. cbv iota.
    unfold Urls.flagOf. rewrite Hflag. simpl andb. cbv iota.
    rewrite He. unfold findById in Hfind. now rewrite Hfind. }
  split; [exact Hrun|]. rewrite Hrun. split; [exact Hfind|].
  unfold Urls.applyUpdate, Urls.passwordInvariant. simpl.
  rewrite Hflag, Hpw, Hp. repeat split.
  intros [H _]. assert (false = true) by (apply H; discriminate).
  discriminate.
Qed.

(** The validator accepts an expiry text that [Date] cannot read: the
    document is then refused at the insert, and a create request that is
    valid, with a free alias when it names one, gets the 500 of the catch
    block; the store is unchanged. *)
Lemma create_unreadable_date (origin : string) (now : Z) (token : string)
    (user : option N) (db : Db) (b : Urls.Body) :
  Urls.validCreate isURL isISO8601 b = true ->
  (forall a, Urls.b_customAlias b = Some a ->
             existsb (Urls.holdsName a) (urls db) = false) ->
  (Urls.flagOf b = true -> JS.truthy (Urls.b_password b) = true) ->
  Urls.expiryOf newDate b = None ->
  CREATE origin now token user db b = (Urls.ServerError, db).
Proof.
  intros Hv Hfree Hpw He. unfold Urls.create. rewrite Hv. cbn [negb].
  assert (Ha : JS.truthy (Urls.b_customAlias b)
               && existsb (Urls.holdsName
                             (JS.orDefault (Urls.b_customAlias b) ""))
                    (urls db) = false).
  { destruct (Urls.b_customAlias b) as [a|] eqn:Ea; [|reflexivity].
    destruct (JS.truthy (Some a)) eqn:Ht; [|reflexivity].
    cbn [andb]. cbn [JS.truthy] in Ht. apply negb_true_iff in Ht.
    cbn [JS.orDefault]. rewrite Ht. now apply Hfree. }
  rewrite Ha.
  assert (Hgate : Urls.flagOf b && negb (JS.truthy (Urls.b_password b))
                  = false).
  { destruct (Urls.flagOf b); [|reflexivity]. now rewrite Hpw. }
  now rewrite Hgate, He.
Qed.

(** C6, where the code departs from it.  For a request that passes
    validation and names an alias, the answer is [AliasTaken] exactly
    when some link, active or not, has that name as its token or alias.
    But when the alias is free, the other inputs are in order and the
    link has been stored under the alias, the handler still has the QR
    code to draw: when that throws, the caller gets the 500 of the catch
    block for a link that is in the store and resolves. *)
Theorem create_alias_outcome (origin : string) (now : Z) (token : string)
    (user : option N) (db : Db) (b : Urls.Body) (a : string) :
  Urls.validCreate isURL isISO8601 b = true ->
  Urls.b_customAlias b = Some a ->
  (fst (CREATE origin now token user db b) = Urls.AliasTaken
   <-> exists u, In u (urls db) /\ (shortId u = a \/ customAlias u = Some a))
  /\
  ((forall u, In u (urls db) -> ~ (shortId u = a \/ customAlias u = Some a)) ->
   (Urls.flagOf b = true -> JS.truthy (Urls.b_password b) = true) ->
   (forall u, In u (urls db) -> shortId u <> token) ->
   forall expiry, Urls.expiryOf newDate b = Some expiry ->
   exists url,
     shortId url = token /\ customAlias url = Some a
     /\ shortUrl url = a /\ isActive url = true
     /\ snd (CREATE origin now token user db b)
        = {| urls := urls db ++ [url]; analytics := analytics db |}
     /\ (forall qrCode,
           toDataURL (origin ++ "/" ++ a)%string = Some qrCode ->
           fst (CREATE origin now token user db b)
           = Urls.Created url qrCode)
     /\ (toDataURL (origin ++ "/" ++ a)%string = None ->
         fst (CREATE origin now token user db b) = Urls.ServerError)).
Proof.
  intros Hv Ha.
  assert (Hm : Urls.matchesAlias a = true).
  { pose proof Hv as Hv'. unfold Urls.validCreate in Hv'.
    rewrite Ha in Hv'. cbn [Urls.optionalField] in Hv'.
    repeat (apply andb_true_iff in Hv'; destruct Hv' as [Hv' ?]).
    assumption. }
  destruct (matchesAlias_truthy a Hm) as [Ht Hd].
  split.
  - unfold Urls.create. rewrite Hv, Ha, Ht, Hd. simpl negb. cbv iota.
    simpl andb.
    destruct (existsb (Urls.holdsName a) (urls db)) eqn:E.
    + split; [|reflexivity]. intros _.
      apply existsb_exists in E. destruct E as [u [Hin Hh]].
      exists u. split; [assumption | now apply holdsName_spec].
    + split.
      * intros H. exfalso.
        destruct (Urls.flagOf b && negb (JS.truthy (Urls.b_password b)));
          [discriminate|].
        destruct (Urls.expiryOf newDate b); [|discriminate].
        destruct (Urls.save db _); [|discriminate].
        destruct (toDataURL _); discriminate.
      * intros [u [Hin Hh]]. apply holdsName_spec in Hh.
        rewrite (proj1 (existsb_false_forall _ _) E u Hin) in Hh.
        discriminate.
  - intros Hfree Hpw Htok expiry He.
    assert (E : existsb (Urls.holdsName a) (urls db) = false).
    { apply existsb_false_forall. intros u Hin.
      destruct (Urls.holdsName a u) eqn:Hh; [|reflexivity].
      apply holdsName_spec in Hh. exfalso. exact (Hfree u Hin Hh). }
    assert (Hgate : Urls.flagOf b && negb (JS.truthy (Urls.b_password b))
                    = false).
    { destruct (Urls.flagOf b); [|reflexivity]. now rewrite Hpw. }
    unfold Urls.create. rewrite Hv, Ha, Ht, Hd, E, Hgate, He.
    simpl negb. simpl andb. cbv iota.
    unfold Urls.save. cbn [shortId customAlias Urls.isSome].
    assert (E1 : existsb (fun w => String.eqb (shortId w) token) (urls db)
                 = false).
    { apply existsb_false_forall. intros u Hin.
      apply String.eqb_neq. now apply Htok. }
    assert (E2 : existsb (fun w => optStringEqb (customAlias w) (Some a))
                   (urls db) = false).
    { apply existsb_false_forall. intros u Hin.
      apply optStringEqb_neq. intros Hc. apply (Hfree u Hin). now right. }
    rewrite E1, E2. simpl orb. cbv iota.
    unfold Urls.addressOf, shortUrl. cbn [shortId customAlias]. rewrite Hd.
    exists {| _id := Urls.freshId db;
              originalUrl := JS.orDefault (Urls.b_originalUrl b) "";
              shortId := token;
              customAlias := Some a;
              userId := user;
              isPasswordProtected := Urls.flagOf b;
              password := if Urls.flagOf b then Urls.b_password b else None;
              expiresAt := expiry;
              isActive := true;
              clicks := 0;
              uniqueVisitors := 0;
              createdAt := now;
              lastAccessed := None |}.
    cbn [shortId customAlias isActive].
    split; [reflexivity|]. split; [reflexivity|]. split; [apply Hd|].
    split; [reflexivity|].
    destruct (toDataURL (origin ++ "/" ++ a)%string) as [q|];
      cbn [fst snd].
    + split; [reflexivity|]. split; [|discriminate].
      intros q' Hq. now injection Hq as ->.
    + split; [reflexivity|]. split; [discriminate | reflexivity].
Qed.

End UrlsProperties.

Lemma update_clearing_protection_keeps_password_witness :
  exists u',
    Urls.update Sample.isURL Sample.isISO8601 Sample.newDate 7%N 3%N
      Sample.db Sample.unprotect
    = (Urls.Updated (Some (Urls.withoutPassword u')),
       findByIdAndUpdate Sample.db 3%N
         (Urls.applyUpdate None Sample.unprotect))
    /\ findById
         (snd (Urls.update Sample.isURL Sample.isISO8601 Sample.newDate
                 7%N 3%N Sample.db Sample.unprotect)) 3%N = Some u'
    /\ isPasswordProtected u' = false
    /\ password u' = Some "secret"%string
    /\ ~ Urls.passwordInvariant u'.
Proof.
  exact (proj2 (update_clearing_protection_keeps_password
                  Sample.isURL Sample.isISO8601 Sample.newDate 7%N 3%N
                  Sample.db Sample.unprotect Sample.locked "secret"
                  eq_refl eq_refl eq_refl eq_refl eq_refl eq_refl eq_refl)
           None eq_refl).
Defined.

Lemma create_alias_outcome_witness :
  fst (Urls.create Sample.isURL Sample.isISO8601 Sample.newDate
         Sample.toDataURL Sample.origin 2000 "Nn4mKk2j" None
         Sample.db (Sample.newLink "promo")) = Urls.AliasTaken
  /\ exists url,
       shortId url = "Nn4mKk2j"%string
       /\ customAlias url = Some Sample.longAlias
       /\ shortUrl url = Sample.longAlias /\ isActive url = true
       /\ snd (Urls.create Sample.isURL Sample.isISO8601 Sample.newDate
                 Sample.toDataURL Sample.origin 2000 "Nn4mKk2j" None
                 Sample.db (Sample.newLink Sample.longAlias))
          = {| urls := urls Sample.db ++ [url];
               analytics := analytics Sample.db |}
       /\ fst (Urls.create Sample.isURL Sample.isISO8601 Sample.newDate
                 Sample.toDataURL Sample.origin 2000 "Nn4mKk2j" None
                 Sample.db (Sample.newLink Sample.longAlias))
          = Urls.ServerError.
Proof.
  split.
  - apply (proj1 (create_alias_outcome Sample.isURL Sample.isISO8601
                    Sample.newDate Sample.toDataURL Sample.origin
                    2000 "Nn4mKk2j" None Sample.db (Sample.newLink "promo")
                    "promo" eq_refl eq_refl)).
    exists Sample.retired. split; [simpl; auto | right; reflexivity].
  - destruct (proj2 (create_alias_outcome Sample.isURL Sample.isISO8601
                       Sample.newDate Sample.toDataURL Sample.origin
                       2000 "Nn4mKk2j" None Sample.db
                       (Sample.newLink Sample.longAlias)
                       Sample.longAlias eq_refl eq_refl))
      with (expiry := @None Z)
      as [url [H1 [H2 [H3 [H4 [H5 [_ H7]]]]]]].
    + intros u [<-|[<-|[<-|[]]]] [H|H]; vm_compute in H; discriminate.
    + discriminate.
    + intros u [<-|[<-|[<-|[]]]]; discriminate.
    + reflexivity.
    + exists url. repeat (split; [assumption|]). apply H7. reflexivity.
Defined.

(** The same request with an alias of ordinary length is answered with
    the 201 and the QR code. *)
Example create_with_short_alias :
  exists url qrCode,
    Urls.create Sample.isURL Sample.isISO8601 Sample.newDate
      Sample.toDataURL Sample.origin 2000 "Nn4mKk2j" None
      Sample.db (Sample.newLink "launch")
    = (Urls.Created url qrCode,
       {| urls := urls Sample.db ++ [url];
          analytics := analytics Sample.db |})
    /\ customAlias url = Some "launch"%string.
Proof. eexists. eexists. split; reflexivity. Qed.

(** Creation fails in two more ways that the inputs do not show.  The
    alias [launch] is free and the request is valid, but [nanoid]
    returns the token of an existing link: the insert is refused and the
    caller gets the 500, with nothing stored.  And a week date, which
    the validator accepts, is not read by [Date]: again the 500, with
    nothing stored. *)
Example create_token_collision :
  Urls.validCreate Sample.isURL Sample.isISO8601 (Sample.newLink "launch")
    = true
  /\ existsb (Urls.holdsName "launch") (urls Sample.db) = false
  /\ Urls.create Sample.isURL Sample.isISO8601 Sample.newDate
       Sample.toDataURL Sample.origin 2000 "Ab3dE9xZ" None
       Sample.db (Sample.newLink "launch") = (Urls.ServerError, Sample.db).
Proof. repeat split. Qed.

Example create_week_date :
  Urls.validCreate Sample.isURL Sample.isISO8601 Sample.weekDate = true
  /\ Urls.create Sample.isURL Sample.isISO8601 Sample.newDate
       Sample.toDataURL Sample.origin 2000 "Nn4mKk2j" None
       Sample.db Sample.weekDate = (Urls.ServerError, Sample.db).
Proof. repeat split. Qed.

(** ** The time series *)

Example formatDay_epoch : Stats.formatDay 0 = "1970-01-01"%string.
Proof. reflexivity. Qed.

Example formatDay_leap : Stats.formatDay 19782 = "2024-02-29"%string.
Proof. reflexivity. Qed.

Example formatDay_2026 : Stats.formatDay 20758 = "2026-11-01"%string.
Proof. reflexivity. Qed.

Lemma filter_insertByTime (p : Analytics -> bool) (a : Analytics)
    (l : list Analytics) :
  List.length (filter p (Stats.insertByTime a l))
  = List.length (filter p (a :: l)).
Proof.
  induction l as [|b l IH]; [reflexivity|].
  simpl Stats.insertByTime.
  destruct (timestamp a <? timestamp b); [reflexivity|].
  simpl in *. destruct (p b), (p a); simpl in *; lia.
Qed.

(** Sorting does not change how many events pass a test. *)
Lemma filter_sortByTime (p : Analytics -> bool) (l : list Analytics) :
  List.length (filter p (Stats.sortByTime l)) = List.length (filter p l).
Proof.
  unfold Stats.sortByTime.
  assert (G : forall acc,
             List.length
               (filter p (fold_left (fun acc a => Stats.insertByTime a acc)
                            l acc))
             = (List.length (filter p l) + List.length (filter p acc))%nat).
  { induction l as [|a l IH]; intros acc; simpl; [reflexivity|].
    rewrite IH, filter_insertByTime. simpl.
    destruct (p a); simpl; lia. }
  rewrite G. simpl. lia.
Qed.

(** The bound on the rounds is not what ends the loop, in any zone: with
    that many rounds or more the loop leaves by its own test, and gives
    the series of [processTimeSeriesData]. *)
Lemma seriesLoop_rounds (zone : Stats.Zone) (analytics : list Analytics)
    (endDate : Z) :
  forall r1 r2 current,
    (Z.to_nat ((endDate - current) / Stats.minDay zone + 1) <= r1)%nat ->
    (Z.to_nat ((endDate - current) / Stats.minDay zone + 1) <= r2)%nat ->
    Stats.seriesLoop zone r1 analytics current endDate
    = Stats.seriesLoop zone r2 analytics current endDate.
Proof.
  pose proof (Stats.minDay_pos zone) as Hm.
  assert (Hstop : forall r current,
             (Z.to_nat ((endDate - current) / Stats.minDay zone + 1)
              <= 0)%nat ->
             Stats.seriesLoop zone r analytics current endDate = []).
  { intros [|r] current H; [reflexivity|]. cbn [Stats.seriesLoop].
    destruct (current <=? endDate) eqn:E; [|reflexivity].
    apply Z.leb_le in E.
    assert (0 <= (endDate - current) / Stats.minDay zone)
      by (apply Z.div_pos; lia).
    lia. }
  induction r1 as [|r1 IH]; intros r2 current H1 H2.
  - rewrite (Hstop r2 current H1). reflexivity.
  - destruct r2 as [|r2]; [now rewrite (Hstop (S r1) current H2)|].
    cbn [Stats.seriesLoop].
    destruct (current <=? endDate) eqn:E; [|reflexivity].
    apply Z.leb_le in E. f_equal.
    pose proof (Stats.addDays_forward zone current) as Hf.
    assert (Hq : (endDate - Stats.addDays zone current 1)
                 / Stats.minDay zone + 1
                 <= (endDate - current) / Stats.minDay zone).
    { assert ((endDate - Stats.addDays zone current 1) / Stats.minDay zone
              <= (endDate - current + (-1) * Stats.minDay zone)
                 / Stats.minDay zone)
        by (apply Z.div_le_mono; lia).
      rewrite Z.div_add in H by lia. lia. }
    assert (0 <= (endDate - current) / Stats.minDay zone)
      by (apply Z.div_pos; lia).
    apply IH; lia.
Qed.

Lemma seriesLoop_enough_rounds (zone : Stats.Zone) (rounds : nat)
    (analytics : list Analytics) (startDate endDate : Z)
    (period : string) :
  (Z.to_nat ((endDate - startDate) / Stats.minDay zone + 1) <= rounds)%nat ->
  Stats.seriesLoop zone rounds analytics startDate endDate
  = Stats.processTimeSeriesData zone analytics startDate endDate period.
Proof.
  intros H. unfold Stats.processTimeSeriesData.
  apply seriesLoop_rounds; [assumption | apply Nat.le_refl].
Qed.

Lemma periodDays_cases (period : string) :
  Stats.periodDays period = 1 \/ Stats.periodDays period = 7
  \/ Stats.periodDays period = 30 \/ Stats.periodDays period = 90.
Proof.
  unfold Stats.periodDays.
  repeat match goal with |- context [String.eqb ?a ?b] =>
           destruct (String.eqb a b) end; auto.
Qed.

Lemma filter_filter_and {A : Type} (p q : A -> bool) (l : list A) :
  filter p (filter q l) = filter (fun a => q a && p a) l.
Proof.
  induction l as [|a l IH]; simpl; [reflexivity|].
  destruct (q a); simpl; [destruct (p a)|]; now rewrite IH.
Qed.

(** From here on the zone of the process keeps one offset from UTC. *)
Section StatsProperties.

Variable utcOffset : Z.

Local Notation "'D'" := Stats.msPerDay.
Local Notation "'zone'" := (Stats.fixed utcOffset).
Local Notation "'dayOf'" := (Stats.dayOf (Stats.fixed utcOffset)).

Lemma dayOf_add (t : Z) (i : Z) : dayOf (t + i * D) = dayOf t + i.
Proof.
  cbn [Stats.dayOf Stats.fixed].
  replace (t + i * D + utcOffset) with (t + utcOffset + i * D) by lia.
  apply Z.div_add. unfold Stats.msPerDay. lia.
Qed.

(** An instant lies between the start and the end of the day of
    [current] exactly when it is on the same local day. *)
Lemma inDayOf_spec (current : Z) (a : Analytics) :
  Stats.inDayOf zone current a
  = (dayOf (timestamp a) =? dayOf current).
Proof.
  unfold Stats.inDayOf.
  cbn [Stats.endOfDay Stats.startOfDay Stats.dayOf Stats.fixed].
  unfold Stats.msPerDay.
  pose proof (Z.div_mod (timestamp a + utcOffset) 86400000 ltac:(lia)).
  pose proof (Z.mod_pos_bound (timestamp a + utcOffset) 86400000
                ltac:(lia)).
  pose proof (Z.div_mod (current + utcOffset) 86400000 ltac:(lia)).
  pose proof (Z.mod_pos_bound (current + utcOffset) 86400000 ltac:(lia)).
  destruct (Z.eqb_spec ((timestamp a + utcOffset) / 86400000)
              ((current + utcOffset) / 86400000)) as [E|E].
  - apply andb_true_iff. split; apply Z.leb_le; lia.
  - apply andb_false_iff.
    destruct (Z.lt_ge_cases ((timestamp a + utcOffset) / 86400000)
                ((current + utcOffset) / 86400000)).
    + left. apply Z.leb_gt. lia.
    + right. apply Z.leb_gt. lia.
Qed.

(** The loop pushes one bucket for each of [current], [current + 1 day],
    ... that is not after [endDate], however large the bound. *)
Lemma seriesLoop_eq (rounds : nat) (analytics : list Analytics)
    (endDate : Z) :
  forall current,
    Stats.seriesLoop zone rounds analytics current endDate
    = map (fun i => Stats.bucketAt zone analytics
                      (current + Z.of_nat i * D))
        (seq 0 (Nat.min rounds (Z.to_nat ((endDate - current) / D + 1)))).
Proof.
  induction rounds as [|n IH]; intros current; [reflexivity|].
  cbn [Stats.seriesLoop].
  change (Stats.addDays zone current 1) with (current + D).
  destruct (current <=? endDate) eqn:E.
  - apply Z.leb_le in E.
    assert (Hn : Z.to_nat ((endDate - current) / D + 1)
                 = S (Z.to_nat ((endDate - (current + D)) / D + 1))).
    { replace (endDate - (current + D)) with (endDate - current + (-1) * D)
        by lia.
      rewrite Z.div_add by (unfold Stats.msPerDay; lia).
      assert (0 <= (endDate - current) / D)
        by (apply Z.div_pos; unfold Stats.msPerDay; lia).
      lia. }
    rewrite Hn. simpl Nat.min. simpl seq. simpl map.
    f_equal.
    + f_equal. lia.
    + rewrite IH, <- seq_shift, map_map.
      apply map_ext. intros i. f_equal. lia.
  - apply Z.leb_gt in E.
    assert (Hn : Z.to_nat ((endDate - current) / D + 1) = 0%nat).
    { assert ((endDate - current) / D < 0)
        by (apply Z.div_lt_upper_bound; unfold Stats.msPerDay; lia).
      lia. }
    rewrite Hn, Nat.min_0_r. reflexivity.
Qed.

Lemma processTimeSeriesData_eq (analytics : list Analytics)
    (startDate endDate : Z) (period : string) :
  Stats.processTimeSeriesData zone analytics startDate endDate period
  = map (fun i => Stats.bucketAt zone analytics
                    (startDate + Z.of_nat i * D))
      (seq 0 (Z.to_nat ((endDate - startDate) / D + 1))).
Proof.
  unfold Stats.processTimeSeriesData.
  change (Stats.minDay zone) with D.
  now rewrite seriesLoop_eq, Nat.min_id.
Qed.

(** A bucket of the series for the window's events is the bucket of the
    day of [current]. *)
Lemma bucketAt_findInWindow (db : Db) (id : N)
    (startDate endDate current : Z) :
  Stats.bucketAt zone (Stats.findInWindow db id startDate endDate)
    current
  = Stats.dayBucket zone db id startDate endDate (dayOf current).
Proof.
  unfold Stats.bucketAt, Stats.dayBucket, Stats.findInWindow,
    Stats.eventsOn.
  f_equal.
  - rewrite filter_sortByTime, filter_filter_and. do 2 f_equal.
    apply filter_ext. intros a. now rewrite inDayOf_spec.
  - rewrite !filter_filter_and, filter_sortByTime, filter_filter_and.
    do 2 f_equal. apply filter_ext. intros a.
    rewrite inDayOf_spec. now rewrite !andb_assoc.
Qed.

(** The series of the route, for any two readings of the clock: one
    bucket for each of the days of [startDate], [startDate + 1 day], ...
    as long as that instant is not after [endDate]. *)
Lemma get_url_timeSeries_eq (tEnd tStart : Z) (db : Db) (user id : N)
    (period : string) (u : Url) :
  findById db id = Some u -> userId u = Some user ->
  let startDate := tStart - Stats.periodDays period * D in
  Stats.get_url_timeSeries zone tEnd tStart db user id period
  = Some (map (fun i => Stats.dayBucket zone db id startDate tEnd
                          (dayOf startDate + Z.of_nat i))
            (seq 0 (Z.to_nat ((tEnd - startDate) / D + 1)))).
Proof.
  intros Hf Ho startDate. unfold Stats.get_url_timeSeries.
  rewrite (find_owned _ _ _ _ Hf Ho).
  change (Stats.addDays zone tStart (- Stats.periodDays period))
    with (tStart + - Stats.periodDays period * D).
  replace (tStart + - Stats.periodDays period * D) with startDate
    by (unfold startDate; lia).
  rewrite processTimeSeriesData_eq. f_equal.
  apply map_ext. intros i.
  now rewrite bucketAt_findInWindow, dayOf_add.
Qed.

(** When both readings of the clock give the same instant, the series is
    dense: a bucket for every local day from the day of [now - n days] to
    the day of [now], each with the counts of its day, zero included. *)
Lemma timeSeries_dense_when_clock_stable (now : Z) (db : Db) (user id : N)
    (period : string) (u : Url) :
  findById db id = Some u -> userId u = Some user ->
  let n := Stats.periodDays period in
  let startDate := now - n * D in
  dayOf startDate + n = dayOf now
  /\ Stats.get_url_timeSeries zone now now db user id period
     = Some (map (fun i => Stats.dayBucket zone db id startDate now
                             (dayOf startDate + Z.of_nat i))
               (seq 0 (S (Z.to_nat n)))).
Proof.
  intros Hf Ho n startDate. split.
  - unfold startDate. replace (now - n * D) with (now + (- n) * D) by lia.
    rewrite dayOf_add. lia.
  - rewrite (get_url_timeSeries_eq now now db user id period u Hf Ho).
    fold n. fold startDate. do 3 f_equal.
    unfold startDate. replace (now - (now - n * D)) with (0 + n * D) by lia.
    rewrite Z.div_add by (unfold Stats.msPerDay; lia).
    pose proof (periodDays_cases period). fold n in H.
    rewrite Z.div_0_l by (unfold Stats.msPerDay; lia). lia.
Qed.

(** C9, where the code departs from it.  The handler reads the clock
    once for [endDate] and once more for [startDate].  When the clock
    has advanced in between (within the same local day), the last round
    of the loop starts after [endDate] and is not run: the series has [n]
    buckets instead of [n + 1], for the days up to yesterday, and the day
    of [endDate] has no bucket.  The process runs in a zone that keeps
    one offset from UTC, UTC itself for one. *)
Theorem timeSeries_misses_last_day (tEnd tStart : Z) (db : Db)
    (user id : N) (period : string) (u : Url) :
  findById db id = Some u -> userId u = Some user ->
  tEnd < tStart -> dayOf tStart = dayOf tEnd ->
  let n := Stats.periodDays period in
  exists series,
    Stats.get_url_timeSeries zone tEnd tStart db user id period
      = Some series
    /\ List.length series = Z.to_nat n
    /\ map Stats.date series
       = map (fun i => Stats.formatDay (dayOf tEnd - n + Z.of_nat i))
           (seq 0 (Z.to_nat n)).
Proof.
  intros Hf Ho Hlt Hday n.
  rewrite (get_url_timeSeries_eq tEnd tStart db user id period u Hf Ho).
  fold n.
  assert (Hn : (tEnd - (tStart - n * D)) / D + 1 = n).
  { assert (Hd : tStart - tEnd < D).
    { cbn [Stats.dayOf Stats.fixed] in Hday. unfold Stats.msPerDay in *.
      pose proof (Z.div_mod (tStart + utcOffset) 86400000 ltac:(lia)).
      pose proof (Z.mod_pos_bound (tStart + utcOffset) 86400000 ltac:(lia)).
      pose proof (Z.div_mod (tEnd + utcOffset) 86400000 ltac:(lia)).
      pose proof (Z.mod_pos_bound (tEnd + utcOffset) 86400000 ltac:(lia)).
      lia. }
    assert (Hq : (tEnd - (tStart - n * D)) / D = n - 1).
    { symmetry.
      apply (Z.div_unique _ _ _ (D - (tStart - tEnd)));
        unfold Stats.msPerDay in *; lia. }
    lia. }
  rewrite Hn. eexists. split; [reflexivity|]. split.
  - now rewrite length_map, length_seq.
  - rewrite map_map. apply map_ext. intros i.
    cbn [Stats.date Stats.dayBucket]. f_equal.
    replace (tStart - n * D) with (tStart + (- n) * D) by lia.
    rewrite dayOf_add, Hday. lia.
Qed.

End StatsProperties.

Lemma timeSeries_misses_last_day_witness :
  exists series,
    Stats.get_url_timeSeries (Stats.fixed 0) Sample.noon (Sample.noon + 1)
      Sample.visited 7%N 1%N "7d" = Some series
    /\ List.length series = Z.to_nat (Stats.periodDays "7d")
    /\ map Stats.date series
       = map (fun i => Stats.formatDay
                         (Stats.dayOf (Stats.fixed 0) Sample.noon
                          - Stats.periodDays "7d" + Z.of_nat i))
           (seq 0 (Z.to_nat (Stats.periodDays "7d"))).
Proof.
  apply (timeSeries_misses_last_day 0 Sample.noon (Sample.noon + 1)
           Sample.visited 7%N 1%N "7d" Sample.link).
  - reflexivity.
  - reflexivity.
  - unfold Sample.noon. lia.
  - reflexivity.
Defined.

(** The same query, spelled out.  With one reading of the clock the eight
    days from 2026-10-25 to 2026-11-01 are listed, empty days with zeros;
    with the second reading one millisecond later, 2026-11-01 and its
    visit are gone. *)
Example timeSeries_stable_clock :
  option_map (map (fun b => (Stats.date b, Stats.clicks b,
                             Stats.uniqueVisitors b)))
    (Stats.get_url_timeSeries (Stats.fixed 0) Sample.noon Sample.noon
       Sample.visited 7%N 1%N "7d")
  = Some [("2026-10-25"%string, 0, 0); ("2026-10-26"%string, 0, 0);
          ("2026-10-27"%string, 0, 0); ("2026-10-28"%string, 0, 0);
          ("2026-10-29"%string, 0, 0); ("2026-10-30"%string, 2, 2);
          ("2026-10-31"%string, 0, 0); ("2026-11-01"%string, 1, 1)].
Proof. vm_compute. reflexivity. Qed.

Example timeSeries_clock_tick :
  option_map (map (fun b => (Stats.date b, Stats.clicks b,
                             Stats.uniqueVisitors b)))
    (Stats.get_url_timeSeries (Stats.fixed 0) Sample.noon (Sample.noon + 1)
       Sample.visited 7%N 1%N "7d")
  = Some [("2026-10-25"%string, 0, 0); ("2026-10-26"%string, 0, 0);
          ("2026-10-27"%string, 0, 0); ("2026-10-28"%string, 0, 0);
          ("2026-10-29"%string, 0, 0); ("2026-10-30"%string, 2, 2);
          ("2026-10-31"%string, 0, 0)].
Proof. vm_compute. reflexivity. Qed.

(** ** Concurrent visits *)

Lemma setNth_split {A : Type} (x : A) (l : list A) :
  forall i y, nth_error l i = Some y ->
    exists l1 l2, l = l1 ++ y :: l2 /\ setNth i x l = l1 ++ x :: l2.
Proof.
  induction l as [|z l IH]; intros [|i] y H; simpl in *; try discriminate.
  - injection H as ->. now exists [], l.
  - destruct (IH i y H) as [l1 [l2 [-> E]]].
    exists (z :: l1), l2. simpl. now rewrite E.
Qed.

Lemma total_app (f : Visit -> Z) (l1 l2 : list Visit) :
  total f (l1 ++ l2) = total f l1 + total f l2.
Proof. induction l1 as [|th l1 IH]; simpl; [reflexivity | rewrite IH; lia]. Qed.

Lemma total_cons (f : Visit -> Z) (th : Visit) (l : list Visit) :
  total f (th :: l) = f th + total f l.
Proof. reflexivity. Qed.

(** Splits the tallies of a list of visits around the visit that moves. *)
Ltac tally :=
  rewrite ?total_app, ?total_cons, ?length_app in *;
  cbn [List.length] in *;
  unfold owesUnique, owesClick in *;
  cbn [v_pc] in *.

Lemma total_early (l : list Visit) :
  Forall early l ->
  total owesUnique l = 0 /\ total owesClick l = Z.of_nat (List.length l).
Proof.
  induction 1 as [|th l Hth _ [IH1 IH2]]; [split; reflexivity|].
  cbn [total fold_right List.length]. fold (total owesUnique l).
  fold (total owesClick l). rewrite IH1, IH2.
  unfold owesUnique, owesClick. destruct Hth as [-> | ->]; split; lia.
Qed.

Lemma existsb_filter_nil {A : Type} (p : A -> bool) (l : list A) :
  existsb p l = false <-> filter p l = [].
Proof.
  induction l as [|a l IH]; simpl; [tauto|].
  destruct (p a); simpl; [split; discriminate | exact IH].
Qed.

Lemma findVisit_None (db : Db) (id : N) (v : string) :
  visitsOf db id v = [] -> findVisit db id v = None.
Proof.
  unfold visitsOf, findVisit. intros H. apply existsb_filter_nil in H.
  destruct (find (sameVisitor id v) (analytics db)) as [a|] eqn:E;
    [|reflexivity].
  apply find_some in E.
  assert (existsb (sameVisitor id v) (analytics db) = true)
    by (apply existsb_exists; eauto).
  congruence.
Qed.

Lemma findById_incClicks (db : Db) (id : N) (now : Z) (u : Url) :
  findById db id = Some u ->
  findById (findByIdAndUpdate db id (incClicks now)) id
  = Some (incClicks now u).
Proof. intros H. rewrite findById_update by reflexivity. now rewrite H. Qed.

Lemma findById_incUniqueVisitors (db : Db) (id : N) (u : Url) :
  findById db id = Some u ->
  findById (findByIdAndUpdate db id incUniqueVisitors) id
  = Some (incUniqueVisitors u).
Proof. intros H. rewrite findById_update by reflexivity. now rewrite H. Qed.

Section InterleavingProperties.

Variable uaParser : string -> UAResult.
Variable geoip_lookup : option string -> option Location.

(** The link, the visitor, and the counters before the visits. *)
Variable id : N.
Variable v : string.
Variable U0 C0 : Z.

Local Notation "'STEP'" := (visit_step uaParser geoip_lookup id).

Local Notation "'INV'" := (Inv id v U0 C0).

Lemma passesRequired_analyticsData (req : Request) (now : Z)
    (ex : option Analytics) :
  recordable req = true ->
  passesRequired
    (analyticsData uaParser geoip_lookup id req (generateVisitorId req)
       now ex) = true.
Proof.
  unfold recordable, passesRequired. intros H.
  apply andb_true_iff in H. destruct H as [Hip Hua].
  cbn [visitorId ipAddress userAgent analyticsData].
  rewrite Hip.
  assert (Hv : String.eqb (generateVisitorId req) "" = false)
    by (apply String.eqb_neq, toString36_go_nonempty).
  rewrite Hv. cbn [negb andb].
  destruct (header_UserAgent req) as [s|]; [|discriminate Hua].
  cbn [JS.truthy] in Hua. apply negb_true_iff in Hua.
  cbn [JS.orDefault]. rewrite Hua, Hua. reflexivity.
Qed.

Lemma step_preserves (st : Db * list Visit) (ev : nat * Z) :
  INV st -> INV (stepAt uaParser geoip_lookup id st ev).
Proof.
  destruct st as [db ths], ev as [i now]. intros HI.
  unfold stepAt. destruct (nth_error ths i) as [th|] eqn:Hth;
    [|exact HI].
  destruct (STEP now (v_req th) (v_pc th) db) as [pc' db'] eqn:Hstep.
  destruct (setNth_split {| v_req := v_req th; v_pc := pc' |} ths i th Hth)
    as [l1 [l2 [-> ->]]].
  destruct HI as [Hall [Hlink [Hclicks Hcases]]].
  apply Forall_app in Hall. destruct Hall as [Hall1 Hall2].
  apply Forall_cons_iff in Hall2. destruct Hall2 as [[Hv Hrec] Hall2].
  assert (Hall' : Forall (fromVisitor v)
                    (l1 ++ {| v_req := v_req th; v_pc := pc' |} :: l2)).
  { apply Forall_app. split; [assumption|].
    constructor; [split; assumption | assumption]. }
  destruct (findById db id) as [u|] eqn:Hu; [|contradiction].
  destruct th as [req pc]. cbn [v_req v_pc] in *.
  unfold visit_step in Hstep. rewrite Hv in Hstep.
  destruct pc as [|ex| | |].
  - (* Analytics.findOne *)
    injection Hstep as <- <-. unfold Inv.
    split; [assumption|]. split; [congruence|].
    split; [tally; lia|].
    destruct Hcases as [[HE [Hearly HU]] | [e [HE [He HU]]]].
    + left. split; [assumption|]. split; [|assumption].
      apply Forall_app in Hearly. destruct Hearly as [He1 He2].
      apply Forall_cons_iff in He2. destruct He2 as [_ He2].
      apply Forall_app. split; [assumption|].
      constructor; [|assumption].
      right. cbn [v_pc]. now rewrite (findVisit_None _ _ _ HE).
    + right. exists e. split; [assumption|]. split; [assumption|].
      tally. lia.
  - (* Analytics.create *)
    destruct Hcases as [[HE [Hearly HU]] | [e [HE [He HU]]]].
    + (* the first insert *)
      apply Forall_app in Hearly. destruct Hearly as [He1 He2].
      apply Forall_cons_iff in He2. destruct He2 as [Hme He2].
      destruct Hme as [Hme | Hme]; cbn [v_pc] in Hme; [discriminate|].
      injection Hme as ->.
      unfold Analytics_create in Hstep. rewrite <- Hv in Hstep.
      rewrite (passesRequired_analyticsData req now None Hrec) in Hstep.
      cbn [urlId visitorId analyticsData] in Hstep.
      rewrite Hv in Hstep.
      assert (Hno : existsb (sameVisitor id v) (analytics db) = false)
        by (now apply existsb_filter_nil).
      rewrite Hno in Hstep. simpl in Hstep.
      injection Hstep as <- <-. unfold Inv.
      split; [assumption|].
      unfold findById, clicksOf, uniqueVisitorsOf, findById in *.
      cbn [urls analytics] in *. rewrite Hu in *.
      split; [congruence|].
      split; [tally; lia|].
      right. eexists. split; [|split].
      * unfold visitsOf in *. cbn [analytics].
        rewrite filter_app, HE. cbn [filter app].
        unfold sameVisitor at 1. cbn [urlId visitorId].
        rewrite N.eqb_refl, String.eqb_refl. reflexivity.
      * reflexivity.
      * destruct (total_early l1 He1) as [Hz1 _].
        destruct (total_early l2 He2) as [Hz2 _].
        tally. lia.
    + (* refused by the unique index *)
      unfold Analytics_create in Hstep.
      cbn [urlId visitorId analyticsData] in Hstep.
      assert (Hdup : existsb (sameVisitor id v) (analytics db) = true).
      { destruct (existsb (sameVisitor id v) (analytics db)) eqn:E;
          [reflexivity|].
        apply existsb_filter_nil in E. unfold visitsOf in HE.
        rewrite E in HE. discriminate. }
      rewrite Hdup, andb_false_r in Hstep.
      injection Hstep as <- <-. unfold Inv.
      split; [assumption|]. rewrite Hu. split; [congruence|].
      split; [tally; lia|].
      right. exists e. split; [assumption|]. split; [assumption|].
      tally. lia.
  - (* $inc uniqueVisitors *)
    injection Hstep as <- <-. unfold Inv.
    split; [assumption|].
    unfold clicksOf, uniqueVisitorsOf in *.
    rewrite (findById_incUniqueVisitors _ _ _ Hu). rewrite Hu in *.
    split; [congruence|].
    split; [tally; cbn [clicks incUniqueVisitors] in *; lia|].
    destruct Hcases as [[HE [Hearly HU]] | [e [HE [He HU]]]].
    + apply Forall_app in Hearly. destruct Hearly as [_ He2].
      apply Forall_cons_iff in He2. destruct He2 as [[Hme|Hme] _];
        discriminate.
    + right. exists e. split; [assumption|]. split; [assumption|].
      tally. cbn [uniqueVisitors incUniqueVisitors] in *. lia.
  - (* $inc clicks *)
    injection Hstep as <- <-. unfold Inv.
    split; [assumption|].
    unfold clicksOf, uniqueVisitorsOf in *.
    rewrite (findById_incClicks _ _ _ _ Hu). rewrite Hu in *.
    split; [congruence|].
    split; [tally; cbn [clicks incClicks] in *; lia|].
    destruct Hcases as [[HE [Hearly HU]] | [e [HE [He HU]]]].
    + apply Forall_app in Hearly. destruct Hearly as [_ He2].
      apply Forall_cons_iff in He2. destruct He2 as [[Hme|Hme] _];
        discriminate.
    + right. exists e. split; [assumption|]. split; [assumption|].
      tally. cbn [uniqueVisitors incClicks] in *. lia.
  - (* nothing left to do *)
    injection Hstep as <- <-. unfold Inv.
    split; [assumption|]. rewrite Hu. split; [congruence|].
    split; [assumption|]. exact Hcases.
Qed.

Lemma run_preserves (sched : list (nat * Z)) :
  forall st, INV st -> INV (run uaParser geoip_lookup id sched st).
Proof.
  induction sched as [|ev sched IH]; intros st HI; [exact HI|].
  simpl. apply IH, step_preserves, HI.
Qed.

Lemma finished_totals (ths : list Visit) :
  forallb isFinished ths = true ->
  total owesClick ths = 0 /\ total owesUnique ths = 0
  /\ (Forall early ths -> ths = []).
Proof.
  induction ths as [|th ths IH]; [repeat split|].
  simpl forallb. intros H. apply andb_true_iff in H.
  destruct H as [Hth Hrest]. destruct (IH Hrest) as [I1 [I2 _]].
  rewrite !total_cons, I1, I2. unfold isFinished in Hth.
  unfold owesClick, owesUnique.
  destruct (v_pc th) eqn:E; try discriminate. repeat split.
  intros Hearly. apply Forall_cons_iff in Hearly.
  destruct Hearly as [[Hme|Hme] _]; congruence.
Qed.

End InterleavingProperties.

Section ConcurrentVisits.

Variable uaParser : string -> UAResult.
Variable geoip_lookup : option string -> option Location.

Lemma stepAt_length (id : N) (st : Db * list Visit) (ev : nat * Z) :
  List.length (snd (stepAt uaParser geoip_lookup id st ev))
  = List.length (snd st).
Proof.
  destruct st as [db ths], ev as [i now]. unfold stepAt.
  destruct (nth_error ths i) as [th|] eqn:Hth; [|reflexivity].
  destruct (visit_step uaParser geoip_lookup id now (v_req th) (v_pc th) db)
    as [pc' db'].
  destruct (setNth_split {| v_req := v_req th; v_pc := pc' |} ths i th Hth)
    as [l1 [l2 [-> ->]]].
  simpl. now rewrite !length_app.
Qed.

Lemma run_length (id : N) (sched : list (nat * Z)) :
  forall st,
    List.length (snd (run uaParser geoip_lookup id sched st))
    = List.length (snd st).
Proof.
  induction sched as [|ev sched IH]; intros st; [reflexivity|].
  simpl. now rewrite IH, stepAt_length.
Qed.

(** A visit that runs alone does what the handler does after the gates:
    the interleaving model and [recordVisit] agree. *)
Lemma run_alone (tFind tVisit tAccess : Z) (db : Db) (u : Url)
    (req : Request) :
  run uaParser geoip_lookup (_id u)
    [(0%nat, tFind); (0%nat, tVisit); (0%nat, tAccess); (0%nat, tAccess)]
    (db, [arrive req])
  = (recordVisit uaParser geoip_lookup tVisit tAccess db u req,
     [{| v_req := req; v_pc := Finished |}]).
Proof.
  unfold run, recordVisit, trackAnalytics. simpl fold_left.
  destruct (Analytics_create db _) as [db1|] eqn:E.
  - destruct (findVisit db (_id u) (generateVisitorId req));
      reflexivity.
  - reflexivity.
Qed.

(** Where the requests can be stored the count is free of races.  Any
    number of visits by one visitor, none of whom the link has seen,
    whose requests carry an address and a User-Agent, run to completion
    in any interleaving: one event of the visitor is flagged unique, the
    unique-visitor counter has gone up by exactly one, and every visit
    has counted its click. *)
Lemma concurrent_first_visits (id : N) (v : string)
    (reqs : list Request) (sched : list (nat * Z)) (db0 db : Db)
    (ths : list Visit) :
  reqs <> [] ->
  Forall (fun r => generateVisitorId r = v /\ recordable r = true) reqs ->
  findById db0 id <> None ->
  visitsOf db0 id v = [] ->
  run uaParser geoip_lookup id sched (db0, map arrive reqs) = (db, ths) ->
  forallb isFinished ths = true ->
  List.length (filter isUnique (visitsOf db id v)) = 1%nat
  /\ uniqueVisitorsOf db id = uniqueVisitorsOf db0 id + 1
  /\ clicksOf db id = clicksOf db0 id + Z.of_nat (List.length reqs).
Proof.
  intros Hne Hreqs Hlink Hnew Hrun Hfin.
  assert (H0 : Inv id v (uniqueVisitorsOf db0 id) (clicksOf db0 id)
                 (db0, map arrive reqs)).
  { unfold Inv.
    assert (Hearly : Forall early (map arrive reqs)).
    { apply Forall_forall. intros th Hin. apply in_map_iff in Hin.
      destruct Hin as [r [<- _]]. now left. }
    split; [|split; [assumption|split]].
    - apply Forall_forall. intros th Hin. apply in_map_iff in Hin.
      destruct Hin as [r [<- Hr]].
      exact (proj1 (Forall_forall _ _) Hreqs r Hr).
    - destruct (total_early _ Hearly) as [_ ->]. lia.
    - left. auto. }
  pose proof (run_preserves uaParser geoip_lookup id v _ _ sched _ H0)
    as HI.
  pose proof (run_length id sched (db0, map arrive reqs)) as Hlen.
  rewrite Hrun in HI, Hlen. simpl in Hlen. rewrite length_map in Hlen.
  destruct HI as [_ [_ [Hclicks Hcases]]].
  destruct (finished_totals ths Hfin) as [Hc [Hu Hnil]].
  rewrite Hc, Hlen in Hclicks. rewrite Hu in Hcases.
  destruct Hcases as [[_ [Hearly _]] | [e [HE [He HU]]]].
  - exfalso. apply Hnil in Hearly. subst ths.
    destruct reqs; [contradiction | discriminate].
  - rewrite HE. simpl. rewrite He. repeat split; simpl; lia.
Qed.

(** Without a User-Agent header the document fails the schema's
    [required] check: the recorder stores nothing and counts nothing. *)
Lemma trackAnalytics_unrecordable (now : Z) (db : Db) (id : N)
    (req : Request) (v : string) :
  recordable req = false ->
  trackAnalytics uaParser geoip_lookup now db id req v = db.
Proof.
  intros H. unfold trackAnalytics, Analytics_create, passesRequired.
  cbn [visitorId ipAddress userAgent analyticsData].
  unfold recordable in H. apply andb_false_iff in H.
  destruct H as [H|H].
  - rewrite H, andb_false_r. reflexivity.
  - assert (E : String.eqb (JS.orDefault (header_UserAgent req) "") ""
                = true).
    { destruct (header_UserAgent req) as [s|]; [|reflexivity].
      simpl in *. apply negb_false_iff in H. now rewrite H. }
    rewrite E. cbn [negb]. rewrite andb_false_r. reflexivity.
Qed.

(** The same for the insert alone. *)
Lemma create_unrecordable (now : Z) (db : Db) (id : N) (req : Request)
    (v : string) (ex : option Analytics) :
  recordable req = false ->
  Analytics_create db
    (analyticsData uaParser geoip_lookup id req v now ex) = None.
Proof.
  intros H. unfold Analytics_create, passesRequired.
  cbn [visitorId ipAddress userAgent analyticsData].
  unfold recordable in H. apply andb_false_iff in H.
  destruct H as [H|H].
  - rewrite H, andb_false_r. reflexivity.
  - assert (E : String.eqb (JS.orDefault (header_UserAgent req) "") ""
                = true).
    { destruct (header_UserAgent req) as [s|]; [|reflexivity].
      simpl in *. apply negb_false_iff in H. now rewrite H. }
    rewrite E. cbn [negb]. rewrite andb_false_r. reflexivity.
Qed.

Lemma step_unrecorded (id : N) (db0 : Db) (st : Db * list Visit)
    (ev : nat * Z) :
  Unrecorded id db0 st ->
  Unrecorded id db0 (stepAt uaParser geoip_lookup id st ev).
Proof.
  destruct st as [db ths], ev as [i now]. intros HI.
  unfold stepAt. destruct (nth_error ths i) as [th|] eqn:Hth; [|exact HI].
  destruct (visit_step uaParser geoip_lookup id now (v_req th) (v_pc th) db)
    as [pc' db'] eqn:Hstep.
  destruct (setNth_split {| v_req := v_req th; v_pc := pc' |} ths i th Hth)
    as [l1 [l2 [-> ->]]].
  destruct HI as (Hev & Hlink & Huniq & Hclicks & Hall).
  apply Forall_app in Hall. destruct Hall as [Hall1 Hall2].
  apply Forall_cons_iff in Hall2. destruct Hall2 as [[Hrec Hpc] Hall2].
  destruct (findById db id) as [u|] eqn:Hu; [|contradiction].
  destruct th as [req pc]. cbn [v_req v_pc] in *.
  assert (Hrest : forall pc0, pc0 <> AtIncUnique ->
            Forall (fun th => recordable (v_req th) = false
                              /\ v_pc th <> AtIncUnique)
              (l1 ++ {| v_req := req; v_pc := pc0 |} :: l2)).
  { intros pc0 Hpc0. apply Forall_app. split; [assumption|].
    constructor; [split; assumption | assumption]. }
  unfold visit_step in Hstep.
  destruct pc as [|ex| | |].
  - (* Analytics.findOne *)
    injection Hstep as <- <-. unfold Unrecorded.
    split; [assumption|]. split; [congruence|]. split; [assumption|].
    split; [tally; lia|]. apply Hrest. discriminate.
  - (* Analytics.create: refused by the schema *)
    rewrite (create_unrecordable now db id req _ ex Hrec) in Hstep.
    injection Hstep as <- <-. unfold Unrecorded.
    split; [assumption|]. split; [congruence|]. split; [assumption|].
    split; [tally; lia|]. apply Hrest. discriminate.
  - (* $inc uniqueVisitors: not reached *)
    contradiction.
  - (* $inc clicks *)
    injection Hstep as <- <-. unfold Unrecorded.
    unfold clicksOf, uniqueVisitorsOf in *.
    rewrite (findById_incClicks _ _ _ _ Hu). rewrite Hu in *.
    split; [assumption|]. split; [congruence|].
    split; [cbn [uniqueVisitors incClicks]; assumption|].
    split; [tally; cbn [clicks incClicks] in *; lia|].
    apply Hrest. discriminate.
  - (* nothing left to do *)
    injection Hstep as <- <-. unfold Unrecorded.
    split; [assumption|]. split; [congruence|]. split; [assumption|].
    split; [assumption|]. apply Hrest. discriminate.
Qed.

Lemma run_unrecorded (id : N) (db0 : Db) (sched : list (nat * Z)) :
  forall st, Unrecorded id db0 st ->
             Unrecorded id db0 (run uaParser geoip_lookup id sched st).
Proof.
  induction sched as [|ev sched IH]; intros st HI; [exact HI|].
  cbn [run fold_left]. apply IH, step_unrecorded, HI.
Qed.

(** C8, where the code departs from it.  Any number of visits by one
    visitor, none of whom the link has seen, from a client that sends no
    User-Agent (or whose address is unknown), run to completion in any
    interleaving: every visit is redirected and counts its click, but no
    event of the visitor is stored, so that none is flagged unique, and
    the unique-visitor counter stays where it was instead of going up by
    one. *)
Theorem concurrent_visits_unrecorded (id : N) (v : string)
    (reqs : list Request) (sched : list (nat * Z)) (db0 db : Db)
    (ths : list Visit) :
  Forall (fun r => generateVisitorId r = v /\ recordable r = false) reqs ->
  findById db0 id <> None ->
  visitsOf db0 id v = [] ->
  run uaParser geoip_lookup id sched (db0, map arrive reqs) = (db, ths) ->
  forallb isFinished ths = true ->
  visitsOf db id v = []
  /\ analytics db = analytics db0
  /\ uniqueVisitorsOf db id = uniqueVisitorsOf db0 id
  /\ clicksOf db id = clicksOf db0 id + Z.of_nat (List.length reqs).
Proof.
  intros Hreqs Hlink Hnew Hrun Hfin.
  assert (H0 : Unrecorded id db0 (db0, map arrive reqs)).
  { unfold Unrecorded.
    assert (Hearly : Forall early (map arrive reqs)).
    { apply Forall_forall. intros th Hin. apply in_map_iff in Hin.
      destruct Hin as [r [<- _]]. now left. }
    split; [reflexivity|]. split; [assumption|]. split; [reflexivity|].
    split.
    - destruct (total_early _ Hearly) as [_ ->]. lia.
    - apply Forall_forall. intros th Hin. apply in_map_iff in Hin.
      destruct Hin as [r [<- Hr]].
      destruct (proj1 (Forall_forall _ _) Hreqs r Hr) as [_ Hrec].
      split; [exact Hrec | discriminate]. }
  pose proof (run_unrecorded id db0 sched _ H0) as HI.
  pose proof (run_length id sched (db0, map arrive reqs)) as Hlen.
  rewrite Hrun in HI, Hlen. cbn [snd] in Hlen. rewrite length_map in Hlen.
  destruct HI as (Hev & _ & Huniq & Hclicks & _).
  destruct (finished_totals ths Hfin) as [Hc _].
  rewrite Hc, Hlen in Hclicks.
  split; [unfold visitsOf in *; now rewrite Hev|].
  split; [assumption|]. split; [assumption | lia].
Qed.

End ConcurrentVisits.

Lemma concurrent_visits_unrecorded_witness :
  let req := Sample.bare "Ab3dE9xZ" in
  let sched := [(0%nat, 2000); (1%nat, 2001); (0%nat, 2002);
                (1%nat, 2003); (0%nat, 2004); (1%nat, 2005)] in
  let final := run Sample.uaParser Sample.geoip 1%N sched
                 (Sample.db, map arrive [req; req]) in
  visitsOf (fst final) 1%N "yjcj95" = []
  /\ analytics (fst final) = analytics Sample.db
  /\ uniqueVisitorsOf (fst final) 1%N = uniqueVisitorsOf Sample.db 1%N
  /\ clicksOf (fst final) 1%N = clicksOf Sample.db 1%N + 2.
Proof.
  intros req sched final.
  apply (concurrent_visits_unrecorded Sample.uaParser Sample.geoip 1%N
           "yjcj95" [req; req] sched Sample.db (fst final) (snd final)).
  - repeat constructor.
  - discriminate.
  - reflexivity.
  - apply surjective_pairing.
  - reflexivity.
Defined.

Lemma concurrent_first_visits_witness :
  let req := Sample.visitor "Ab3dE9xZ" None in
  let sched := [(0%nat, 2000); (1%nat, 2001); (1%nat, 2002); (0%nat, 2003);
                (1%nat, 2004); (0%nat, 2005); (1%nat, 2006); (2%nat, 2007);
                (2%nat, 2008); (2%nat, 2009)] in
  let final := run Sample.uaParser Sample.geoip 1%N sched
                 (Sample.db, map arrive [req; req; req]) in
  List.length (filter isUnique (visitsOf (fst final) 1%N "itwqrd")) = 1%nat
  /\ uniqueVisitorsOf (fst final) 1%N = uniqueVisitorsOf Sample.db 1%N + 1
  /\ clicksOf (fst final) 1%N = clicksOf Sample.db 1%N + 3.
Proof.
  intros req sched final.
  apply (concurrent_first_visits Sample.uaParser Sample.geoip 1%N "itwqrd"
           [req; req; req] sched Sample.db (fst final) (snd final)).
  - discriminate.
  - repeat constructor.
  - discriminate.
  - reflexivity.
  - apply surjective_pairing.
  - reflexivity.
Defined.

(** Two such visits spelled out, their operations alternating.  Both
    are redirected and both clicks are counted, but no event is stored
    and the unique-visitor counter stays where it was.  A single such
    visit through the handler does the same. *)
Example unrecordable_visit :
  let req := Sample.bare "Ab3dE9xZ" in
  let final := run Sample.uaParser Sample.geoip 1%N
                 [(0%nat, 2000); (1%nat, 2001); (0%nat, 2002);
                  (1%nat, 2003); (0%nat, 2004); (1%nat, 2005)]
                 (Sample.db, [arrive req; arrive req]) in
  let handled := get_shortId Sample.uaParser Sample.geoip 2000 2001 2002
                   Sample.db req in
  forallb isFinished (snd final) = true
  /\ analytics (fst final) = []
  /\ uniqueVisitorsOf (fst final) 1%N = uniqueVisitorsOf Sample.db 1%N
  /\ clicksOf (fst final) 1%N = 2
  /\ fst handled = Redirect "https://example.com/a"
  /\ analytics (snd handled) = []
  /\ uniqueVisitorsOf (snd handled) 1%N = uniqueVisitorsOf Sample.db 1%N.
Proof. vm_compute. repeat split. Qed.

(** * Further properties *)

(** ** What a resolution does to the store *)

Lemma updateFirst_twice (id : N) (f g : Url -> Url) (l : list Url) :
  (forall u, _id (f u) = _id u) ->
  updateFirst id g (updateFirst id f l)
  = updateFirst id (fun u => g (f u)) l.
Proof.
  intros Hf. induction l as [|u l IH]; simpl; [reflexivity|].
  destruct (N.eqb (_id u) id) eqn:E; simpl.
  - now rewrite Hf, E.
  - now rewrite E, IH.
Qed.

Lemma map_updateFirst {B : Type} (h : Url -> B) (id : N) (f : Url -> Url)
    (l : list Url) :
  (forall u, h (f u) = h u) -> map h (updateFirst id f l) = map h l.
Proof.
  intros Hf. induction l as [|u l IH]; simpl; [reflexivity|].
  destruct (N.eqb (_id u) id); simpl; [now rewrite Hf | now rewrite IH].
Qed.

Lemma Forall_updateFirst (P : Url -> Prop) (id : N) (f : Url -> Url)
    (l : list Url) :
  (forall u, P u -> P (f u)) -> Forall P l -> Forall P (updateFirst id f l).
Proof.
  intros Hf. induction 1 as [|u l Hu Hl IH]; simpl; [constructor|].
  destruct (N.eqb (_id u) id); constructor; auto.
Qed.

Lemma find_updateFirst_other (id id' : N) (f : Url -> Url) (l : list Url) :
  (forall u, _id (f u) = _id u) -> id' <> id ->
  find (fun u => N.eqb (_id u) id') (updateFirst id f l)
  = find (fun u => N.eqb (_id u) id') l.
Proof.
  intros Hf Hne. induction l as [|u l IH]; simpl; [reflexivity|].
  destruct (N.eqb (_id u) id) eqn:E; simpl.
  - rewrite Hf. apply N.eqb_eq in E.
    replace (N.eqb (_id u) id') with false; [reflexivity|].
    symmetry. apply N.eqb_neq. congruence.
  - now rewrite IH.
Qed.

Lemma findById_In (db : Db) (u : Url) :
  In u (urls db) -> findById db (_id u) <> None.
Proof.
  unfold findById. intros Hin H.
  pose proof (find_none _ _ H u Hin) as Hf. simpl in Hf.
  rewrite N.eqb_refl in Hf. discriminate.
Qed.

Section Recording.

Variable uaParser : string -> UAResult.
Variable geoip_lookup : option string -> option Location.

Local Notation "'GET'" := (get_shortId uaParser geoip_lookup).
Local Notation "'POST'" := (post_verify_password uaParser geoip_lookup).
Local Notation "'TRACK'" := (trackAnalytics uaParser geoip_lookup).
Local Notation "'RECORD'" := (recordVisit uaParser geoip_lookup).
Local Notation "'EVENT'" := (analyticsData uaParser geoip_lookup).

(** The recorder either leaves the store alone, or it has seen no earlier
    event of the visitor, stores one and counts one. *)
Lemma trackAnalytics_cases (now : Z) (db : Db) (id : N) (req : Request)
    (v : string) :
  TRACK now db id req v = db
  \/ (findVisit db id v = None
      /\ existsb (sameVisitor id v) (analytics db) = false
      /\ TRACK now db id req v
         = {| urls := updateFirst id incUniqueVisitors (urls db);
              analytics := analytics db ++ [EVENT id req v now None] |}).
Proof.
  unfold trackAnalytics, Analytics_create.
  destruct (findVisit db id v) as [e|] eqn:Hfind.
  - left. cbn [urlId visitorId analyticsData].
    rewrite (findVisit_existsb db id v) by congruence.
    cbn [negb]. now rewrite andb_false_r.
  - cbn [urlId visitorId analyticsData].
    destruct (passesRequired (EVENT id req v now None)); [|now left].
    destruct (existsb (sameVisitor id v) (analytics db)) eqn:Hex;
      [now left|].
    right. repeat split.
Qed.

(** Both routes, when they succeed, have found an active link and end in
    [recordVisit] for it. *)
Lemma get_shortId_success (tExpiry tVisit tAccess : Z) (db : Db)
    (req : Request) (d : string) :
  fst (GET tExpiry tVisit tAccess db req) = Redirect d ->
  exists u,
    findActiveByHandle db (params_shortId req) = Some u
    /\ d = originalUrl u
    /\ isExpired u tExpiry = false
    /\ (isPasswordProtected u = true ->
        JS.truthy (query_password req) = true
        /\ query_password req = password u)
    /\ snd (GET tExpiry tVisit tAccess db req) = RECORD tVisit tAccess db u req.
Proof.
  unfold get_shortId.
  destruct (findActiveByHandle db (params_shortId req)) as [u|];
    [|discriminate].
  destruct (isExpired u tExpiry) eqn:Hx; [discriminate|].
  destruct (isPasswordProtected u) eqn:Hp; cbn [andb].
  - destruct (JS.truthy (query_password req)) eqn:Ht; cbn [negb];
      [|discriminate].
    destruct (optStringEqb (query_password req) (password u)) eqn:He;
      cbn [negb]; [|discriminate].
    intros H. injection H as <-. exists u.
    apply optStringEqb_eq in He.
    split; [reflexivity|]. split; [reflexivity|]. split; [assumption|].
    split; [intros _; split; first [assumption | reflexivity]
           | reflexivity].
  - intros H. injection H as <-. exists u.
    split; [reflexivity|]. split; [reflexivity|]. split; [assumption|].
    split; [intros H; congruence | reflexivity].
Qed.

Lemma post_verify_password_success (tExpiry tVisit tAccess : Z) (db : Db)
    (req : Request) (d : string) :
  fst (POST tExpiry tVisit tAccess db req) = Verified d ->
  exists u,
    findActiveByHandle db (params_shortId req) = Some u
    /\ d = originalUrl u
    /\ isExpired u tExpiry = false
    /\ isPasswordProtected u = true
    /\ JS.truthy (body_password req) = true
    /\ body_password req = password u
    /\ snd (POST tExpiry tVisit tAccess db req) = RECORD tVisit tAccess db u req.
Proof.
  unfold post_verify_password.
  destruct (JS.truthy (body_password req)) eqn:Ht; cbn [negb];
    [|discriminate].
  destruct (findActiveByHandle db (params_shortId req)) as [u|];
    [|discriminate].
  destruct (isExpired u tExpiry) eqn:Hx; [discriminate|].
  destruct (isPasswordProtected u) eqn:Hp; cbn [negb]; [|discriminate].
  destruct (optStringEqb (body_password req) (password u)) eqn:He;
    cbn [negb]; [|discriminate].
  intros H. injection H as <-. exists u.
  apply optStringEqb_eq in He. repeat split; assumption || reflexivity.
Qed.

(** Either route hands back the store it was given or the store after
    [recordVisit] for an active link of the store. *)
Lemma route_store (tExpiry tVisit tAccess : Z) (db : Db) (req : Request) :
  (snd (GET tExpiry tVisit tAccess db req) = db
   \/ exists u, In u (urls db)
                /\ snd (GET tExpiry tVisit tAccess db req)
                   = RECORD tVisit tAccess db u req)
  /\ (snd (POST tExpiry tVisit tAccess db req) = db
      \/ exists u, In u (urls db)
                   /\ snd (POST tExpiry tVisit tAccess db req)
                      = RECORD tVisit tAccess db u req).
Proof.
  split.
  - unfold get_shortId.
    destruct (findActiveByHandle db (params_shortId req)) as [u|] eqn:Hu;
      [|now left].
    destruct (isExpired u tExpiry); [now left|].
    destruct (isPasswordProtected u && negb (JS.truthy (query_password req)));
      [now left|].
    destruct (isPasswordProtected u
              && negb (optStringEqb (query_password req) (password u)));
      [now left|].
    right. exists u. split; [|reflexivity].
    now apply findActiveByHandle_Some in Hu.
  - unfold post_verify_password.
    destruct (negb (JS.truthy (body_password req))); [now left|].
    destruct (findActiveByHandle db (params_shortId req)) as [u|] eqn:Hu;
      [|now left].
    destruct (isExpired u tExpiry); [now left|].
    destruct (negb (isPasswordProtected u)); [now left|].
    destruct (negb (optStringEqb (body_password req) (password u)));
      [now left|].
    right. exists u. split; [|reflexivity].
    now apply findActiveByHandle_Some in Hu.
Qed.

End Recording.

Section ResolutionEffects.

Variable uaParser : string -> UAResult.
Variable geoip_lookup : option string -> option Location.

Local Notation "'GET'" := (get_shortId uaParser geoip_lookup).
Local Notation "'POST'" := (post_verify_password uaParser geoip_lookup).
Local Notation "'RECORD'" := (recordVisit uaParser geoip_lookup).
Local Notation "'EVENT'" := (analyticsData uaParser geoip_lookup).

Lemma recordVisit_cases (tVisit tAccess : Z) (db : Db) (u : Url)
    (req : Request) :
  RECORD tVisit tAccess db u req
  = {| urls := updateFirst (_id u) (incClicks tAccess) (urls db);
       analytics := analytics db |}
  \/ (findVisit db (_id u) (generateVisitorId req) = None
      /\ existsb (sameVisitor (_id u) (generateVisitorId req)) (analytics db)
         = false
      /\ RECORD tVisit tAccess db u req
         = {| urls := updateFirst (_id u)
                        (fun w => incClicks tAccess (incUniqueVisitors w))
                        (urls db);
              analytics := analytics db
                           ++ [EVENT (_id u) req (generateVisitorId req)
                                 tVisit None] |}).
Proof.
  unfold recordVisit.
  destruct (trackAnalytics_cases uaParser geoip_lookup tVisit db (_id u) req
              (generateVisitorId req)) as [-> | [Hf [Hx ->]]].
  - now left.
  - right. split; [assumption|]. split; [assumption|].
    unfold findByIdAndUpdate. cbn [urls analytics].
    now rewrite updateFirst_twice by reflexivity.
Qed.

Lemma recordVisit_counts (tVisit tAccess : Z) (db : Db) (u : Url)
    (req : Request) :
  In u (urls db) ->
  let db' := RECORD tVisit tAccess db u req in
  clicksOf db' (_id u) = clicksOf db (_id u) + 1
  /\ option_map lastAccessed (findById db' (_id u)) = Some (Some tAccess)
  /\ (forall id', id' <> _id u -> findById db' id' = findById db id')
  /\ ((uniqueVisitorsOf db' (_id u) = uniqueVisitorsOf db (_id u)
       /\ analytics db' = analytics db)
      \/ (uniqueVisitorsOf db' (_id u) = uniqueVisitorsOf db (_id u) + 1
          /\ findVisit db (_id u) (generateVisitorId req) = None
          /\ analytics db'
             = analytics db
               ++ [EVENT (_id u) req (generateVisitorId req) tVisit None])).
Proof.
  intros Hin db'. pose proof (findById_In db u Hin) as Hsome.
  destruct (findById db (_id u)) as [w|] eqn:Hw; [|contradiction].
  unfold clicksOf, uniqueVisitorsOf. rewrite Hw.
  destruct (recordVisit_cases tVisit tAccess db u req) as [E | [Hf [_ E]]];
    subst db'; rewrite E; unfold findById in *; cbn [urls analytics].
  - rewrite find_updateFirst, Hw by reflexivity. cbn.
    repeat split.
    + intros id' Hne. now apply find_updateFirst_other.
    + now left.
  - rewrite find_updateFirst, Hw by reflexivity. cbn.
    repeat split.
    + intros id' Hne. now apply find_updateFirst_other.
    + right. repeat split. assumption.
Qed.

(** X1.  A resolution that succeeds, on either route, counts exactly one
    click for the link it has found and stamps [lastAccessed] with the
    clock, whatever became of the analytics; no other link is touched. *)
Theorem resolution_counts_one_click (tExpiry tVisit tAccess : Z) (db : Db)
    (req : Request) :
  (forall d, fst (GET tExpiry tVisit tAccess db req) = Redirect d ->
     exists u, findActiveByHandle db (params_shortId req) = Some u
       /\ let db' := snd (GET tExpiry tVisit tAccess db req) in
          clicksOf db' (_id u) = clicksOf db (_id u) + 1
          /\ option_map lastAccessed (findById db' (_id u))
             = Some (Some tAccess)
          /\ forall id', id' <> _id u -> findById db' id' = findById db id')
  /\
  (forall d, fst (POST tExpiry tVisit tAccess db req) = Verified d ->
     exists u, findActiveByHandle db (params_shortId req) = Some u
       /\ let db' := snd (POST tExpiry tVisit tAccess db req) in
          clicksOf db' (_id u) = clicksOf db (_id u) + 1
          /\ option_map lastAccessed (findById db' (_id u))
             = Some (Some tAccess)
          /\ forall id', id' <> _id u -> findById db' id' = findById db id').
Proof.
  split; intros d Hd.
  - destruct (get_shortId_success _ _ _ _ _ _ _ _ Hd)
      as [u [Hu [_ [_ [_ Hs]]]]].
    exists u. split; [assumption|]. rewrite Hs.
    destruct (findActiveByHandle_Some _ _ _ Hu) as [Hin _].
    destruct (recordVisit_counts tVisit tAccess db u req Hin)
      as [H1 [H2 [H3 _]]].
    auto.
  - destruct (post_verify_password_success _ _ _ _ _ _ _ _ Hd)
      as [u [Hu [_ [_ [_ [_ [_ Hs]]]]]]].
    exists u. split; [assumption|]. rewrite Hs.
    destruct (findActiveByHandle_Some _ _ _ Hu) as [Hin _].
    destruct (recordVisit_counts tVisit tAccess db u req Hin)
      as [H1 [H2 [H3 _]]].
    auto.
Qed.

(** X2.  Counting a unique visitor and storing an event go together: a
    successful resolution either leaves both the events and the link's
    [uniqueVisitors] as they were, or the visitor had no event on the
    link, exactly one event is appended for this link, visitor and
    instant, flagged unique, and [uniqueVisitors] goes up by one. *)
Theorem resolution_event_and_counter (tExpiry tVisit tAccess : Z) (db : Db)
    (req : Request) :
  (forall d, fst (GET tExpiry tVisit tAccess db req) = Redirect d ->
     exists u, findActiveByHandle db (params_shortId req) = Some u
       /\ visitOutcome db (snd (GET tExpiry tVisit tAccess db req))
            (_id u) (generateVisitorId req) tVisit)
  /\
  (forall d, fst (POST tExpiry tVisit tAccess db req) = Verified d ->
     exists u, findActiveByHandle db (params_shortId req) = Some u
       /\ visitOutcome db (snd (POST tExpiry tVisit tAccess db req))
            (_id u) (generateVisitorId req) tVisit).
Proof.
  assert (G : forall u, In u (urls db) ->
             visitOutcome db (RECORD tVisit tAccess db u req) (_id u)
               (generateVisitorId req) tVisit).
  { intros u Hin.
    destruct (recordVisit_counts tVisit tAccess db u req Hin)
      as [_ [_ [_ [Hsame | [Hinc [Hnew Hev]]]]]].
    - now left.
    - right. split; [assumption|]. split; [assumption|].
      eexists. split; [exact Hev|]. repeat split. }
  split; intros d Hd.
  - destruct (get_shortId_success _ _ _ _ _ _ _ _ Hd)
      as [u [Hu [_ [_ [_ Hs]]]]].
    exists u. split; [assumption|]. rewrite Hs. apply G.
    now apply findActiveByHandle_Some in Hu.
  - destruct (post_verify_password_success _ _ _ _ _ _ _ _ Hd)
      as [u [Hu [_ [_ [_ [_ [_ Hs]]]]]]].
    exists u. split; [assumption|]. rewrite Hs. apply G.
    now apply findActiveByHandle_Some in Hu.
Qed.

(** X3.  Whatever the request and its outcome, a route of redirect.js
    changes nothing of any link but [clicks], [uniqueVisitors] and
    [lastAccessed], neither adds nor removes a link, and only ever appends
    to the events, one at most. *)
Theorem resolution_touches_counters_only (tExpiry tVisit tAccess : Z)
    (db : Db) (req : Request) :
  (map sansCounters (urls (snd (GET tExpiry tVisit tAccess db req)))
   = map sansCounters (urls db)
   /\ exists added,
        analytics (snd (GET tExpiry tVisit tAccess db req))
        = analytics db ++ added /\ (List.length added <= 1)%nat)
  /\
  (map sansCounters (urls (snd (POST tExpiry tVisit tAccess db req)))
   = map sansCounters (urls db)
   /\ exists added,
        analytics (snd (POST tExpiry tVisit tAccess db req))
        = analytics db ++ added /\ (List.length added <= 1)%nat).
Proof.
  assert (G : forall db',
             db' = db
             \/ (exists u, In u (urls db)
                           /\ db' = RECORD tVisit tAccess db u req) ->
             map sansCounters (urls db') = map sansCounters (urls db)
             /\ exists added, analytics db' = analytics db ++ added
                              /\ (List.length added <= 1)%nat).
  { intros db' [-> | [u [_ ->]]].
    - split; [reflexivity|]. exists []. rewrite app_nil_r. auto.
    - destruct (recordVisit_cases tVisit tAccess db u req)
        as [-> | [_ [_ ->]]]; cbn [urls analytics].
      + split; [now apply map_updateFirst|].
        exists []. rewrite app_nil_r. auto.
      + split; [now apply map_updateFirst|].
        eexists. split; [reflexivity | simpl; lia]. }
  destruct (route_store uaParser geoip_lookup tExpiry tVisit tAccess db req)
    as [Hg Hp].
  split; apply G; assumption.
Qed.

End ResolutionEffects.

Lemma resolution_counts_one_click_witness :
  exists u,
    findActiveByHandle Sample.db "Ab3dE9xZ" = Some u
    /\ let db' := snd (get_shortId Sample.uaParser Sample.geoip
                         2000 2001 2002 Sample.db
                         (Sample.visitor "Ab3dE9xZ" None)) in
       clicksOf db' (_id u) = clicksOf Sample.db (_id u) + 1
       /\ option_map lastAccessed (findById db' (_id u)) = Some (Some 2002)
       /\ forall id', id' <> _id u ->
                      findById db' id' = findById Sample.db id'.
Proof.
  exact (proj1 (resolution_counts_one_click Sample.uaParser Sample.geoip
                  2000 2001 2002 Sample.db (Sample.visitor "Ab3dE9xZ" None))
           "https://example.com/a"%string eq_refl).
Defined.

Lemma resolution_event_and_counter_witness :
  exists u,
    findActiveByHandle Sample.db "vault" = Some u
    /\ visitOutcome Sample.db
         (snd (post_verify_password Sample.uaParser Sample.geoip
                 2000 2001 2002 Sample.db
                 (Sample.visitor "vault" (Some "secret"%string))))
         (_id u)
         (generateVisitorId (Sample.visitor "vault" (Some "secret"%string)))
         2001.
Proof.
  exact (proj2 (resolution_event_and_counter Sample.uaParser Sample.geoip
                  2000 2001 2002 Sample.db
                  (Sample.visitor "vault" (Some "secret"%string)))
           "https://example.com/vault"%string eq_refl).
Defined.

(** ** Invariants of the store under resolution *)

Lemma find_agree (p : Url -> bool) (l l' : list Url) :
  (forall u, p (sansCounters u) = p u) ->
  map sansCounters l = map sansCounters l' ->
  option_map sansCounters (find p l) = option_map sansCounters (find p l').
Proof.
  intros Hp. revert l'.
  induction l as [|u l IH]; intros [|u' l'] H; cbn [map] in H;
    try discriminate; [reflexivity|].
  pose proof (f_equal (hd (sansCounters u)) H) as Hu.
  pose proof (f_equal (@tl Url) H) as Hl. cbn [hd tl] in Hu, Hl.
  assert (E : p u = p u') by (rewrite <- (Hp u), <- (Hp u'); now rewrite Hu).
  cbn [find]. rewrite <- E.
  destruct (p u); cbn [option_map]; [now rewrite Hu | now apply IH].
Qed.

Lemma findActiveByHandle_agree (db db' : Db) (h : string) :
  map sansCounters (urls db) = map sansCounters (urls db') ->
  option_map sansCounters (findActiveByHandle db h)
  = option_map sansCounters (findActiveByHandle db' h).
Proof. intros H. unfold findActiveByHandle. now apply find_agree. Qed.

Lemma existsb_sameVisitor_In (id : N) (v : string) (l : list Analytics) :
  existsb (sameVisitor id v) l = false -> ~ In (id, v) (map visitKey l).
Proof.
  intros H Hin. apply in_map_iff in Hin. destruct Hin as [a [Ha Hin]].
  pose proof (proj1 (existsb_false_forall _ _) H a Hin) as Hf.
  unfold sameVisitor, visitKey in *. injection Ha as E1 E2.
  now rewrite E1, E2, N.eqb_refl, String.eqb_refl in Hf.
Qed.

Lemma NoDup_snoc {A : Type} (l : list A) (x : A) :
  NoDup l -> ~ In x l -> NoDup (l ++ [x]).
Proof.
  intros Hl Hx. apply NoDup_app; [assumption | repeat constructor; auto |].
  intros y Hy [<- | []]. contradiction.
Qed.

Lemma findById_updateFirst_any (id id' : N) (f : Url -> Url) (l : list Url) :
  (forall u, _id (f u) = _id u) ->
  find (fun u => N.eqb (_id u) id') (updateFirst id f l)
  = if N.eqb id' id
    then option_map f (find (fun u => N.eqb (_id u) id') l)
    else find (fun u => N.eqb (_id u) id') l.
Proof.
  intros Hf. destruct (N.eqb_spec id' id) as [-> | Hne].
  - now apply find_updateFirst.
  - now apply find_updateFirst_other.
Qed.

Section ResolutionInvariants.

Variable uaParser : string -> UAResult.
Variable geoip_lookup : option string -> option Location.

Local Notation "'GET'" := (get_shortId uaParser geoip_lookup).
Local Notation "'POST'" := (post_verify_password uaParser geoip_lookup).
Local Notation "'RECORD'" := (recordVisit uaParser geoip_lookup).
Local Notation "'TRACK'" := (trackAnalytics uaParser geoip_lookup).
Local Notation "'EVENT'" := (analyticsData uaParser geoip_lookup).

(** What is true of the store and kept by [recordVisit] is kept by both
    routes. *)
Lemma route_invariant (P : Db -> Prop) (tExpiry tVisit tAccess : Z)
    (db : Db) (req : Request) :
  (forall u, In u (urls db) -> P db -> P (RECORD tVisit tAccess db u req)) ->
  P db ->
  P (snd (GET tExpiry tVisit tAccess db req))
  /\ P (snd (POST tExpiry tVisit tAccess db req)).
Proof.
  intros Hrec HP.
  destruct (route_store uaParser geoip_lookup tExpiry tVisit tAccess db req)
    as [[-> | [u [Hin ->]]] [-> | [u' [Hin' ->]]]]; auto.
Qed.

Lemma route_keeps_links (tExpiry tVisit tAccess : Z) (db : Db)
    (req : Request) :
  map sansCounters (urls (snd (GET tExpiry tVisit tAccess db req)))
  = map sansCounters (urls db)
  /\ map sansCounters (urls (snd (POST tExpiry tVisit tAccess db req)))
     = map sansCounters (urls db).
Proof.
  apply (route_invariant
           (fun d => map sansCounters (urls d) = map sansCounters (urls db)));
    [|reflexivity].
  intros u _ _.
  destruct (recordVisit_cases uaParser geoip_lookup tVisit tAccess db u req)
    as [-> | [_ [_ ->]]]; cbn [urls]; now apply map_updateFirst.
Qed.

(** X4.  The answer to a request depends on no counter: once a store has
    gone through a resolution, on either route, every request is answered
    as it would have been before. *)
Theorem resolution_answers_unchanged (t0 t1 t2 : Z) (db mid : Db)
    (first : Request) (tExpiry tVisit tAccess : Z) (req : Request) :
  mid = snd (GET t0 t1 t2 db first) \/ mid = snd (POST t0 t1 t2 db first) ->
  fst (GET tExpiry tVisit tAccess mid req)
  = fst (GET tExpiry tVisit tAccess db req)
  /\ fst (POST tExpiry tVisit tAccess mid req)
     = fst (POST tExpiry tVisit tAccess db req).
Proof.
  intros Hmid.
  assert (Hmap : map sansCounters (urls mid) = map sansCounters (urls db)).
  { destruct (route_keeps_links t0 t1 t2 db first) as [Hg Hp].
    destruct Hmid as [-> | ->]; assumption. }
  pose proof (findActiveByHandle_agree mid db (params_shortId req) Hmap)
    as Hfind.
  unfold get_shortId, post_verify_password.
  destruct (findActiveByHandle mid (params_shortId req)) as [u|],
    (findActiveByHandle db (params_shortId req)) as [w|];
    cbn [option_map] in Hfind; try discriminate.
  - cbn [option_map] in Hfind.
    assert (Hsame : sansCounters u = sansCounters w) by congruence.
    clear Hfind. rename Hsame into Hfind.
    pose proof (f_equal originalUrl Hfind) as Ho.
    pose proof (f_equal shortId Hfind) as Hs.
    pose proof (f_equal customAlias Hfind) as Ha.
    pose proof (f_equal isPasswordProtected Hfind) as Hp.
    pose proof (f_equal password Hfind) as Hpw.
    pose proof (f_equal expiresAt Hfind) as He.
    cbn in Ho, Hs, Ha, Hp, Hpw, He.
    unfold isExpired, shortUrl. rewrite Ho, Hs, Ha, Hp, Hpw, He.
    split.
    + destruct (match expiresAt w with Some t => tExpiry >? t | None => false
                end); [reflexivity|].
      destruct (isPasswordProtected w && negb (JS.truthy (query_password req)));
        [reflexivity|].
      destruct (isPasswordProtected w
                && negb (optStringEqb (query_password req) (password w)));
        reflexivity.
    + destruct (negb (JS.truthy (body_password req))); [reflexivity|].
      destruct (match expiresAt w with Some t => tExpiry >? t | None => false
                end); [reflexivity|].
      destruct (negb (isPasswordProtected w)); [reflexivity|].
      destruct (negb (optStringEqb (body_password req) (password w)));
        reflexivity.
  - split; [reflexivity|].
    destruct (negb (JS.truthy (body_password req))); reflexivity.
Qed.

(** X5.  The events stay within the unique index, and the recorder never
    stores an event with [isUnique = false]: if every event of the store
    is flagged unique and no two share link and visitor, the same holds
    after any request on either route. *)
Theorem resolution_keeps_events_sound (tExpiry tVisit tAccess : Z)
    (db : Db) (req : Request) :
  eventsSound db ->
  eventsSound (snd (GET tExpiry tVisit tAccess db req))
  /\ eventsSound (snd (POST tExpiry tVisit tAccess db req)).
Proof.
  apply route_invariant. intros u _ [Hnd Hall].
  destruct (recordVisit_cases uaParser geoip_lookup tVisit tAccess db u req)
    as [-> | [_ [Hx ->]]]; unfold eventsSound; cbn [analytics].
  - split; assumption.
  - split.
    + rewrite map_app. apply NoDup_snoc; [assumption|].
      now apply existsb_sameVisitor_In.
    + apply Forall_app. split; [assumption|]. repeat constructor.
Qed.

(** X6.  No link gets more unique visitors than clicks: if
    [0 <= uniqueVisitors <= clicks] holds of every link, it holds after
    any request on either route. *)
Theorem resolution_keeps_counters_sound (tExpiry tVisit tAccess : Z)
    (db : Db) (req : Request) :
  countersSound db ->
  countersSound (snd (GET tExpiry tVisit tAccess db req))
  /\ countersSound (snd (POST tExpiry tVisit tAccess db req)).
Proof.
  apply route_invariant. intros u _ H. unfold countersSound in *.
  destruct (recordVisit_cases uaParser geoip_lookup tVisit tAccess db u req)
    as [-> | [_ [_ ->]]]; cbn [urls];
    (apply Forall_updateFirst; [|assumption]);
    intros w Hw; simpl; lia.
Qed.

(** X7.  The unique-visitor counter counts the events: if for every link
    of the store [uniqueVisitors] is the number of its events, this is
    still so after any request on either route. *)
Theorem resolution_keeps_visitors_counted (tExpiry tVisit tAccess : Z)
    (db : Db) (req : Request) :
  visitorsCounted db ->
  visitorsCounted (snd (GET tExpiry tVisit tAccess db req))
  /\ visitorsCounted (snd (POST tExpiry tVisit tAccess db req)).
Proof.
  apply route_invariant. intros u Hin H id0.
  unfold visitorsCounted, uniqueVisitorsOf, eventsOfLink, findById in *.
  specialize (H id0).
  destruct (recordVisit_cases uaParser geoip_lookup tVisit tAccess db u req)
    as [-> | [_ [_ ->]]]; cbn [urls analytics];
    rewrite findById_updateFirst_any by reflexivity.
  - destruct (N.eqb id0 (_id u));
      destruct (find (fun w => N.eqb (_id w) id0) (urls db)) as [w|];
      simpl in *; intros Hs; try contradiction; apply H; discriminate.
  - rewrite filter_app, length_app. cbn [filter urlId analyticsData].
    destruct (N.eqb_spec id0 (_id u)) as [-> | Hne].
    + rewrite N.eqb_refl.
      destruct (find (fun w => N.eqb (_id w) (_id u)) (urls db)) as [w|];
        simpl in *; intros Hs; [|contradiction].
      rewrite H by discriminate. lia.
    + replace (N.eqb (_id u) id0) with false
        by (symmetry; apply N.eqb_neq; congruence).
      simpl. rewrite Nat.add_0_r. exact H.
Qed.

(** X8.  When the recorder stores an event.  For the fingerprint of the
    request, [trackAnalytics] appends the event and counts the visitor if
    the request carries an address and a User-Agent and the visitor has no
    event on the link yet; in every other case it leaves the store exactly
    as it was. *)
Theorem trackAnalytics_records_iff (now : Z) (db : Db) (id : N)
    (req : Request) :
  let v := generateVisitorId req in
  (recordable req = true -> findVisit db id v = None ->
   TRACK now db id req v
   = {| urls := updateFirst id incUniqueVisitors (urls db);
        analytics := analytics db ++ [EVENT id req v now None] |}
   /\ isUnique (EVENT id req v now None) = true
   /\ timestamp (EVENT id req v now None) = now)
  /\ (recordable req = false \/ findVisit db id v <> None ->
      TRACK now db id req v = db).
Proof.
  intros v. split.
  - intros Hrec Hnew. split; [|split; reflexivity].
    unfold trackAnalytics, Analytics_create. rewrite Hnew.
    subst v. rewrite passesRequired_analyticsData by assumption.
    cbn [urlId visitorId analyticsData].
    assert (Hx : existsb (sameVisitor id (generateVisitorId req))
                   (analytics db) = false).
    { apply existsb_false_forall. intros a Ha.
      unfold findVisit in Hnew. exact (find_none _ _ Hnew a Ha). }
    rewrite Hx. reflexivity.
  - intros [Hrec | Hseen].
    + now apply trackAnalytics_unrecordable.
    + now apply trackAnalytics_seen.
Qed.

End ResolutionInvariants.

Lemma resolution_answers_unchanged_witness :
  let mid := snd (get_shortId Sample.uaParser Sample.geoip 2000 2001 2002
                    Sample.db (Sample.visitor "Ab3dE9xZ" None)) in
  fst (get_shortId Sample.uaParser Sample.geoip 3000 3001 3002 mid
         (Sample.visitor "vault" (Some "secret"%string)))
  = fst (get_shortId Sample.uaParser Sample.geoip 3000 3001 3002 Sample.db
           (Sample.visitor "vault" (Some "secret"%string)))
  /\ fst (post_verify_password Sample.uaParser Sample.geoip 3000 3001 3002
            mid (Sample.visitor "vault" (Some "secret"%string)))
     = fst (post_verify_password Sample.uaParser Sample.geoip 3000 3001 3002
              Sample.db (Sample.visitor "vault" (Some "secret"%string))).
Proof.
  intros mid.
  apply (resolution_answers_unchanged Sample.uaParser Sample.geoip
           2000 2001 2002 Sample.db mid (Sample.visitor "Ab3dE9xZ" None)).
  left. reflexivity.
Defined.

Lemma resolution_keeps_events_sound_witness :
  eventsSound
    (snd (get_shortId Sample.uaParser Sample.geoip 2000 2001 2002
            Sample.visited (Sample.visitor "vault" (Some "secret"%string))))
  /\ eventsSound
       (snd (post_verify_password Sample.uaParser Sample.geoip 2000 2001 2002
               Sample.visited (Sample.visitor "vault" (Some "secret"%string)))).
Proof.
  apply (resolution_keeps_events_sound Sample.uaParser Sample.geoip).
  split.
  - repeat constructor; simpl; intuition discriminate.
  - repeat constructor.
Defined.

Lemma resolution_keeps_counters_sound_witness :
  countersSound
    (snd (get_shortId Sample.uaParser Sample.geoip 2000 2001 2002
            Sample.db (Sample.visitor "vault" (Some "secret"%string))))
  /\ countersSound
       (snd (post_verify_password Sample.uaParser Sample.geoip 2000 2001 2002
               Sample.db (Sample.visitor "vault" (Some "secret"%string)))).
Proof.
  apply (resolution_keeps_counters_sound Sample.uaParser Sample.geoip).
  repeat constructor; simpl; lia.
Defined.

Lemma resolution_keeps_visitors_counted_witness :
  visitorsCounted
    (snd (get_shortId Sample.uaParser Sample.geoip 2000 2001 2002
            Sample.db (Sample.visitor "vault" (Some "secret"%string))))
  /\ visitorsCounted
       (snd (post_verify_password Sample.uaParser Sample.geoip 2000 2001 2002
               Sample.db (Sample.visitor "vault" (Some "secret"%string)))).
Proof.
  apply (resolution_keeps_visitors_counted Sample.uaParser Sample.geoip).
  intros id _. unfold uniqueVisitorsOf, findById, eventsOfLink.
  cbn -[N.eqb].
  destruct (N.eqb 1 id); [reflexivity|].
  destruct (N.eqb 2 id); [reflexivity|].
  destruct (N.eqb 3 id); reflexivity.
Defined.

Lemma trackAnalytics_records_iff_witness :
  let req := Sample.visitor "Ab3dE9xZ" None in
  let v := generateVisitorId req in
  (trackAnalytics Sample.uaParser Sample.geoip 2001 Sample.db 1%N req v
   = {| urls := updateFirst 1%N incUniqueVisitors (urls Sample.db);
        analytics := analytics Sample.db
                     ++ [analyticsData Sample.uaParser Sample.geoip 1%N req
                           v 2001 None] |}
   /\ isUnique (analyticsData Sample.uaParser Sample.geoip 1%N req v 2001
                  None) = true
   /\ timestamp (analyticsData Sample.uaParser Sample.geoip 1%N req v 2001
                   None) = 2001)
  /\ trackAnalytics Sample.uaParser Sample.geoip 2001 Sample.db 1%N
       (Sample.bare "Ab3dE9xZ") (generateVisitorId (Sample.bare "Ab3dE9xZ"))
     = Sample.db.
Proof.
  intros req v. split.
  - apply (proj1 (trackAnalytics_records_iff Sample.uaParser Sample.geoip
                    2001 Sample.db 1%N req)); reflexivity.
  - apply (proj2 (trackAnalytics_records_iff Sample.uaParser Sample.geoip
                    2001 Sample.db 1%N (Sample.bare "Ab3dE9xZ"))).
    left. reflexivity.
Defined.

(** ** The gates of verify-password *)

Section VerifyPassword.

Variable uaParser : string -> UAResult.
Variable geoip_lookup : option string -> option Location.

Local Notation "'POST'" := (post_verify_password uaParser geoip_lookup).


End VerifyPassword.


(** ** Creating links *)

Lemma freshId_above (db : Db) (u : Url) :
  In u (urls db) -> (_id u < Urls.freshId db)%N.
Proof.
  unfold Urls.freshId. induction (urls db) as [|w l IH]; [intros []|].
  intros [<- | Hin]; simpl.
  - lia.
  - specialize (IH Hin). lia.
Qed.

Lemma freshId_fresh (db : Db) : ~ In (Urls.freshId db) (map _id (urls db)).
Proof.
  intros Hin. apply in_map_iff in Hin. destruct Hin as [u [E Hin]].
  pose proof (freshId_above db u Hin). lia.
Qed.

Lemma find_snoc {A : Type} (p : A -> bool) (l : list A) (x : A) :
  find p (l ++ [x])
  = match find p l with
    | Some y => Some y
    | None => if p x then Some x else None
    end.
Proof.
  induction l as [|y l IH]; simpl; [reflexivity|].
  destruct (p y); [reflexivity | exact IH].
Qed.

Lemma find_none_iff {A : Type} (p : A -> bool) (l : list A) :
  find p l = None <-> forall x, In x l -> p x = false.
Proof.
  split; [apply find_none|].
  intros H. destruct (find p l) as [x|] eqn:E; [|reflexivity].
  apply find_some in E. destruct E as [Hin Hp].
  rewrite (H x Hin) in Hp. discriminate.
Qed.

Lemma aliasesOf_app (l1 l2 : list Url) :
  aliasesOf (l1 ++ l2) = aliasesOf l1 ++ aliasesOf l2.
Proof. unfold aliasesOf. apply flat_map_app. Qed.

Lemma In_aliasesOf (a : string) (l : list Url) :
  In a (aliasesOf l) <-> exists u, In u l /\ customAlias u = Some a.
Proof.
  unfold aliasesOf. rewrite in_flat_map. split.
  - intros [u [Hin Ha]]. exists u. split; [assumption|].
    destruct (customAlias u) as [c|]; simpl in Ha; [|contradiction].
    destruct Ha as [-> | []]. reflexivity.
  - intros [u [Hin Ha]]. exists u. split; [assumption|].
    rewrite Ha. now left.
Qed.

Section Creating.

Variable isURL : string -> bool.
Variable isISO8601 : string -> bool.
Variable newDate : string -> option Z.
Variable toDataURL : string -> option string.

Local Notation "'CREATE'" :=
  (Urls.create isURL isISO8601 newDate toDataURL).

(** The two ways of a create request: it is refused, or fails, before
    the insert, and the store is as it was; or the link is inserted, and
    the answer depends on the QR code alone. *)
Lemma create_cases (origin : string) (now : Z) (token : string)
    (user : option N) (db : Db) (b : Urls.Body) :
  (snd (CREATE origin now token user db b) = db
   /\ (fst (CREATE origin now token user db b) = Urls.ValidationFailed
       \/ fst (CREATE origin now token user db b) = Urls.AliasTaken
       \/ fst (CREATE origin now token user db b) = Urls.PasswordRequired
       \/ fst (CREATE origin now token user db b) = Urls.ServerError))
  \/ exists expiry url,
       Urls.validCreate isURL isISO8601 b = true
       /\ Urls.expiryOf newDate b = Some expiry
       /\ (forall a, Urls.b_customAlias b = Some a ->
             existsb (Urls.holdsName a) (urls db) = false /\ a <> ""%string)
       /\ existsb (fun w => String.eqb (shortId w) token) (urls db) = false
       /\ (forall a, Urls.b_customAlias b = Some a ->
             existsb (fun w => optStringEqb (customAlias w) (Some a))
               (urls db) = false)
       /\ url = {| _id := Urls.freshId db;
                   originalUrl := JS.orDefault (Urls.b_originalUrl b) "";
                   shortId := token;
                   customAlias := Urls.b_customAlias b;
                   userId := user;
                   isPasswordProtected := Urls.flagOf b;
                   password :=
                     if Urls.flagOf b then Urls.b_password b else None;
                   expiresAt := expiry;
                   isActive := true;
                   clicks := 0;
                   uniqueVisitors := 0;
                   createdAt := now;
                   lastAccessed := None |}
       /\ CREATE origin now token user db b
          = (match toDataURL (Urls.addressOf origin url) with
             | Some qrCode => Urls.Created url qrCode
             | None => Urls.ServerError
             end,
             {| urls := urls db ++ [url]; analytics := analytics db |}).
Proof.
  unfold Urls.create.
  destruct (Urls.validCreate isURL isISO8601 b) eqn:Hv; cbn [negb];
    [|left; cbn [fst snd]; auto].
  destruct (JS.truthy (Urls.b_customAlias b)
            && existsb (Urls.holdsName
                          (JS.orDefault (Urls.b_customAlias b) ""))
                 (urls db)) eqn:Ha; [left; cbn [fst snd]; auto|].
  destruct (Urls.flagOf b && negb (JS.truthy (Urls.b_password b)));
    [left; cbn [fst snd]; auto|].
  destruct (Urls.expiryOf newDate b) as [expiry|] eqn:He;
    [|left; cbn [fst snd]; auto 6].
  unfold Urls.save. cbn [shortId customAlias].
  destruct (existsb (fun w => String.eqb (shortId w) token) (urls db))
    eqn:Ht; cbn [orb]; [left; cbn [fst snd]; auto 6|].
  destruct (Urls.isSome (Urls.b_customAlias b)
            && existsb (fun w => optStringEqb (customAlias w)
                                   (Urls.b_customAlias b)) (urls db))
    eqn:Hc; [left; cbn [fst snd]; auto 6|].
  right. exists expiry. eexists.
  split; [reflexivity|]. split; [reflexivity|]. split.
  { intros a Ea.
    assert (Hm : Urls.matchesAlias a = true).
    { unfold Urls.validCreate in Hv. rewrite Ea in Hv.
      cbn [Urls.optionalField] in Hv.
      repeat (apply andb_true_iff in Hv; destruct Hv as [Hv ?]).
      assumption. }
    destruct (matchesAlias_truthy a Hm) as [Htr Hd].
    rewrite Ea, Htr, Hd in Ha. cbn [andb] in Ha. split; [assumption|].
    intros ->. discriminate. }
  split; [reflexivity|]. split.
  { intros a Ea. rewrite Ea in Hc. exact Hc. }
  split; [reflexivity|].
  destruct (toDataURL _); reflexivity.
Qed.

(** What a successful creation has checked and built. *)
Lemma create_Created (origin : string) (now : Z) (token : string)
    (user : option N) (db db1 : Db) (b : Urls.Body) (url : Url)
    (qrCode : string) :
  CREATE origin now token user db b = (Urls.Created url qrCode, db1) ->
  (forall a, Urls.b_customAlias b = Some a ->
     existsb (Urls.holdsName a) (urls db) = false /\ a <> ""%string)
  /\ existsb (fun w => String.eqb (shortId w) token) (urls db) = false
  /\ db1 = {| urls := urls db ++ [url]; analytics := analytics db |}
  /\ toDataURL (Urls.addressOf origin url) = Some qrCode
  /\ exists expiry,
       Urls.expiryOf newDate b = Some expiry
       /\ url = {| _id := Urls.freshId db;
                   originalUrl := JS.orDefault (Urls.b_originalUrl b) "";
                   shortId := token;
                   customAlias := Urls.b_customAlias b;
                   userId := user;
                   isPasswordProtected := Urls.flagOf b;
                   password :=
                     if Urls.flagOf b then Urls.b_password b else None;
                   expiresAt := expiry;
                   isActive := true;
                   clicks := 0;
                   uniqueVisitors := 0;
                   createdAt := now;
                   lastAccessed := None |}.
Proof.
  intros E.
  destruct (create_cases origin now token user db b)
    as [[_ H] | [expiry [url0 [_ [He [Ha [Ht [_ [Hurl Hrun]]]]]]]]].
  - rewrite E in H. cbn [fst] in H.
    destruct H as [H | [H | [H | H]]]; discriminate.
  - rewrite E in Hrun.
    destruct (toDataURL (Urls.addressOf origin url0)) as [q|] eqn:Hq;
      [|discriminate].
    injection Hrun as -> -> ->.
    split; [assumption|]. split; [assumption|]. split; [reflexivity|].
    split; [assumption|]. exists expiry. split; assumption.
Qed.

(** X10.  What a create request does to the store.  The three refusals
    (validation, alias taken, password missing) leave it unchanged; so
    does a 500, unless it comes from drawing the QR code, which happens
    after the insert: the caller is then told of a failure although the
    link is stored.  Whenever a link is stored, on the 201 or on that
    500, exactly one has been appended, with an [_id] that no link had,
    the generated token, the caller as owner, active, with both counters
    at zero and never accessed.  No event is ever touched. *)
Theorem create_store_effect (origin : string) (now : Z) (token : string)
    (user : option N) (db : Db) (b : Urls.Body) :
  let answer := fst (CREATE origin now token user db b) in
  let db' := snd (CREATE origin now token user db b) in
  analytics db' = analytics db
  /\ (db' = db
      \/ exists url,
           urls db' = urls db ++ [url]
           /\ ~ In (_id url) (map _id (urls db))
           /\ shortId url = token /\ userId url = user
           /\ isActive url = true
           /\ clicks url = 0 /\ uniqueVisitors url = 0
           /\ lastAccessed url = None /\ createdAt url = now
           /\ match toDataURL (Urls.addressOf origin url) with
              | Some qrCode => answer = Urls.Created url qrCode
              | None => answer = Urls.ServerError
              end)
  /\ match answer with
     | Urls.Created url qrCode =>
         urls db' = urls db ++ [url]
         /\ toDataURL (Urls.addressOf origin url) = Some qrCode
     | Urls.ServerError =>
         db' = db
         \/ exists url, urls db' = urls db ++ [url]
                        /\ toDataURL (Urls.addressOf origin url) = None
     | _ => db' = db
     end.
Proof.
  cbv zeta.
  destruct (create_cases origin now token user db b)
    as [[Hdb H] | [expiry [url [_ [_ [_ [_ [_ [Hurl Hrun]]]]]]]]].
  - rewrite Hdb. split; [reflexivity|]. split; [now left|].
    destruct H as [-> | [-> | [-> | ->]]]; auto.
  - rewrite Hrun. cbn [fst snd analytics urls].
    split; [reflexivity|]. split.
    + right. exists url. split; [reflexivity|].
      split; [rewrite Hurl; apply freshId_fresh|].
      rewrite Hurl at 1 2 3 4 5 6 7.
      cbn [shortId userId isActive clicks uniqueVisitors lastAccessed
           createdAt].
      repeat (split; [reflexivity|]).
      destruct (toDataURL (Urls.addressOf origin url)); reflexivity.
    + destruct (toDataURL (Urls.addressOf origin url)) as [q|] eqn:Hq.
      * split; [reflexivity | assumption].
      * right. exists url. split; [reflexivity | assumption].
Qed.

(** X11.  The indexes of the collection survive a creation: if [_id],
    [shortId] and [customAlias] are each free of duplicates, they are so
    after any create request. *)
Theorem create_keeps_indexed (origin : string) (now : Z) (token : string)
    (user : option N) (db : Db) (b : Urls.Body) :
  indexed db -> indexed (snd (CREATE origin now token user db b)).
Proof.
  intros [Hid [Hsh Hal]].
  destruct (create_cases origin now token user db b)
    as [[Hdb _] | [expiry [url [_ [_ [_ [Ht [Hc [Hurl Hrun]]]]]]]]].
  { rewrite Hdb. repeat split; assumption. }
  rewrite Hrun. cbn [snd].
  unfold indexed. cbn [urls]. rewrite !map_app, aliasesOf_app.
  split; [|split].
  - apply NoDup_snoc; [assumption|]. rewrite Hurl. cbn [_id].
    apply freshId_fresh.
  - apply NoDup_snoc; [assumption|]. rewrite Hurl. cbn [shortId].
    intros Hin. apply in_map_iff in Hin. destruct Hin as [w [Ew Hin]].
    pose proof (proj1 (existsb_false_forall _ _) Ht w Hin) as Hf.
    simpl in Hf. rewrite Ew, String.eqb_refl in Hf. discriminate.
  - rewrite Hurl. unfold aliasesOf at 2. cbn [flat_map customAlias].
    destruct (Urls.b_customAlias b) as [a|] eqn:Ea;
      [|now rewrite !app_nil_r].
    cbn [app]. apply NoDup_snoc; [assumption|].
    intros Hin. apply In_aliasesOf in Hin. destruct Hin as [w [Hin Ew]].
    pose proof (proj1 (existsb_false_forall _ _) (Hc a eq_refl) w Hin) as Hf.
    simpl in Hf. rewrite Ew in Hf. simpl in Hf.
    rewrite String.eqb_refl in Hf. discriminate.
Qed.

End Creating.

(** ** From creation to resolution *)

Section CreateThenResolve.

Variable isURL : string -> bool.
Variable isISO8601 : string -> bool.
Variable newDate : string -> option Z.
Variable toDataURL : string -> option string.
Variable uaParser : string -> UAResult.
Variable geoip_lookup : option string -> option Location.

Local Notation "'CREATE'" :=
  (Urls.create isURL isISO8601 newDate toDataURL).
Local Notation "'GET'" := (get_shortId uaParser geoip_lookup).

(** X12.  Round trip.  The public handle of a link that has just been
    created (its alias, or else its token) resolves to that link; when the
    link is open and not expired, a first request for the handle is
    redirected to the destination given at creation and leaves the link
    with one click.  For a link without alias this needs that no active
    link already uses the generated token as its alias: nothing checks a
    new token against the aliases. *)
Theorem create_then_resolve (origin : string) (now : Z) (token : string)
    (user : option N) (db db1 : Db) (b : Urls.Body) (url : Url)
    (qrCode : string) :
  CREATE origin now token user db b = (Urls.Created url qrCode, db1) ->
  (Urls.b_customAlias b = None ->
   forall w, In w (urls db) -> isActive w = true ->
             customAlias w <> Some token) ->
  findActiveByHandle db1 (shortUrl url) = Some url
  /\ originalUrl url = JS.orDefault (Urls.b_originalUrl b) ""
  /\ forall tExpiry tVisit tAccess req,
       params_shortId req = shortUrl url ->
       isExpired url tExpiry = false ->
       isPasswordProtected url = false ->
       fst (GET tExpiry tVisit tAccess db1 req) = Redirect (originalUrl url)
       /\ clicksOf (snd (GET tExpiry tVisit tAccess db1 req)) (_id url) = 1.
Proof.
  intros E Hfree.
  destruct (create_Created isURL isISO8601 newDate toDataURL
              _ _ _ _ _ _ _ _ _ E)
    as [Ha [Ht [-> [_ [expiry [_ Hurl]]]]]].
  assert (Hfind : findActiveByHandle
                    {| urls := urls db ++ [url]; analytics := analytics db |}
                    (shortUrl url) = Some url).
  { unfold findActiveByHandle. cbn [urls]. rewrite find_snoc.
    assert (Hnone : find (fun u => matchesHandle (shortUrl url) u
                                   && isActive u) (urls db) = None).
    { apply find_none_iff. intros w Hin.
      rewrite Hurl. unfold shortUrl. cbn [customAlias shortId].
      destruct (Urls.b_customAlias b) as [a|] eqn:Ea.
      - destruct (Ha a eq_refl) as [Hx Hne].
        pose proof (proj1 (existsb_false_forall _ _) Hx w Hin) as Hw.
        unfold Urls.holdsName in Hw. apply orb_false_iff in Hw.
        destruct Hw as [Hw1 Hw2].
        assert (Hd : JS.orDefault (Some a) token = a).
        { simpl. destruct (String.eqb a "") eqn:Ee; [|reflexivity].
          apply String.eqb_eq in Ee. contradiction. }
        rewrite Hd. unfold matchesHandle. now rewrite Hw1, Hw2.
      - cbn [JS.orDefault]. unfold matchesHandle.
        pose proof (proj1 (existsb_false_forall _ _) Ht w Hin) as Hw.
        simpl in Hw. rewrite Hw. cbn [orb].
        destruct (isActive w) eqn:Hact; [|apply andb_false_r].
        rewrite andb_true_r. apply optStringEqb_neq.
        now apply (Hfree eq_refl w Hin). }
    rewrite Hnone, shortUrl_matches.
    rewrite Hurl at 1. reflexivity. }
  split; [exact Hfind|]. split; [now rewrite Hurl|].
  intros tExpiry tVisit tAccess req Hh Hexp Hopen.
  assert (Hget : GET tExpiry tVisit tAccess
                   {| urls := urls db ++ [url]; analytics := analytics db |}
                   req
                 = (Redirect (originalUrl url),
                    recordVisit uaParser geoip_lookup tVisit tAccess
                      {| urls := urls db ++ [url];
                         analytics := analytics db |} url req)).
  { unfold get_shortId. rewrite Hh, Hfind, Hexp, Hopen. reflexivity. }
  rewrite Hget. cbn [fst snd]. split; [reflexivity|].
  assert (Hin : In url (urls {| urls := urls db ++ [url];
                                analytics := analytics db |})).
  { cbn [urls]. apply in_or_app. right. now left. }
  destruct (recordVisit_counts uaParser geoip_lookup tVisit tAccess _ url req
              Hin) as [Hc _].
  rewrite Hc. unfold clicksOf, findById. cbn [urls]. rewrite find_snoc.
  assert (Hnone : find (fun u => N.eqb (_id u) (_id url)) (urls db) = None).
  { apply find_none_iff. intros w Hw. apply N.eqb_neq.
    pose proof (freshId_above db w Hw). rewrite Hurl. cbn [_id]. lia. }
  rewrite Hnone, N.eqb_refl. rewrite Hurl. reflexivity.
Qed.

End CreateThenResolve.

Lemma create_then_resolve_witness :
  let created := Urls.create Sample.isURL Sample.isISO8601 Sample.newDate
                   Sample.toDataURL Sample.origin 2000
                   "Nn4mKk2j" None Sample.db (Sample.newLink "launch") in
  exists url qrCode,
    fst created = Urls.Created url qrCode
    /\ findActiveByHandle (snd created) (shortUrl url) = Some url
    /\ originalUrl url = "https://example.com/launch"%string
    /\ forall tExpiry tVisit tAccess req,
         params_shortId req = shortUrl url ->
         isExpired url tExpiry = false ->
         isPasswordProtected url = false ->
         fst (get_shortId Sample.uaParser Sample.geoip tExpiry tVisit tAccess
                (snd created) req) = Redirect (originalUrl url)
         /\ clicksOf (snd (get_shortId Sample.uaParser Sample.geoip
                             tExpiry tVisit tAccess (snd created) req))
              (_id url) = 1.
Proof.
  intros created. eexists. eexists. split; [reflexivity|].
  eapply (create_then_resolve Sample.isURL Sample.isISO8601 Sample.newDate
            Sample.toDataURL Sample.uaParser Sample.geoip Sample.origin
            2000 "Nn4mKk2j" None Sample.db
            (snd created) (Sample.newLink "launch")).
  - reflexivity.
  - discriminate.
Defined.

(** ** Updating and deleting links *)

Lemma find_split {A : Type} (p : A -> bool) (l : list A) (w : A) :
  find p l = Some w ->
  exists l1 l2, l = l1 ++ w :: l2
                /\ Forall (fun x => p x = false) l1 /\ p w = true.
Proof.
  induction l as [|x l IH]; simpl; [discriminate|].
  destruct (p x) eqn:E.
  - intros H. injection H as <-. exists [], l. repeat split; auto.
  - intros H. destruct (IH H) as [l1 [l2 [-> [H1 H2]]]].
    exists (x :: l1), l2. repeat split; auto.
Qed.

Lemma find_append {A : Type} (p : A -> bool) (l1 l2 : list A) :
  find p (l1 ++ l2)
  = match find p l1 with
    | Some x => Some x
    | None => find p l2
    end.
Proof.
  induction l1 as [|x l1 IH]; simpl; [reflexivity|].
  destruct (p x); [reflexivity | exact IH].
Qed.

Lemma removeFirst_split (p : Url -> bool) (l1 l2 : list Url) (w : Url) :
  Forall (fun x => p x = false) l1 -> p w = true ->
  Owner.removeFirst p (l1 ++ w :: l2) = l1 ++ l2.
Proof.
  intros H Hw. induction H as [|x l1 Hx _ IH]; simpl.
  - now rewrite Hw.
  - now rewrite Hx, IH.
Qed.

Lemma updateFirst_split (id : N) (f : Url -> Url) (l1 l2 : list Url)
    (w : Url) :
  Forall (fun x => _id x <> id) l1 -> _id w = id ->
  updateFirst id f (l1 ++ w :: l2) = l1 ++ f w :: l2.
Proof.
  intros H Hw. induction H as [|x l1 Hx _ IH]; simpl.
  - now rewrite Hw, N.eqb_refl.
  - apply N.eqb_neq in Hx. now rewrite Hx, IH.
Qed.

Lemma ids_apart (l1 l2 : list Url) (w : Url) :
  NoDup (map _id (l1 ++ w :: l2)) ->
  Forall (fun x => _id x <> _id w) l1 /\ Forall (fun x => _id x <> _id w) l2.
Proof.
  rewrite map_app. cbn [map]. intros H.
  apply NoDup_remove_2 in H.
  split; apply Forall_forall; intros x Hx E; apply H; apply in_or_app;
    [left | right]; apply in_map_iff; exists x; auto.
Qed.

Lemma find_id_apart (id : N) (l : list Url) :
  Forall (fun x => _id x <> id) l ->
  find (fun u => N.eqb (_id u) id) l = None.
Proof.
  intros H. apply find_none_iff. intros x Hx. apply N.eqb_neq.
  exact (proj1 (Forall_forall _ _) H x Hx).
Qed.

Lemma NoDup_insert {A : Type} (l1 l2 : list A) (a : A) :
  NoDup (l1 ++ l2) -> ~ In a (l1 ++ l2) -> NoDup (l1 ++ a :: l2).
Proof.
  intros H Ha.
  apply (Permutation_NoDup (Permutation_middle l1 l2 a)).
  now constructor.
Qed.

Lemma NoDup_aliases_removed (l1 l2 : list Url) (w : Url) :
  NoDup (aliasesOf (l1 ++ w :: l2)) -> NoDup (aliasesOf (l1 ++ l2)).
Proof.
  rewrite !aliasesOf_app. unfold aliasesOf at 2. cbn [flat_map].
  fold (aliasesOf l2). destruct (customAlias w) as [c|]; cbn [app].
  - apply NoDup_remove_1.
  - auto.
Qed.

Section Updating.

Variable isURL : string -> bool.
Variable isISO8601 : string -> bool.
Variable newDate : string -> option Z.

Local Notation "'UPDATE'" := (Urls.update isURL isISO8601 newDate).

(** What an accepted update has checked and done. *)
Lemma update_Updated (user id : N) (db db1 : Db) (b : Urls.Body)
    (r : option Url) :
  UPDATE user id db b = (Urls.Updated r, db1) ->
  exists w,
    find (Owner.owns user id) (urls db) = Some w
    /\ (JS.truthy (Urls.b_customAlias b)
        && negb (optStringEqb (Urls.b_customAlias b) (customAlias w))
        && existsb (fun u => Urls.holdsName
                               (JS.orDefault (Urls.b_customAlias b) "") u
                             && negb (N.eqb (_id u) id)) (urls db)) = false
    /\ (exists expiry,
          Urls.expiryOf newDate b = Some expiry
          /\ db1 = findByIdAndUpdate db id (Urls.applyUpdate expiry b))
    /\ r = option_map Urls.withoutPassword (findById db1 id).
Proof.
  unfold Urls.update.
  destruct (negb (Urls.validUpdate isURL isISO8601 b)); [discriminate|].
  change (fun u : Url => N.eqb (_id u) id
                         && match userId u with
                            | Some o => N.eqb o user
                            | None => false
                            end)
    with (Owner.owns user id).
  destruct (find (Owner.owns user id) (urls db)) as [w|]; [|discriminate].
  destruct (JS.truthy (Urls.b_customAlias b)
            && negb (optStringEqb (Urls.b_customAlias b) (customAlias w))
            && existsb _ (urls db)) eqn:Hc; [discriminate|].
  destruct (Urls.flagOf b && negb (JS.truthy (Urls.b_password b)));
    [discriminate|].
  destruct (Urls.expiryOf newDate b) as [expiry|] eqn:He; [|discriminate].
  intros H. injection H as <- <-. exists w.
  split; [reflexivity|]. split; [exact Hc|]. split; [|reflexivity].
  exists expiry. split; reflexivity.
Qed.

Lemma update_refused (user id : N) (db : Db) (b : Urls.Body) :
  (forall r, fst (UPDATE user id db b) <> Urls.Updated r) ->
  snd (UPDATE user id db b) = db.
Proof.
  unfold Urls.update.
  repeat match goal with
         | |- context [if ?c then _ else _] => destruct c
         | |- context [match find ?p ?l with _ => _ end] =>
             destruct (find p l)
         | |- context [match Urls.expiryOf ?n ?x with _ => _ end] =>
             destruct (Urls.expiryOf n x)
         end; cbn [fst snd]; intros H; try reflexivity;
    exfalso; eapply H; reflexivity.
Qed.

Lemma update_store (user id : N) (db : Db) (b : Urls.Body) :
  snd (UPDATE user id db b) = db
  \/ exists expiry,
       snd (UPDATE user id db b)
       = findByIdAndUpdate db id (Urls.applyUpdate expiry b).
Proof.
  destruct (UPDATE user id db b) as [r db1] eqn:E.
  destruct r as [| | |url|upd| |];
    try (left; rewrite <- E at 2; change db1 with (snd (r, db1));
         fail).
  all: try (left;
            assert (H : snd (UPDATE user id db b) = db)
              by (apply update_refused; intros r; rewrite E; discriminate);
            now rewrite E in H).
  right.
  destruct (update_Updated _ _ _ _ _ _ E) as [_ [_ [_ [[expiry [_ ->]] _]]]].
  exists expiry. reflexivity.
Qed.

(** X13.  Only the owner updates.  Unless the answer is [Updated] the
    store is unchanged; [Updated] is only given to a caller who owns a
    link with the given id, and the document it carries is that id's,
    without its password. *)
Theorem update_only_by_owner (user id : N) (db : Db) (b : Urls.Body) :
  match fst (UPDATE user id db b) with
  | Urls.Updated r =>
      (exists w, In w (urls db) /\ _id w = id /\ userId w = Some user)
      /\ forall u, r = Some u -> _id u = id /\ password u = None
  | _ => snd (UPDATE user id db b) = db
  end.
Proof.
  destruct (fst (UPDATE user id db b)) as [| | |url|upd| |] eqn:E;
    cbv beta iota;
    try (apply update_refused; intros r; rewrite E; discriminate).
  destruct (UPDATE user id db b) as [r db1] eqn:E'. cbn [fst] in E. subst r.
  destruct (update_Updated _ _ _ _ _ _ E') as [w [Hw [_ [_ Hr]]]].
  split.
  - apply find_some in Hw. destruct Hw as [Hin Hp]. exists w.
    unfold Owner.owns, Owner.ownedBy in Hp. apply andb_true_iff in Hp.
    destruct Hp as [Hid Ho]. apply N.eqb_eq in Hid.
    destruct (userId w) as [o|]; [|discriminate].
    apply N.eqb_eq in Ho. subst o. auto.
  - intros u Hu. rewrite Hr in Hu. unfold findById in Hu.
    destruct (find (fun x => N.eqb (_id x) id) (urls db1)) as [x|] eqn:Hx;
      [|discriminate].
    injection Hu as <-. apply find_some in Hx. destruct Hx as [_ Hx].
    apply N.eqb_eq in Hx. split; [exact Hx | reflexivity].
Qed.

(** X14.  What an update cannot reach: whatever the request, no event
    changes, no link is added or removed, every link keeps its [_id],
    token, owner, [isActive], counters and stamps, and links with another
    id keep everything. *)
Theorem update_touches_editable_fields_only (user id : N) (db : Db)
    (b : Urls.Body) :
  let db' := snd (UPDATE user id db b) in
  analytics db' = analytics db
  /\ map keptByUpdate (urls db') = map keptByUpdate (urls db)
  /\ forall id', id' <> id -> findById db' id' = findById db id'.
Proof.
  intros db'. subst db'.
  destruct (update_store user id db b) as [-> | [expiry ->]].
  - repeat split.
  - split; [reflexivity|]. split.
    + cbn [urls findByIdAndUpdate]. now apply map_updateFirst.
    + intros id' Hne. unfold findById. cbn [urls findByIdAndUpdate].
      now apply find_updateFirst_other.
Qed.

(** X15.  The alias check of an update.  For a valid request by the owner
    that names an alias, the answer is [AliasTaken] exactly when the alias
    is not the link's own and some link with another id has it as token or
    alias; sending the link's own alias again is never refused for it. *)
Theorem update_alias_check (user id : N) (db : Db) (b : Urls.Body)
    (w : Url) (a : string) :
  Urls.validUpdate isURL isISO8601 b = true ->
  find (Owner.owns user id) (urls db) = Some w ->
  Urls.b_customAlias b = Some a ->
  fst (UPDATE user id db b) = Urls.AliasTaken
  <-> customAlias w <> Some a
      /\ exists x, In x (urls db) /\ _id x <> id
                   /\ (shortId x = a \/ customAlias x = Some a).
Proof.
  intros Hv Hw Ha.
  assert (Hm : Urls.matchesAlias a = true).
  { pose proof Hv as Hv'. unfold Urls.validUpdate in Hv'.
    rewrite Ha in Hv'. cbn [Urls.optionalField] in Hv'.
    repeat (apply andb_true_iff in Hv'; destruct Hv' as [Hv' ?]).
    assumption. }
  destruct (matchesAlias_truthy a Hm) as [Ht Hd].
  unfold Urls.update. rewrite Hv. cbn [negb].
  change (fun u : Url => N.eqb (_id u) id
                         && match userId u with
                            | Some o => N.eqb o user
                            | None => false
                            end)
    with (Owner.owns user id).
  rewrite Hw, Ha, Ht, Hd. cbn [andb].
  destruct (optStringEqb (Some a) (customAlias w)) eqn:Hown; cbn [negb andb].
  - apply optStringEqb_eq in Hown. split.
    + destruct (Urls.flagOf b && negb (JS.truthy (Urls.b_password b)));
        [discriminate|].
      destruct (Urls.expiryOf newDate b); discriminate.
    + intros [Hne _]. congruence.
  - apply optStringEqb_neq in Hown.
    destruct (existsb (fun u => Urls.holdsName a u && negb (N.eqb (_id u) id))
                (urls db)) eqn:Hx.
    + split; [|reflexivity]. intros _. split; [congruence|].
      apply existsb_exists in Hx. destruct Hx as [x [Hin Hp]].
      apply andb_true_iff in Hp. destruct Hp as [Hh Hne].
      apply holdsName_spec in Hh. apply negb_true_iff, N.eqb_neq in Hne.
      exists x. auto.
    + split.
      * destruct (Urls.flagOf b && negb (JS.truthy (Urls.b_password b)));
          [discriminate|].
        destruct (Urls.expiryOf newDate b); discriminate.
      * intros [_ [x [Hin [Hne Hh]]]].
        pose proof (proj1 (existsb_false_forall _ _) Hx x Hin) as Hf.
        apply holdsName_spec in Hh. apply N.eqb_neq in Hne.
        simpl in Hf. rewrite Hh, Hne in Hf. discriminate.
Qed.

End Updating.

Section UpdatingIndexed.

Variable isURL : string -> bool.
Variable isISO8601 : string -> bool.
Variable newDate : string -> option Z.

Local Notation "'UPDATE'" := (Urls.update isURL isISO8601 newDate).

(** X16.  The indexes of the collection survive an update: if [_id],
    [shortId] and [customAlias] are each free of duplicates, they are so
    after any update request. *)
Theorem update_keeps_indexed (user id : N) (db : Db) (b : Urls.Body) :
  indexed db -> indexed (snd (UPDATE user id db b)).
Proof.
  intros Hix.
  destruct (fst (UPDATE user id db b)) as [| | |url|upd| |] eqn:E;
    try (rewrite update_refused;
         [assumption | intros r; rewrite E; discriminate]).
  destruct (UPDATE user id db b) as [r db1] eqn:E'. cbn [fst snd] in *.
  subst r.
  destruct (update_Updated _ _ _ _ _ _ _ _ _ E')
    as [w [Hw [Hc [[expiry [_ ->]] _]]]].
  destruct Hix as [Hid [Hsh Hal]].
  destruct (find_split _ _ _ Hw) as [l1 [l2 [Hl [_ Hp]]]].
  unfold Owner.owns in Hp. apply andb_true_iff in Hp.
  destruct Hp as [Hwid _]. apply N.eqb_eq in Hwid.
  rewrite Hl in Hid, Hsh, Hal.
  destruct (ids_apart l1 l2 w Hid) as [H1 H2]. rewrite Hwid in H1, H2.
  unfold indexed, findByIdAndUpdate. cbn [urls].
  rewrite !map_updateFirst by reflexivity. rewrite Hl.
  split; [assumption|]. split; [assumption|].
  rewrite (updateFirst_split id _ l1 l2 w H1 Hwid).
  rewrite aliasesOf_app. unfold aliasesOf at 2. cbn [flat_map].
  fold (aliasesOf l2). cbn [customAlias Urls.applyUpdate].
  destruct (Urls.b_customAlias b) as [a|] eqn:Ea.
  - cbn [app]. apply NoDup_insert.
    + rewrite <- aliasesOf_app. now apply NoDup_aliases_removed with w.
    + destruct (optStringEqb (Some a) (customAlias w)) eqn:Hown.
      * apply optStringEqb_eq in Hown.
        rewrite aliasesOf_app in Hal. unfold aliasesOf at 2 in Hal.
        cbn [flat_map] in Hal. fold (aliasesOf l2) in Hal.
        rewrite <- Hown in Hal. cbn [app] in Hal.
        now apply NoDup_remove_2 in Hal.
      * assert (Ht : JS.truthy (Some a) = true).
        { destruct (JS.truthy (Some a)) eqn:Ht; [reflexivity|].
          exfalso. revert E'. unfold Urls.update.
          destruct (Urls.validUpdate isURL isISO8601 b) eqn:Hv;
            [|discriminate].
          unfold Urls.validUpdate in Hv. rewrite Ea in Hv.
          cbn [Urls.optionalField] in Hv.
          repeat (apply andb_true_iff in Hv; destruct Hv as [Hv ?]).
          match goal with
          | Hm : Urls.matchesAlias a = true |- _ =>
              destruct (matchesAlias_truthy a Hm) as [Ht' _]
          end.
          congruence. }
        rewrite Ht in Hc. cbn [negb andb] in Hc.
        assert (Hd : JS.orDefault (Some a) "" = a).
        { simpl in *. destruct (String.eqb a ""); [discriminate|].
          reflexivity. }
        rewrite Hd, Hl in Hc.
        intros Hin. rewrite <- aliasesOf_app in Hin.
        apply In_aliasesOf in Hin. destruct Hin as [x [Hx Hax]].
        assert (Hx' : In x (l1 ++ w :: l2)).
        { apply in_app_or in Hx. apply in_or_app.
          destruct Hx; [left | right; right]; assumption. }
        pose proof (proj1 (existsb_false_forall _ _) Hc x Hx') as Hf.
        simpl in Hf. unfold Urls.holdsName in Hf. rewrite Hax in Hf.
        simpl in Hf. rewrite String.eqb_refl in Hf. cbn [orb andb] in Hf.
        apply negb_false_iff, N.eqb_eq in Hf.
        apply in_app_or in Hx. destruct Hx as [Hx | Hx].
        -- exact (proj1 (Forall_forall _ _) H1 x Hx Hf).
        -- exact (proj1 (Forall_forall _ _) H2 x Hx Hf).
  - rewrite aliasesOf_app in Hal. unfold aliasesOf at 2 in Hal.
    cbn [flat_map] in Hal. exact Hal.
Qed.

End UpdatingIndexed.

(** X17.  Deleting.  A caller who owns no link with the given id gets the
    404 and changes nothing.  Otherwise, in a store whose ids are
    distinct, exactly that link is gone: its id is no longer found and
    no handle resolves to it, every other link is as before, the indexes
    still hold, and the events are all still there, those of the deleted
    link included. *)
Theorem delete_removes_the_link_only (user id : N) (db : Db) :
  indexed db ->
  let db' := snd (Owner.delete user id db) in
  match fst (Owner.delete user id db) with
  | Owner.DeleteNotFound =>
      db' = db
      /\ forall w, In w (urls db) -> _id w = id -> userId w <> Some user
  | Owner.Deleted =>
      (exists w, In w (urls db) /\ _id w = id /\ userId w = Some user)
      /\ findById db' id = None
      /\ (forall h u, findActiveByHandle db' h = Some u -> _id u <> id)
      /\ (forall id', id' <> id -> findById db' id' = findById db id')
      /\ analytics db' = analytics db
      /\ indexed db'
  end.
Proof.
  intros [Hid [Hsh Hal]] db'. subst db'. unfold Owner.delete.
  destruct (find (Owner.owns user id) (urls db)) as [w|] eqn:Hw;
    cbn [fst snd].
  - destruct (find_split _ _ _ Hw) as [l1 [l2 [Hl [Hnot Hp]]]].
    pose proof Hp as Hp'. unfold Owner.owns, Owner.ownedBy in Hp'.
    apply andb_true_iff in Hp'. destruct Hp' as [Hwid Ho].
    apply N.eqb_eq in Hwid.
    assert (Hown : userId w = Some user).
    { destruct (userId w) as [o|]; [|discriminate].
      apply N.eqb_eq in Ho. now subst o. }
    rewrite Hl in Hid, Hsh, Hal.
    destruct (ids_apart l1 l2 w Hid) as [H1 H2]. rewrite Hwid in H1, H2.
    assert (Hall : Forall (fun x => _id x <> id) (l1 ++ l2))
      by (apply Forall_app; split; assumption).
    rewrite Hl, (removeFirst_split _ l1 l2 w Hnot Hp).
    split; [|split; [|split; [|split; [|split]]]].
    + exists w. split; [|split; assumption].
      apply in_or_app. right. now left.
    + unfold findById. cbn [urls]. now apply find_id_apart.
    + intros h u Hu. apply findActiveByHandle_Some in Hu.
      destruct Hu as [Hin _]. cbn [urls] in Hin.
      exact (proj1 (Forall_forall _ _) Hall u Hin).
    + intros id' Hne. unfold findById. cbn [urls]. rewrite Hl.
      rewrite !find_append. cbn [find].
      replace (N.eqb (_id w) id') with false
        by (symmetry; apply N.eqb_neq; congruence).
      reflexivity.
    + reflexivity.
    + unfold indexed. cbn [urls].
      rewrite map_app in Hid, Hsh. cbn [map] in Hid, Hsh.
      apply NoDup_remove_1 in Hid. apply NoDup_remove_1 in Hsh.
      rewrite !map_app.
      split; [assumption|]. split; [assumption|].
      now apply NoDup_aliases_removed with w.
  - split; [reflexivity|].
    intros w Hin Hwid Ho.
    pose proof (find_none _ _ Hw w Hin) as Hf.
    unfold Owner.owns, Owner.ownedBy in Hf.
    rewrite Hwid, Ho, !N.eqb_refl in Hf. discriminate.
Qed.

(** The sample store respects its indexes. *)
Ltac sample_indexed :=
  repeat split; repeat constructor; simpl; intuition discriminate.

Lemma create_keeps_indexed_witness :
  indexed (snd (Urls.create Sample.isURL Sample.isISO8601 Sample.newDate
                  Sample.toDataURL Sample.origin 2000 "Nn4mKk2j"
                  None Sample.db (Sample.newLink "launch"))).
Proof.
  apply (create_keeps_indexed Sample.isURL Sample.isISO8601 Sample.newDate
           Sample.toDataURL).
  sample_indexed.
Defined.

Lemma update_alias_check_witness :
  fst (Urls.update Sample.isURL Sample.isISO8601 Sample.newDate
         7%N 1%N Sample.db (Sample.newLink "promo")) = Urls.AliasTaken
  /\ fst (Urls.update Sample.isURL Sample.isISO8601 Sample.newDate
            7%N 2%N Sample.db (Sample.newLink "promo")) <> Urls.AliasTaken.
Proof.
  split.
  - apply (proj2 (update_alias_check Sample.isURL Sample.isISO8601
                    Sample.newDate 7%N 1%N Sample.db
                    (Sample.newLink "promo") Sample.link
                    "promo" eq_refl eq_refl eq_refl)).
    split; [discriminate|].
    exists Sample.retired. split; [simpl; auto|].
    split; [discriminate | right; reflexivity].
  - intros H.
    apply (proj1 (update_alias_check Sample.isURL Sample.isISO8601
                    Sample.newDate 7%N 2%N Sample.db
                    (Sample.newLink "promo") Sample.retired
                    "promo" eq_refl eq_refl eq_refl)) in H.
    destruct H as [H _]. apply H. reflexivity.
Defined.

Lemma update_keeps_indexed_witness :
  indexed (snd (Urls.update Sample.isURL Sample.isISO8601 Sample.newDate
                  7%N 1%N Sample.db (Sample.newLink "launch"))).
Proof.
  apply (update_keeps_indexed Sample.isURL Sample.isISO8601 Sample.newDate).
  sample_indexed.
Defined.

Lemma delete_removes_the_link_only_witness :
  let db' := snd (Owner.delete 7%N 2%N Sample.db) in
  findById db' 2%N = None
  /\ (forall h u, findActiveByHandle db' h = Some u -> _id u <> 2%N)
  /\ analytics db' = analytics Sample.db
  /\ indexed db'
  /\ snd (Owner.delete 8%N 2%N Sample.db) = Sample.db.
Proof.
  intros db'.
  assert (Hix : indexed Sample.db) by sample_indexed.
  pose proof (delete_removes_the_link_only 7%N 2%N Sample.db Hix) as H.
  pose proof (delete_removes_the_link_only 8%N 2%N Sample.db Hix) as H'.
  cbn [fst Owner.delete find urls Sample.db] in H, H'.
  change (Owner.owns 7 2 Sample.link) with false in H.
  change (Owner.owns 7 2 Sample.retired) with true in H.
  change (Owner.owns 8 2 Sample.link) with false in H'.
  change (Owner.owns 8 2 Sample.retired) with false in H'.
  change (Owner.owns 8 2 Sample.locked) with false in H'.
  cbv beta iota zeta in H, H'. cbn [fst snd] in H, H'.
  destruct H as [_ [H1 [H2 [_ [H3 H4]]]]]. destruct H' as [H5 _].
  split; [exact H1|]. split; [exact H2|]. split; [exact H3|].
  split; [exact H4 | exact H5].
Defined.

(** ** The owner's listing *)

Lemma insertByCreated_perm (u : Url) (l : list Url) :
  Permutation (Owner.insertByCreated u l) (u :: l).
Proof.
  induction l as [|w l IH]; simpl; [apply Permutation_refl|].
  destruct (createdAt w <? createdAt u); [apply Permutation_refl|].
  apply perm_trans with (w :: u :: l); [now constructor | constructor].
Qed.

Lemma sortByCreated_perm (l : list Url) :
  Permutation (Owner.sortByCreated l) l.
Proof.
  unfold Owner.sortByCreated.
  assert (G : forall acc,
             Permutation
               (fold_left (fun acc u => Owner.insertByCreated u acc) l acc)
               (acc ++ l)).
  { induction l as [|u l IH]; intros acc; simpl.
    - rewrite app_nil_r. apply Permutation_refl.
    - eapply perm_trans; [apply IH|].
      eapply perm_trans;
        [apply Permutation_app_tail, insertByCreated_perm|].
      simpl. apply Permutation_middle. }
  exact (G []).
Qed.

Lemma In_firstn {A : Type} (n : nat) (l : list A) (x : A) :
  In x (firstn n l) -> In x l.
Proof.
  intros H. rewrite <- (firstn_skipn n l). apply in_or_app. now left.
Qed.

Lemma In_skipn {A : Type} (n : nat) (l : list A) (x : A) :
  In x (skipn n l) -> In x l.
Proof.
  intros H. rewrite <- (firstn_skipn n l). apply in_or_app. now right.
Qed.

Section ListingProperties.

Variable regexTest : string -> string -> bool.

(** X18.  The page of a listing and its pagination agree.  For every page
    number and page size (positive integers): the page holds
    [min limit (total - (page - 1) * limit)] links, none when that is
    negative; [hasNext] is true exactly when the page number is below
    [totalPages], and then the page is full; a page beyond [totalPages] is
    empty; every link listed belongs to the caller and is shown without
    its password. *)
Theorem get_urls_pagination (user : N) (page limit : positive)
    (search : string) (db : Db) :
  let found := fst (Owner.get_urls regexTest user page limit search db) in
  let pg := snd (Owner.get_urls regexTest user page limit search db) in
  let total := Owner.totalUrls pg in
  total = Z.of_nat (List.length
                      (filter (Owner.query regexTest user search) (urls db)))
  /\ Z.of_nat (List.length found)
     = Z.max 0 (Z.min (Z.pos limit) (total - (Z.pos page - 1) * Z.pos limit))
  /\ (Owner.hasNext pg = true <-> Owner.currentPage pg < Owner.totalPages pg)
  /\ (Owner.hasNext pg = true -> List.length found = Pos.to_nat limit)
  /\ (Owner.totalPages pg < Z.pos page -> found = [])
  /\ (Owner.hasPrev pg = true <-> 1 < Z.pos page)
  /\ Forall (fun u => userId u = Some user /\ password u = None) found.
Proof.
  intros found pg total. subst found pg total.
  unfold Owner.get_urls.
  cbn [fst snd Owner.totalUrls Owner.hasNext Owner.currentPage
       Owner.totalPages Owner.hasPrev].
  set (matching := filter (Owner.query regexTest user search) (urls db)).
  set (T := Z.of_nat (List.length matching)).
  set (L := Z.pos limit). set (P := Z.pos page).
  assert (HL : 0 < L) by (subst L; lia).
  assert (HP : 0 < P) by (subst P; lia).
  assert (HT : 0 <= T) by (subst T; lia).
  assert (Hlen : Z.of_nat
                   (List.length
                      (firstn (Pos.to_nat limit)
                         (skipn (Z.to_nat ((P - 1) * L))
                            (Owner.sortByCreated matching))))
                 = Z.max 0 (Z.min L (T - (P - 1) * L))).
  { rewrite length_firstn, length_skipn.
    rewrite (Permutation_length (sortByCreated_perm matching)).
    fold T. subst L P T. nia. }
  assert (Hceil : L * ((T + L - 1) / L) <= T + L - 1
                  /\ T + L - 1 < L * ((T + L - 1) / L) + L).
  { pose proof (Z.div_mod (T + L - 1) L ltac:(lia)).
    pose proof (Z.mod_pos_bound (T + L - 1) L HL). lia. }
  split; [reflexivity|]. split; [now rewrite length_map|].
  split; [|split; [|split; [|split]]].
  - rewrite Z.ltb_lt. split; intros H; nia.
  - rewrite Z.ltb_lt. intros H. rewrite length_map.
    apply Nat2Z.inj. rewrite Hlen. subst L. lia.
  - intros H. apply length_zero_iff_nil. apply Nat2Z.inj.
    rewrite length_map, Hlen. nia.
  - apply Z.ltb_lt.
  - apply Forall_forall. intros u Hu. apply in_map_iff in Hu.
    destruct Hu as [w [<- Hw]]. split; [|reflexivity].
    apply In_firstn, In_skipn in Hw.
    apply (Permutation_in _ (sortByCreated_perm matching)) in Hw.
    subst matching. apply filter_In in Hw. destruct Hw as [_ Hq].
    unfold Owner.query, Owner.ownedBy in Hq. apply andb_true_iff in Hq.
    destruct Hq as [Ho _]. cbn [userId Urls.withoutPassword].
    destruct (userId w) as [o|]; [|discriminate].
    apply N.eqb_eq in Ho. now subst o.
Qed.

End ListingProperties.

Lemma find_owns_In (user : N) (w : Url) (l : list Url) :
  NoDup (map _id l) -> In w l -> Owner.ownedBy user w = true ->
  find (Owner.owns user (_id w)) l = Some w.
Proof.
  intros Hnd Hin Ho. induction l as [|x l IH]; [destruct Hin|].
  cbn [map] in Hnd. apply NoDup_cons_iff in Hnd. destruct Hnd as [Hx Hnd].
  cbn [find]. destruct Hin as [-> | Hin].
  - unfold Owner.owns. now rewrite N.eqb_refl, Ho.
  - assert (Hne : N.eqb (_id x) (_id w) = false).
    { apply N.eqb_neq. intros E. apply Hx. rewrite E. now apply in_map. }
    unfold Owner.owns at 1. rewrite Hne. cbn [andb]. now apply IH.
Qed.

Section ListingAndDetail.

Variable regexTest : string -> string -> bool.
Variable toDataURL : string -> option string.

(** X26.  The listing and the detail route agree on the documents.  In a
    store whose ids are distinct, the detail route never answers 404 for
    a link that some page of the caller's listing shows, under whatever
    search: when the QR code for the link's address can be drawn it
    returns the very document that is listed, with that code; when
    drawing it throws, the answer is the 500 of the catch block. *)
Theorem listed_links_can_be_fetched (origin : string) (user : N)
    (page limit : positive) (search : string) (db : Db) (u : Url) :
  NoDup (map _id (urls db)) ->
  In u (fst (Owner.get_urls regexTest user page limit search db)) ->
  Owner.get_id toDataURL origin user (_id u) db
  = match toDataURL (Urls.addressOf origin u) with
    | Some qrCode => Owner.Detail u qrCode
    | None => Owner.DetailError
    end.
Proof.
  intros Hnd Hin. unfold Owner.get_urls in Hin. cbn [fst] in Hin.
  apply in_map_iff in Hin. destruct Hin as [w [<- Hw]].
  apply In_firstn, In_skipn in Hw.
  apply (Permutation_in _ (sortByCreated_perm _)) in Hw.
  apply filter_In in Hw. destruct Hw as [Hw Hq].
  unfold Owner.query in Hq. apply andb_true_iff in Hq.
  destruct Hq as [Ho _].
  unfold Owner.get_id. cbn [_id Urls.withoutPassword].
  now rewrite (find_owns_In user w (urls db) Hnd Hw Ho).
Qed.

End ListingAndDetail.

Lemma listed_links_can_be_fetched_witness :
  Owner.get_id Sample.toDataURL Sample.origin 7%N 1%N Sample.db
  = Owner.Detail (Urls.withoutPassword Sample.link)
      "data:image/png;base64,https://sho.rt/Ab3dE9xZ".
Proof.
  apply (listed_links_can_be_fetched (fun _ _ => true) Sample.toDataURL
           Sample.origin 7%N 1%positive 10%positive "" Sample.db
           (Urls.withoutPassword Sample.link)).
  - repeat constructor; simpl; intuition discriminate.
  - vm_compute. left. reflexivity.
Defined.

(** ** The ranking of the dashboard *)

Lemma insertByClicks_perm (u : Url) (l : list Url) :
  Permutation (Report.insertByClicks u l) (u :: l).
Proof.
  induction l as [|w l IH]; simpl; [apply Permutation_refl|].
  destruct (clicks w <? clicks u); [apply Permutation_refl|].
  apply perm_trans with (w :: u :: l); [now constructor | constructor].
Qed.

Lemma insertByClicks_sorted (u : Url) (l : list Url) :
  StronglySorted (fun x y => clicks x >= clicks y) l ->
  StronglySorted (fun x y => clicks x >= clicks y)
    (Report.insertByClicks u l).
Proof.
  induction 1 as [|w l Hs IH Hw]; simpl.
  - repeat constructor.
  - destruct (clicks w <? clicks u) eqn:E.
    + apply Z.ltb_lt in E. constructor; [now constructor|].
      constructor; [lia|].
      apply Forall_forall. intros x Hx.
      pose proof (proj1 (Forall_forall _ _) Hw x Hx) as Hwx.
      cbv beta in Hwx. lia.
    + apply Z.ltb_ge in E. constructor; [assumption|].
      apply Forall_forall. intros x Hx.
      apply (Permutation_in _ (insertByClicks_perm u l)) in Hx.
      destruct Hx as [<- | Hx]; [cbv beta; lia|].
      exact (proj1 (Forall_forall _ _) Hw x Hx).
Qed.

Lemma sortByClicks_spec (l : list Url) :
  Permutation (Report.sortByClicks l) l
  /\ StronglySorted (fun x y => clicks x >= clicks y)
       (Report.sortByClicks l).
Proof.
  unfold Report.sortByClicks.
  assert (G : forall acc,
             StronglySorted (fun x y => clicks x >= clicks y) acc ->
             Permutation
               (fold_left (fun acc u => Report.insertByClicks u acc) l acc)
               (acc ++ l)
             /\ StronglySorted (fun x y => clicks x >= clicks y)
                  (fold_left (fun acc u => Report.insertByClicks u acc)
                     l acc)).
  { induction l as [|u l IH]; intros acc Hacc; simpl.
    - rewrite app_nil_r. split; [apply Permutation_refl | assumption].
    - destruct (IH (Report.insertByClicks u acc)
                  (insertByClicks_sorted u acc Hacc)) as [Hp Hs].
      split; [|assumption].
      eapply perm_trans; [apply Hp|].
      eapply perm_trans;
        [apply Permutation_app_tail, insertByClicks_perm|].
      simpl. apply Permutation_middle. }
  apply (G []). constructor.
Qed.

Lemma StronglySorted_app_inv {A : Type} (R : A -> A -> Prop)
    (l1 l2 : list A) :
  StronglySorted R (l1 ++ l2) ->
  StronglySorted R l1
  /\ forall x y, In x l1 -> In y l2 -> R x y.
Proof.
  induction l1 as [|a l1 IH]; simpl; intros H.
  - split; [constructor | intros x y []].
  - apply StronglySorted_inv in H. destruct H as [Hs Ha].
    destruct (IH Hs) as [H1 H2]. split.
    + constructor; [assumption|].
      apply Forall_forall. intros x Hx.
      apply (proj1 (Forall_forall _ _) Ha). apply in_or_app. now left.
    + intros x y [<- | Hx] Hy.
      * apply (proj1 (Forall_forall _ _) Ha). apply in_or_app. now right.
      * now apply H2.
Qed.

Lemma StronglySorted_map {A B : Type} (R : B -> B -> Prop) (f : A -> B)
    (l : list A) :
  StronglySorted (fun x y => R (f x) (f y)) l -> StronglySorted R (map f l).
Proof.
  induction 1 as [|a l Hs IH Ha]; simpl; constructor; [assumption|].
  apply Forall_forall. intros y Hy. apply in_map_iff in Hy.
  destruct Hy as [x [<- Hx]]. exact (proj1 (Forall_forall _ _) Ha x Hx).
Qed.

(** X19.  The ranking of the dashboard.  [topUrls] lists the five most
    clicked links of the caller, or all of them when there are fewer: its
    rows are links of the caller, in descending order of clicks, and every
    link of the caller that is not listed has no more clicks than any row
    that is. *)
Theorem topUrls_ranked (user : N) (db : Db) :
  let top := Report.topUrls user db in
  let owned := filter (Owner.ownedBy user) (urls db) in
  List.length top = Nat.min 5 (List.length owned)
  /\ StronglySorted (fun x y => Report.t_clicks x >= Report.t_clicks y) top
  /\ (forall t, In t top -> exists u, In u owned /\ t = Report.toTopUrl u)
  /\ (forall u, In u owned ->
        In (Report.toTopUrl u) top
        \/ forall t, In t top -> Report.t_clicks t >= clicks u).
Proof.
  intros top owned. subst top. unfold Report.topUrls. fold owned.
  destruct (sortByClicks_spec owned) as [Hperm Hsorted].
  set (s := Report.sortByClicks owned) in *.
  pose proof (firstn_skipn 5 s) as Hsplit.
  rewrite <- Hsplit in Hsorted.
  destruct (StronglySorted_app_inv _ _ _ Hsorted) as [Hfirst Hdom].
  split; [|split; [|split]].
  - rewrite length_map, length_firstn.
    now rewrite (Permutation_length Hperm).
  - apply StronglySorted_map. exact Hfirst.
  - intros t Ht. apply in_map_iff in Ht. destruct Ht as [u [<- Hu]].
    exists u. split; [|reflexivity].
    apply (Permutation_in _ Hperm). now apply In_firstn in Hu.
  - intros u Hu.
    apply (Permutation_in _ (Permutation_sym Hperm)) in Hu.
    rewrite <- Hsplit in Hu. apply in_app_or in Hu.
    destruct Hu as [Hu | Hu].
    + left. now apply in_map.
    + right. intros t Ht. apply in_map_iff in Ht.
      destruct Ht as [x [<- Hx]]. cbn [Report.t_clicks Report.toTopUrl].
      now apply Hdom.
Qed.

(** ** The series and the summary of one query *)

Lemma sum_app (l1 l2 : list Z) :
  Report.sum (l1 ++ l2) = Report.sum l1 + Report.sum l2.
Proof.
  unfold Report.sum. induction l1 as [|x l1 IH]; simpl; [reflexivity|].
  rewrite IH. lia.
Qed.

Lemma filter_all {A : Type} (l : list A) : filter (fun _ => true) l = l.
Proof. induction l as [|a l IH]; simpl; [reflexivity | now rewrite IH]. Qed.

Lemma length_sortByTime (l : list Analytics) :
  List.length (Stats.sortByTime l) = List.length l.
Proof.
  rewrite <- (filter_all (Stats.sortByTime l)), filter_sortByTime.
  now rewrite filter_all.
Qed.

Lemma length_filter_le {A : Type} (p q : A -> bool) (l : list A) :
  (List.length (filter (fun a => p a && q a) l)
   <= List.length (filter p l))%nat.
Proof.
  induction l as [|a l IH]; simpl; [lia|].
  destruct (p a), (q a); simpl; lia.
Qed.

Lemma length_filter_same {A : Type} (p q : A -> bool) (l : list A) :
  (forall a, In a l -> p a = true -> q a = true) ->
  List.length (filter (fun a => p a && q a) l) = List.length (filter p l).
Proof.
  intros H. f_equal. apply filter_ext_in. intros a Ha.
  destruct (p a) eqn:E; [|reflexivity]. now rewrite (H a Ha E).
Qed.

(** The events that fall on the days [d0], ..., [d0 + n - 1], counted day
    by day, are the events that fall in that range. *)
Lemma count_by_day {A : Type} (p : A -> bool) (day : A -> Z) (d0 : Z)
    (l : list A) (n : nat) :
  Report.sum
    (map (fun i => Z.of_nat
                     (List.length
                        (filter (fun a => p a && (day a =? d0 + Z.of_nat i))
                           l)))
       (seq 0 n))
  = Z.of_nat
      (List.length
         (filter (fun a => p a && ((d0 <=? day a)
                                   && (day a <? d0 + Z.of_nat n))) l)).
Proof.
  induction n as [|n IH].
  - simpl. replace (List.length _) with 0%nat; [reflexivity|].
    symmetry. apply length_zero_iff_nil.
    induction l as [|a l IHl]; simpl; [reflexivity|].
    replace (p a && ((d0 <=? day a) && (day a <? d0 + 0))) with false;
      [exact IHl|].
    symmetry. apply andb_false_iff. right. apply andb_false_iff.
    destruct (Z.leb_spec d0 (day a)); [right; apply Z.ltb_ge; lia | now left].
  - rewrite seq_S, map_app, sum_app, IH. cbn [map Nat.add Report.sum fold_right].
    rewrite Z.add_0_r, <- Nat2Z.inj_add. f_equal.
    clear IH. induction l as [|a l IHl]; [reflexivity|].
    cbn [filter]. destruct (p a); cbn [andb]; [|exact IHl].
    destruct (Z.leb_spec d0 (day a)), (Z.ltb_spec (day a) (d0 + Z.of_nat n)),
      (Z.eqb_spec (day a) (d0 + Z.of_nat n)),
      (Z.ltb_spec (day a) (d0 + Z.of_nat (S n)));
      cbn [andb List.length]; lia.
Qed.

Lemma filter_disjoint_le {A : Type} (p q r : A -> bool) (l : list A) :
  (forall a, p a = true -> r a = true) ->
  (forall a, q a = true -> r a = true) ->
  (forall a, p a = true -> q a = false) ->
  (List.length (filter p l) + List.length (filter q l)
   <= List.length (filter r l))%nat.
Proof.
  intros Hpr Hqr Hpq. induction l as [|a l IH]; [apply Nat.le_refl|].
  cbn [filter]. specialize (Hpr a). specialize (Hqr a). specialize (Hpq a).
  destruct (p a), (q a), (r a); cbn [List.length]; try lia;
    exfalso; intuition discriminate.
Qed.

Lemma length_filter_both {A : Type} (p q : A -> bool) (l : list A) :
  (List.length (filter (fun a => p a && q a) l)
   <= List.length (filter q l))%nat.
Proof.
  induction l as [|a l IH]; [apply Nat.le_refl|]. cbn [filter].
  destruct (p a), (q a); cbn [andb List.length]; lia.
Qed.

Section SeriesInAnyZone.

Variable zone : Stats.Zone.

(** Two facts about the days of the zone: a day does not end before it
    starts, and it has ended when the day begins that [add(1, 'day')]
    leads to. *)
Hypothesis day_ordered :
  forall t, Stats.startOfDay zone t <= Stats.endOfDay zone t.
Hypothesis days_follow :
  forall t, Stats.endOfDay zone t
            < Stats.startOfDay zone (Stats.addDays zone t 1).

(** The buckets from [current] on count, each event once at most, events
    that are not before the start of the day of [current]. *)
Lemma seriesLoop_sum (f : Stats.Bucket -> Z) (u : Analytics -> bool)
    (l : list Analytics) (endDate : Z) :
  (forall c, f (Stats.bucketAt zone l c)
             = Z.of_nat (List.length
                           (filter (fun a => u a && Stats.inDayOf zone c a)
                              l))) ->
  forall rounds current,
    Report.sum (map f (Stats.seriesLoop zone rounds l current endDate))
    <= Z.of_nat
         (List.length
            (filter (fun a => u a
                              && (Stats.startOfDay zone current
                                  <=? timestamp a)) l)).
Proof.
  intros Hf. induction rounds as [|n IH]; intros current;
    cbn [Stats.seriesLoop]; [cbn; lia|].
  destruct (current <=? endDate); [|cbn; lia].
  cbn [map]. unfold Report.sum. cbn [fold_right].
  fold (Report.sum
          (map f (Stats.seriesLoop zone n l
                    (Stats.addDays zone current 1) endDate))).
  rewrite Hf. specialize (IH (Stats.addDays zone current 1)).
  pose proof (day_ordered current) as Ho.
  pose proof (days_follow current) as Hn.
  pose proof (filter_disjoint_le
                (fun a => u a && Stats.inDayOf zone current a)
                (fun a => u a
                          && (Stats.startOfDay zone
                                (Stats.addDays zone current 1)
                              <=? timestamp a))
                (fun a => u a
                          && (Stats.startOfDay zone current
                              <=? timestamp a)) l) as Hd.
  cbv beta in Hd.
  match type of Hd with
  | _ -> _ -> _ -> ?G => assert (Hle : G)
  end.
  { apply Hd; intros a Ha; unfold Stats.inDayOf in *.
    - apply andb_true_iff in Ha. destruct Ha as [-> Ha].
      apply andb_true_iff in Ha. destruct Ha as [-> _]. reflexivity.
    - apply andb_true_iff in Ha. destruct Ha as [-> Ha].
      apply Z.leb_le in Ha. cbn [andb]. apply Z.leb_le. lia.
    - apply andb_true_iff in Ha. destruct Ha as [-> Ha].
      apply andb_true_iff in Ha. destruct Ha as [_ Ha].
      apply Z.leb_le in Ha. cbn [andb]. apply Z.leb_gt. lia. }
  lia.
Qed.

Lemma seriesLoop_buckets (l : list Analytics) (endDate : Z) :
  forall rounds current,
    Forall (fun b => 0 <= Stats.uniqueVisitors b <= Stats.clicks b)
      (Stats.seriesLoop zone rounds l current endDate).
Proof.
  induction rounds as [|n IH]; intros current; cbn [Stats.seriesLoop];
    [constructor|].
  destruct (current <=? endDate); [|constructor].
  constructor; [|apply IH].
  cbn [Stats.uniqueVisitors Stats.clicks Stats.bucketAt].
  split; [lia|]. apply inj_le. apply filter_length_le.
Qed.

(** X20.  The series never counts an event twice, in whatever time zone
    the process runs, provided that in this zone a day does not end
    before it starts and has ended when the day begins that
    [add(1, 'day')] leads to.  Whatever the two readings of the clock,
    the clicks of the buckets add up to at most [periodClicks] and their
    unique visitors to at most [periodUniqueVisitors]; in every bucket
    and in the summary the unique visitors do not exceed the clicks. *)
Theorem series_within_summary (tEnd tStart : Z) (db : Db) (user id : N)
    (period : string) (series : list Stats.Bucket) (s : Report.Summary) :
  Stats.get_url_timeSeries zone tEnd tStart db user id period
    = Some series ->
  Report.get_url_summary zone tEnd tStart db user id period = Some s ->
  Forall (fun b => 0 <= Stats.uniqueVisitors b <= Stats.clicks b) series
  /\ 0 <= Report.s_periodUniqueVisitors s <= Report.s_periodClicks s
  /\ Report.sum (map Stats.clicks series) <= Report.s_periodClicks s
  /\ Report.sum (map Stats.uniqueVisitors series)
     <= Report.s_periodUniqueVisitors s.
Proof.
  unfold Stats.get_url_timeSeries, Report.get_url_summary.
  destruct (find _ (urls db)) as [url|]; [|discriminate].
  intros Hseries Hs. injection Hseries as <-. injection Hs as <-.
  cbn [Report.s_periodUniqueVisitors Report.s_periodClicks].
  set (startDate := Stats.addDays zone tStart (- Stats.periodDays period)).
  set (window := Stats.findInWindow db id startDate tEnd).
  unfold Stats.processTimeSeriesData.
  set (rounds := Z.to_nat ((tEnd - startDate) / Stats.minDay zone + 1)).
  split; [apply seriesLoop_buckets|].
  split; [split; [lia | apply inj_le, filter_length_le]|].
  split.
  - pose proof (seriesLoop_sum Stats.clicks (fun _ => true) window tEnd)
      as H.
    etransitivity; [apply H|].
    + intros c. cbn [Stats.clicks Stats.bucketAt]. reflexivity.
    + apply inj_le. apply filter_length_le.
  - pose proof (seriesLoop_sum Stats.uniqueVisitors isUnique window tEnd)
      as H.
    etransitivity; [apply H|].
    + intros c. cbn [Stats.uniqueVisitors Stats.bucketAt].
      rewrite filter_filter_and. do 2 f_equal. apply filter_ext.
      intros a. apply andb_comm.
    + apply inj_le.
      etransitivity;
        [apply (length_filter_le isUnique
                  (fun a => Stats.startOfDay zone startDate <=? timestamp a))
        |apply Nat.le_refl].
Qed.

End SeriesInAnyZone.

(** A zone with one offset all year has the two properties. *)
Lemma fixed_day_ordered (utcOffset t : Z) :
  Stats.startOfDay (Stats.fixed utcOffset) t
  <= Stats.endOfDay (Stats.fixed utcOffset) t.
Proof. cbn [Stats.startOfDay Stats.endOfDay Stats.fixed].
  unfold Stats.msPerDay. lia.
Qed.

Lemma fixed_days_follow (utcOffset t : Z) :
  Stats.endOfDay (Stats.fixed utcOffset) t
  < Stats.startOfDay (Stats.fixed utcOffset)
      (Stats.addDays (Stats.fixed utcOffset) t 1).
Proof.
  cbn [Stats.startOfDay Stats.endOfDay Stats.addDays Stats.fixed].
  replace (t + 1 * Stats.msPerDay + utcOffset)
    with (t + utcOffset + 1 * Stats.msPerDay) by lia.
  rewrite Z.div_add by (unfold Stats.msPerDay; lia).
  unfold Stats.msPerDay. lia.
Qed.

Lemma series_within_summary_witness :
  exists series s,
    Stats.get_url_timeSeries (Stats.fixed 0) Sample.noon (Sample.noon + 1)
      Sample.visited 7%N 1%N "7d" = Some series
    /\ Report.get_url_summary (Stats.fixed 0) Sample.noon (Sample.noon + 1)
         Sample.visited 7%N 1%N "7d" = Some s
    /\ Report.sum (map Stats.clicks series) <= Report.s_periodClicks s
    /\ Report.sum (map Stats.clicks series) = 2
    /\ Report.s_periodClicks s = 3.
Proof.
  eexists. eexists. split; [reflexivity|]. split; [reflexivity|].
  split; [|split; reflexivity].
  apply (series_within_summary (Stats.fixed 0) (fixed_day_ordered 0)
           (fixed_days_follow 0) Sample.noon (Sample.noon + 1)
           Sample.visited 7%N 1%N "7d" _ _ eq_refl eq_refl).
Defined.

Section SeriesAndSummary.

Variable utcOffset : Z.

Local Notation "'D'" := Stats.msPerDay.
Local Notation "'zone'" := (Stats.fixed utcOffset).
Local Notation "'dayOf'" := (Stats.dayOf (Stats.fixed utcOffset)).

Lemma dayOf_mono (s t : Z) : s <= t -> dayOf s <= dayOf t.
Proof.
  intros H. cbn [Stats.dayOf Stats.fixed]. apply Z.div_le_mono;
    [unfold Stats.msPerDay; lia | lia].
Qed.

(** X27.  The series loses no event when the clock stands still, in a
    process whose zone keeps one offset from UTC all year (UTC itself
    for one).  When both readings of the clock are the same instant,
    the clicks of the buckets add up to [periodClicks] and their unique
    visitors to [periodUniqueVisitors]. *)
Theorem series_complete_when_clock_stable (now : Z) (db : Db) (user id : N)
    (period : string) (series : list Stats.Bucket) (s : Report.Summary) :
  Stats.get_url_timeSeries zone now now db user id period = Some series ->
  Report.get_url_summary zone now now db user id period = Some s ->
  Report.sum (map Stats.clicks series) = Report.s_periodClicks s
  /\ Report.sum (map Stats.uniqueVisitors series)
     = Report.s_periodUniqueVisitors s.
Proof.
  unfold Stats.get_url_timeSeries, Report.get_url_summary.
  destruct (find _ (urls db)) as [url|]; [|discriminate].
  intros Hseries Hs. injection Hseries as <-. injection Hs as <-.
  cbn [Report.s_periodUniqueVisitors Report.s_periodClicks].
  change (Stats.addDays zone now (- Stats.periodDays period))
    with (now + - Stats.periodDays period * D).
  replace (now + - Stats.periodDays period * D)
    with (now - Stats.periodDays period * D) by lia.
  set (startDate := now - Stats.periodDays period * D).
  set (W := fun a => N.eqb (urlId a) id && (startDate <=? timestamp a)
                     && (timestamp a <=? now)).
  set (n := Z.to_nat ((now - startDate) / D + 1)).
  assert (Hser : Stats.processTimeSeriesData zone
                   (Stats.findInWindow db id startDate now) startDate now
                   period
                 = map (fun i => Stats.dayBucket zone db id startDate
                                   now (dayOf startDate + Z.of_nat i))
                     (seq 0 n)).
  { rewrite processTimeSeriesData_eq. apply map_ext. intros i.
    now rewrite bucketAt_findInWindow, dayOf_add. }
  rewrite Hser. clear Hser.
  assert (Hclicks : Z.of_nat (List.length
                                (Stats.findInWindow db id startDate now))
                    = Z.of_nat (List.length (filter W (analytics db)))).
  { unfold Stats.findInWindow. now rewrite length_sortByTime. }
  assert (Huniq : Z.of_nat (List.length
                              (filter isUnique
                                 (Stats.findInWindow db id startDate now)))
                  = Z.of_nat (List.length
                                (filter (fun a => W a && isUnique a)
                                   (analytics db)))).
  { unfold Stats.findInWindow.
    now rewrite filter_sortByTime, filter_filter_and. }
  rewrite Hclicks, Huniq.
  set (range := fun a => (dayOf startDate <=? dayOf (timestamp a))
                         && (dayOf (timestamp a)
                             <? dayOf startDate + Z.of_nat n)).
  assert (Hsum1 :
            Report.sum
              (map Stats.clicks
                 (map (fun i => Stats.dayBucket zone db id startDate
                                  now (dayOf startDate + Z.of_nat i))
                    (seq 0 n)))
            = Z.of_nat (List.length
                          (filter (fun a => W a && range a) (analytics db)))).
  { etransitivity;
      [|exact (count_by_day W (fun a => dayOf (timestamp a))
                 (dayOf startDate) (analytics db) n)].
    rewrite map_map. reflexivity. }
  assert (Hsum2 :
            Report.sum
              (map Stats.uniqueVisitors
                 (map (fun i => Stats.dayBucket zone db id startDate
                                  now (dayOf startDate + Z.of_nat i))
                    (seq 0 n)))
            = Z.of_nat (List.length
                          (filter (fun a => (W a && isUnique a) && range a)
                             (analytics db)))).
  { etransitivity;
      [|exact (count_by_day (fun a => W a && isUnique a)
                 (fun a => dayOf (timestamp a))
                 (dayOf startDate) (analytics db) n)].
    rewrite map_map. f_equal. apply map_ext. intros i.
    cbn [Stats.uniqueVisitors Stats.dayBucket]. unfold Stats.eventsOn.
    rewrite filter_filter_and. do 2 f_equal. apply filter_ext. intros a.
    fold (W a).
    destruct (W a), (isUnique a),
      (dayOf (timestamp a) =? dayOf startDate + Z.of_nat i); reflexivity. }
  rewrite Hsum1, Hsum2.
  assert (Hin : forall a, W a = true -> range a = true).
  { intros a Ha. unfold W in Ha.
    apply andb_true_iff in Ha. destruct Ha as [Ha Hle].
    apply andb_true_iff in Ha. destruct Ha as [_ Hge].
    apply Z.leb_le in Hle, Hge.
    pose proof (dayOf_mono _ _ Hge). pose proof (dayOf_mono _ _ Hle).
    assert (Hn : dayOf startDate + Z.of_nat n = dayOf now + 1).
    { subst n startDate.
      pose proof (periodDays_cases period) as Hp.
      replace (now - (now - Stats.periodDays period * D))
        with (0 + Stats.periodDays period * D) by lia.
      rewrite Z.div_add by (unfold Stats.msPerDay; lia).
      rewrite Z.div_0_l by (unfold Stats.msPerDay; lia).
      replace (now - Stats.periodDays period * D)
        with (now + (- Stats.periodDays period) * D) by lia.
      rewrite dayOf_add. lia. }
    unfold range.
    apply andb_true_iff. split; [apply Z.leb_le | apply Z.ltb_lt]; lia. }
  split; f_equal; apply length_filter_same.
  - intros a _ Ha. now apply Hin.
  - intros a _ Ha. apply andb_true_iff in Ha. destruct Ha as [Ha _].
    now apply Hin.
Qed.

End SeriesAndSummary.

Lemma series_complete_when_clock_stable_witness :
  exists series s,
    Stats.get_url_timeSeries (Stats.fixed 0) Sample.noon Sample.noon
      Sample.visited 7%N 1%N "7d" = Some series
    /\ Report.get_url_summary (Stats.fixed 0) Sample.noon Sample.noon
         Sample.visited 7%N 1%N "7d" = Some s
    /\ Report.sum (map Stats.clicks series) = Report.s_periodClicks s
    /\ Report.s_periodClicks s = 3.
Proof.
  eexists. eexists. split; [reflexivity|]. split; [reflexivity|].
  split; [|reflexivity].
  apply (series_complete_when_clock_stable 0 Sample.noon Sample.visited
           7%N 1%N "7d" _ _ eq_refl eq_refl).
Defined.

(** ** The breakdowns *)

Module BreakdownFacts.

Import Breakdown.

Lemma lookup_bump_same (k : string) (o : list (string * Count)) :
  lookup k (bump k o)
  = Some (match lookup k o with
          | Some (Num n) => Num (n + 1)
          | Some Text => Text
          | None => if inherited k then Text else Num 1
          end).
Proof.
  unfold lookup. induction o as [|[k' c] o IH]; cbn [bump find fst].
  - rewrite String.eqb_refl. reflexivity.
  - destruct (String.eqb k' k) eqn:E; cbn [find fst]; rewrite E.
    + reflexivity.
    + exact IH.
Qed.

Lemma lookup_bump_other (k k' : string) (o : list (string * Count)) :
  k' <> k -> lookup k' (bump k o) = lookup k' o.
Proof.
  intros Hne. unfold lookup.
  induction o as [|[x c] o IH]; cbn [bump find fst].
  - apply String.eqb_neq in Hne. rewrite String.eqb_sym, Hne. reflexivity.
  - destruct (String.eqb_spec x k) as [E | E]; cbn [find fst].
    + subst x. apply String.eqb_neq in Hne. rewrite String.eqb_sym, Hne.
      reflexivity.
    + destruct (String.eqb x k'); [reflexivity | exact IH].
Qed.

Lemma In_keys_bump (k x : string) (o : list (string * Count)) :
  In x (map fst (bump k o)) -> x = k \/ In x (map fst o).
Proof.
  induction o as [|[k' c] o IH]; cbn [bump map fst].
  - intros [<- | []]. now left.
  - destruct (String.eqb k' k); cbn [map fst].
    + intros H. now right.
    + intros [<- | H]; [right; now left|].
      destruct (IH H); [now left | right; now right].
Qed.

Lemma bump_consistent (k : string) (o : list (string * Count)) :
  k <> "__proto__"%string -> consistent o -> consistent (bump k o).
Proof.
  intros Hk [Hnd Hall]. split.
  - induction o as [|[k' c] o IH]; cbn [bump map fst].
    + repeat constructor. intros [].
    + apply NoDup_cons_iff in Hnd. destruct Hnd as [Hnot Hnd].
      apply Forall_cons_iff in Hall. destruct Hall as [_ Hall].
      destruct (String.eqb_spec k' k) as [-> | Hne]; cbn [map fst].
      * now constructor.
      * constructor; [|now apply IH].
        intros Hin. apply In_keys_bump in Hin.
        destruct Hin; [congruence | contradiction].
  - clear Hnd. induction Hall as [|[k' c] o He Ho IH]; cbn [bump].
    + constructor; [|constructor]. split; cbn [fst snd]; [assumption|].
      destruct (inherited k) eqn:E; cbn [snd];
        [reflexivity | split; [reflexivity | lia]].
    + destruct (String.eqb k' k); constructor; try assumption.
      destruct He as [He1 He2]. split; [assumption|]. cbn [fst snd] in *.
      destruct c; [|assumption]. split; [tauto | lia].
Qed.

Lemma sum_bump (k : string) (o : list (string * Count)) :
  Forall wellKept o ->
  sumOfCounts (bump k o) = sumOfCounts o + (if inherited k then 0 else 1).
Proof.
  induction 1 as [|[k' c] o He _ IH]; cbn [bump].
  - unfold sumOfCounts. cbn [fold_right snd].
    destruct (inherited k); cbn [numberOf]; lia.
  - destruct (String.eqb_spec k' k) as [-> | Hne].
    + destruct He as [_ He]. cbn [fst snd] in He.
      unfold sumOfCounts. cbn [fold_right snd].
      destruct c; cbn [numberOf].
      * destruct He as [-> _]. lia.
      * rewrite He. lia.
    + unfold sumOfCounts in *. cbn [fold_right snd]. rewrite IH. lia.
Qed.

(** The object after counting the labels of [l] into [o]. *)
Lemma fold_increment (label : Analytics -> string) (l : list Analytics) :
  forall o, consistent o ->
    let o' := fold_left (fun o a => increment (label a) o) l o in
    consistent o'
    /\ sumOfCounts o'
       = sumOfCounts o
         + Z.of_nat (List.length
                       (filter (fun a => ordinary (label a)) l))
    /\ forall k,
         lookup k o'
         = if occurrences label k l =? 0 then lookup k o
           else if String.eqb k "__proto__" then None
           else if inherited k then Some Text
           else Some (Num (match lookup k o with
                           | Some (Num n) => n
                           | _ => 0
                           end + occurrences label k l)).
Proof.
  induction l as [|a l IH]; intros o Ho; cbn [fold_left].
  - cbn. split; [assumption|]. split; [lia|]. reflexivity.
  - set (ka := label a).
    assert (Ho1 : consistent (increment ka o)).
    { unfold increment. destruct (String.eqb_spec ka "__proto__");
        [assumption | now apply bump_consistent]. }
    destruct (IH _ Ho1) as [Hc [Hs Hl]]. cbv zeta.
    split; [assumption|]. split.
    + rewrite Hs. cbn [filter]. fold ka. unfold ordinary, increment.
      destruct (String.eqb_spec ka "__proto__") as [E | E].
      * rewrite andb_false_r. lia.
      * rewrite sum_bump by apply Ho.
        destruct (inherited ka); cbn [negb andb List.length]; lia.
    + intros k. rewrite Hl. unfold occurrences. cbn [filter]. fold ka.
      destruct (String.eqb_spec ka k) as [E | E].
      * subst k. cbn [List.length]. fold (occurrences label ka l).
        assert (Hocc : 0 <= occurrences label ka l)
          by (unfold occurrences; lia).
        replace (Z.of_nat (S (List.length
                                (filter (fun a0 => String.eqb (label a0) ka)
                                   l))) =? 0) with false
          by (symmetry; apply Z.eqb_neq; lia).
        unfold increment.
        destruct (String.eqb_spec ka "__proto__") as [Ep | Ep].
        -- destruct (occurrences label ka l =? 0); [|reflexivity].
           destruct Ho as [_ Hall]. unfold lookup.
           destruct (find (fun e => String.eqb (fst e) ka) o) as [e|] eqn:Hf;
             [|reflexivity].
           apply find_some in Hf. destruct Hf as [Hin He].
           apply String.eqb_eq in He.
           destruct (proj1 (Forall_forall _ _) Hall e Hin) as [Hne _].
           congruence.
        -- rewrite lookup_bump_same.
           assert (Hkept : forall c, lookup ka o = Some c ->
                             match c with
                             | Text => inherited ka = true
                             | Num n => inherited ka = false /\ 0 < n
                             end).
           { intros c Hc'. unfold lookup in Hc'.
             destruct (find (fun e => String.eqb (fst e) ka) o) as [e|] eqn:Hf;
               [|discriminate].
             injection Hc' as <-.
             apply find_some in Hf. destruct Hf as [Hin He].
             apply String.eqb_eq in He. destruct Ho as [_ Hall].
             destruct (proj1 (Forall_forall _ _) Hall e Hin) as [_ Hk].
             now rewrite He in Hk. }
           destruct (lookup ka o) as [[n|]|] eqn:Hlk.
           ++ destruct (Hkept _ eq_refl) as [Hi _]. rewrite Hi.
              destruct (occurrences label ka l =? 0) eqn:Hz.
              ** apply Z.eqb_eq in Hz. unfold occurrences in Hz.
                 do 2 f_equal. lia.
              ** do 2 f_equal. unfold occurrences. lia.
           ++ rewrite (Hkept _ eq_refl).
              destruct (occurrences label ka l =? 0); reflexivity.
           ++ destruct (inherited ka).
              ** destruct (occurrences label ka l =? 0); reflexivity.
              ** destruct (occurrences label ka l =? 0) eqn:Hz.
                 --- apply Z.eqb_eq in Hz. unfold occurrences in Hz.
                     do 2 f_equal. lia.
                 --- do 2 f_equal. unfold occurrences. lia.
      * assert (Hsame : lookup k (increment ka o) = lookup k o).
        { unfold increment. destruct (String.eqb ka "__proto__");
            [reflexivity|]. apply lookup_bump_other. congruence. }
        now rewrite Hsame.
Qed.

Lemma lookup_In (o : list (string * Count)) (k : string) (c : Count) :
  NoDup (map fst o) -> (In (k, c) o <-> lookup k o = Some c).
Proof.
  unfold lookup. induction o as [|[k' c'] o IH]; cbn [map fst find].
  - intros _. split; [intros [] | discriminate].
  - intros Hnd. apply NoDup_cons_iff in Hnd. destruct Hnd as [Hnot Hnd].
    destruct (String.eqb_spec k' k) as [-> | Hne]; cbn [option_map snd].
    + split.
      * intros [E | Hin]; [now injection E as -> |].
        exfalso. apply Hnot. apply in_map_iff. now exists (k, c).
      * intros E. injection E as ->. now left.
    + rewrite <- (IH Hnd). split.
      * intros [E | Hin]; [injection E as E1 _; congruence | assumption].
      * intros Hin. now right.
Qed.

Lemma insertByIndex_perm (e : string * Count) (l : list (string * Count)) :
  Permutation (insertByIndex e l) (e :: l).
Proof.
  induction l as [|f l IH]; cbn [insertByIndex]; [apply Permutation_refl|].
  destruct (indexOf e <? indexOf f)%N; [apply Permutation_refl|].
  apply perm_trans with (f :: e :: l); [now constructor | constructor].
Qed.

Lemma filter_partition {A : Type} (p : A -> bool) (l : list A) :
  Permutation (filter p l ++ filter (fun a => negb (p a)) l) l.
Proof.
  induction l as [|a l IH]; cbn [filter]; [apply Permutation_refl|].
  destruct (p a); cbn [negb app].
  - now constructor.
  - apply Permutation_sym, Permutation_cons_app, Permutation_sym, IH.
Qed.

(** [Object.entries] lists the own properties, each once. *)
Lemma entries_perm (o : list (string * Count)) : Permutation (entries o) o.
Proof.
  unfold entries.
  assert (G : forall l acc,
             Permutation (fold_left (fun acc e => insertByIndex e acc) l acc)
               (acc ++ l)).
  { induction l as [|e l IH]; intros acc; cbn [fold_left].
    - rewrite app_nil_r. apply Permutation_refl.
    - eapply perm_trans; [apply IH|].
      eapply perm_trans; [apply Permutation_app_tail, insertByIndex_perm|].
      cbn [app]. apply Permutation_middle. }
  eapply perm_trans; [apply Permutation_app_tail, (G _ [])|].
  cbn [app]. apply filter_partition.
Qed.

Lemma sumOfCounts_perm (o o' : list (string * Count)) :
  Permutation o o' -> sumOfCounts o = sumOfCounts o'.
Proof.
  unfold sumOfCounts. induction 1; cbn [fold_right]; lia.
Qed.

Lemma countBy_consistent (label : Analytics -> string)
    (l : list Analytics) :
  let o := fold_left (fun o a => increment (label a) o) l [] in
  consistent o /\ Permutation (countBy label l) o.
Proof.
  cbv zeta. split; [|apply entries_perm].
  apply (fold_increment label l []). split; constructor.
Qed.

End BreakdownFacts.

(** X21.  What a breakdown counts.  For a label that is neither
    [__proto__] nor the name of a function that objects inherit, the
    breakdown has a row for the label exactly when some event carries it,
    and the row's count is the number of those events.  This holds of all
    four helpers, whose labels are the device type, the browser name, the
    country and the referrer, each with its placeholder. *)
Theorem countBy_counts (label : Analytics -> string)
    (analytics : list Analytics) (k : string) (c : Breakdown.Count) :
  Breakdown.ordinary k = true ->
  In (k, c) (Breakdown.countBy label analytics)
  <-> c = Breakdown.Num (Breakdown.occurrences label k analytics)
      /\ 0 < Breakdown.occurrences label k analytics.
Proof.
  intros Hk.
  destruct (BreakdownFacts.countBy_consistent label analytics)
    as [[Hnd _] Hperm].
  destruct (BreakdownFacts.fold_increment label analytics []) as [_ [_ Hl]];
    [split; constructor|].
  specialize (Hl k). cbv zeta in Hl.
  unfold Breakdown.ordinary in Hk. apply andb_true_iff in Hk.
  destruct Hk as [Hi Hp]. apply negb_true_iff in Hi, Hp.
  rewrite Hi, Hp in Hl. cbn in Hl.
  assert (Hocc : 0 <= Breakdown.occurrences label k analytics)
    by (unfold Breakdown.occurrences; lia).
  split.
  - intros Hin. apply (Permutation_in _ Hperm) in Hin.
    apply (BreakdownFacts.lookup_In _ _ _ Hnd) in Hin.
    rewrite Hin in Hl.
    destruct (Breakdown.occurrences label k analytics =? 0) eqn:Hz;
      [discriminate|].
    apply Z.eqb_neq in Hz. injection Hl as ->. split; [reflexivity | lia].
  - intros [-> Hpos].
    apply (Permutation_in _ (Permutation_sym Hperm)).
    apply (BreakdownFacts.lookup_In _ _ _ Hnd). rewrite Hl.
    replace (Breakdown.occurrences label k analytics =? 0) with false
      by (symmetry; apply Z.eqb_neq; lia).
    reflexivity.
Qed.

(** X22.  No label has two rows, and the counts add up: the numbers of a
    breakdown sum to the number of events whose label is ordinary, hence
    to the number of all events when every label is. *)
Theorem countBy_total (label : Analytics -> string)
    (analytics : list Analytics) :
  NoDup (map fst (Breakdown.countBy label analytics))
  /\ Breakdown.sumOfCounts (Breakdown.countBy label analytics)
     = Z.of_nat (List.length
                   (filter (fun a => Breakdown.ordinary (label a)) analytics))
  /\ (Forall (fun a => Breakdown.ordinary (label a) = true) analytics ->
      Breakdown.sumOfCounts (Breakdown.countBy label analytics)
      = Z.of_nat (List.length analytics)).
Proof.
  destruct (BreakdownFacts.countBy_consistent label analytics)
    as [[Hnd _] Hperm].
  destruct (BreakdownFacts.fold_increment label analytics []) as [_ [Hs _]];
    [split; constructor|].
  cbv zeta in Hs. cbn in Hs.
  assert (Hsum : Breakdown.sumOfCounts (Breakdown.countBy label analytics)
                 = Z.of_nat
                     (List.length
                        (filter (fun a => Breakdown.ordinary (label a))
                           analytics))).
  { rewrite (BreakdownFacts.sumOfCounts_perm _ _ Hperm). exact Hs. }
  split; [|split; [exact Hsum|]].
  - apply (Permutation_NoDup
             (Permutation_map fst (Permutation_sym Hperm)) Hnd).
  - intros Hall. rewrite Hsum. do 2 f_equal.
    rewrite <- (filter_all analytics) at 2. apply filter_ext_in.
    intros a Ha. exact (proj1 (Forall_forall _ _) Hall a Ha).
Qed.

(** X23.  Labels that collide with [Object.prototype].  A breakdown never
    has a row for the label [__proto__], however many events carry it; and
    a label that names an inherited function ([constructor], [toString],
    ...) gets a row whose count is a text, not a number, as soon as one
    event carries it. *)
Theorem countBy_prototype_names (label : Analytics -> string)
    (analytics : list Analytics) :
  (forall c, ~ In ("__proto__"%string, c)
                 (Breakdown.countBy label analytics))
  /\ forall k, Breakdown.inherited k = true ->
       (forall c, In (k, c) (Breakdown.countBy label analytics) ->
                  c = Breakdown.Text)
       /\ (0 < Breakdown.occurrences label k analytics ->
           In (k, Breakdown.Text) (Breakdown.countBy label analytics)).
Proof.
  destruct (BreakdownFacts.countBy_consistent label analytics)
    as [[Hnd Hall] Hperm].
  split.
  - intros c Hin. apply (Permutation_in _ Hperm) in Hin.
    destruct (proj1 (Forall_forall _ _) Hall _ Hin) as [Hne _].
    now apply Hne.
  - intros k Hk. split.
    + intros c Hin. apply (Permutation_in _ Hperm) in Hin.
      destruct (proj1 (Forall_forall _ _) Hall _ Hin) as [_ Hc].
      cbn [fst snd] in Hc. destruct c as [n|]; [|reflexivity].
      destruct Hc as [Hc _]. congruence.
    + intros Hpos.
      destruct (BreakdownFacts.fold_increment label analytics [])
        as [_ [_ Hl]]; [split; constructor|].
      specialize (Hl k). cbv zeta in Hl.
      replace (Breakdown.occurrences label k analytics =? 0) with false in Hl
        by (symmetry; apply Z.eqb_neq; lia).
      assert (Hp : String.eqb k "__proto__" = false)
        by (destruct (String.eqb_spec k "__proto__") as [-> |];
            [discriminate Hk | reflexivity]).
      rewrite Hp, Hk in Hl.
      apply (Permutation_in _ (Permutation_sym Hperm)).
      now apply (BreakdownFacts.lookup_In _ _ _ Hnd).
Qed.

Lemma countBy_counts_witness :
  Breakdown.ordinary "Direct" = true
  /\ (In ("Direct"%string, Breakdown.Num 3)
        (Breakdown.processReferrerData (analytics Sample.visited))
      <-> Breakdown.Num 3
          = Breakdown.Num
              (Breakdown.occurrences Breakdown.referrerLabel "Direct"
                 (analytics Sample.visited))
          /\ 0 < Breakdown.occurrences Breakdown.referrerLabel "Direct"
                   (analytics Sample.visited)).
Proof.
  split; [reflexivity|].
  apply (countBy_counts Breakdown.referrerLabel (analytics Sample.visited)
           "Direct" (Breakdown.Num 3)).
  reflexivity.
Defined.

(** ** Concurrent visits by any visitors *)

Lemma total_bounds (f : Visit -> Z) (l : list Visit) :
  (forall th, 0 <= f th <= 1) ->
  0 <= total f l <= Z.of_nat (List.length l).
Proof.
  intros Hf. induction l as [|th l IH]; [cbn; lia|].
  rewrite total_cons. cbn [List.length]. specialize (Hf th). lia.
Qed.

Lemma owesClick_bounds (th : Visit) : 0 <= owesClick th <= 1.
Proof. unfold owesClick. destruct (v_pc th); lia. Qed.

Lemma owesUnique_bounds (th : Visit) : 0 <= owesUnique th <= 1.
Proof. unfold owesUnique. destruct (v_pc th); lia. Qed.

Lemma mayInsert_bounds (th : Visit) : 0 <= mayInsert th <= 1.
Proof. unfold mayInsert. destruct (v_pc th); lia. Qed.

Lemma total_arrive (reqs : list Request) :
  total owesClick (map arrive reqs) = Z.of_nat (List.length reqs)
  /\ total owesUnique (map arrive reqs) = 0
  /\ total mayInsert (map arrive reqs) = Z.of_nat (List.length reqs).
Proof.
  induction reqs as [|r reqs [I1 [I2 I3]]]; [repeat split|].
  cbn [map List.length]. rewrite !total_cons, I1, I2, I3.
  unfold owesClick, owesUnique, mayInsert. cbn [arrive v_pc].
  repeat split; lia.
Qed.

Section SharedProperties.

Variable uaParser : string -> UAResult.
Variable geoip_lookup : option string -> option Location.
Variable id : N.
Variable db0 : Db.

Lemma seenStill_grows (db db' : Db) (ths : list Visit) :
  (forall v, existsb (sameVisitor id v) (analytics db) = true ->
             existsb (sameVisitor id v) (analytics db') = true) ->
  Forall (seenStill id db) ths -> Forall (seenStill id db') ths.
Proof.
  intros H. apply Forall_impl. intros th. unfold seenStill.
  destruct (v_pc th) as [|[e|]| | |]; auto.
Qed.

Lemma step_shared (st : Db * list Visit) (ev : nat * Z) :
  Shared id db0 st -> Shared id db0 (stepAt uaParser geoip_lookup id st ev).
Proof.
  destruct st as [db ths], ev as [i now]. intros HI.
  unfold stepAt. destruct (nth_error ths i) as [th|] eqn:Hth; [|exact HI].
  destruct (visit_step uaParser geoip_lookup id now (v_req th) (v_pc th) db)
    as [pc' db'] eqn:Hstep.
  destruct (setNth_split {| v_req := v_req th; v_pc := pc' |} ths i th Hth)
    as [l1 [l2 [-> ->]]].
  destruct HI as (Hlink & Hfix & Hclicks & Hseen & Hnd & new & Hnew & Hall
                  & Hbound & Howed & Huniq).
  apply Forall_app in Hseen. destruct Hseen as [Hs1 Hs2].
  apply Forall_cons_iff in Hs2. destruct Hs2 as [Hme Hs2].
  destruct (findById db id) as [u|] eqn:Hu; [|contradiction].
  destruct th as [req pc]. cbn [v_req v_pc] in *.
  unfold visit_step in Hstep.
  destruct pc as [|ex| | |].
  - (* Analytics.findOne *)
    injection Hstep as <- <-. unfold Shared.
    split; [congruence|]. split; [assumption|]. split; [tally; lia|].
    split.
    { apply Forall_app. split; [assumption|]. constructor; [|assumption].
      unfold seenStill. cbn [v_pc v_req].
      destruct (findVisit db id (generateVisitorId req)) eqn:E; [|exact I].
      apply findVisit_existsb. congruence. }
    split; [assumption|]. exists new.
    split; [assumption|]. split; [assumption|].
    split; [|split]; tally; unfold mayInsert in *; cbn [v_pc] in *; lia.
  - (* Analytics.create *)
    destruct (Analytics_create db
                (analyticsData uaParser geoip_lookup id req
                   (generateVisitorId req) now ex)) as [db1|] eqn:Hc.
    + (* stored: the visitor had no event *)
      unfold Analytics_create in Hc.
      destruct (passesRequired _ && negb (existsb _ (analytics db)))
        eqn:Hok in Hc; [|discriminate].
      injection Hc as <-. apply andb_true_iff in Hok.
      destruct Hok as [_ Hno]. apply negb_true_iff in Hno.
      cbn [urlId visitorId analyticsData] in Hno.
      assert (Hex : ex = None).
      { destruct ex as [e|]; [|reflexivity].
        unfold seenStill in Hme. cbn [v_pc v_req] in Hme. congruence. }
      subst ex. injection Hstep as <- <-. unfold Shared.
      unfold clicksOf, uniqueVisitorsOf, findById in *.
      cbn [urls analytics] in *. rewrite Hu in *.
      split; [congruence|]. split; [assumption|]. split; [tally; lia|].
      split.
      { apply (seenStill_grows db).
        - intros v Hv. cbn [analytics]. rewrite existsb_app, Hv.
          reflexivity.
        - apply Forall_app. split; [assumption|].
          constructor; [exact I | assumption]. }
      split.
      { intros H0. rewrite map_app. apply NoDup_snoc; [now apply Hnd|].
        now apply existsb_sameVisitor_In. }
      eexists (new ++ [_]). split; [rewrite Hnew, app_assoc; reflexivity|].
      split.
      { apply Forall_app. split; [assumption|].
        constructor; [split; reflexivity | constructor]. }
      split; [|split]; tally; unfold mayInsert in *; cbn [v_pc] in *; lia.
    + (* refused *)
      injection Hstep as <- <-. unfold Shared.
      split; [congruence|]. split; [assumption|]. split; [tally; lia|].
      split.
      { apply Forall_app. split; [assumption|].
        constructor; [exact I | assumption]. }
      split; [assumption|]. exists new.
      split; [assumption|]. split; [assumption|].
      split; [|split]; tally; unfold mayInsert in *; cbn [v_pc] in *; lia.
  - (* $inc uniqueVisitors *)
    injection Hstep as <- <-. unfold Shared.
    unfold clicksOf, uniqueVisitorsOf in *.
    rewrite (findById_incUniqueVisitors _ _ _ Hu). rewrite Hu in *.
    split; [congruence|].
    split.
    { cbn [urls findByIdAndUpdate].
      rewrite map_updateFirst; [assumption | reflexivity]. }
    split; [tally; cbn [clicks incUniqueVisitors] in *; lia|].
    split.
    { apply (seenStill_grows db); [auto|].
      apply Forall_app. split; [assumption|].
      constructor; [exact I | assumption]. }
    split; [assumption|]. exists new.
    split; [assumption|]. split; [assumption|].
    split; [|split]; tally; unfold mayInsert in *;
      cbn [v_pc uniqueVisitors incUniqueVisitors] in *; lia.
  - (* $inc clicks *)
    injection Hstep as <- <-. unfold Shared.
    unfold clicksOf, uniqueVisitorsOf in *.
    rewrite (findById_incClicks _ _ _ _ Hu). rewrite Hu in *.
    split; [congruence|].
    split.
    { cbn [urls findByIdAndUpdate].
      rewrite map_updateFirst; [assumption | reflexivity]. }
    split; [tally; cbn [clicks incClicks] in *; lia|].
    split.
    { apply (seenStill_grows db); [auto|].
      apply Forall_app. split; [assumption|].
      constructor; [exact I | assumption]. }
    split; [assumption|]. exists new.
    split; [assumption|]. split; [assumption|].
    split; [|split]; tally; unfold mayInsert in *;
      cbn [v_pc uniqueVisitors incClicks] in *; lia.
  - (* nothing left to do *)
    injection Hstep as <- <-. unfold Shared.
    split; [congruence|]. split; [assumption|]. split; [assumption|].
    split.
    { apply Forall_app. split; [assumption|].
      constructor; [exact I | assumption]. }
    split; [assumption|]. exists new. auto.
Qed.

Lemma run_shared (reqs : list Request) (sched : list (nat * Z)) :
  findById db0 id <> None ->
  Shared id db0 (run uaParser geoip_lookup id sched (db0, map arrive reqs)).
Proof.
  intros Hlink.
  assert (H0 : Shared id db0 (db0, map arrive reqs)).
  { destruct (total_arrive reqs) as [T1 [T2 T3]]. unfold Shared.
    rewrite T1, T2, T3, length_map.
    split; [assumption|]. split; [reflexivity|]. split; [reflexivity|].
    split.
    { apply Forall_forall. intros th Hin. apply in_map_iff in Hin.
      destruct Hin as [r [<- _]]. exact I. }
    split; [auto|]. exists []. rewrite app_nil_r.
    split; [reflexivity|]. split; [constructor|]. cbn.
    split; [|split]; lia. }
  revert H0. generalize (db0, map arrive reqs).
  induction sched as [|ev sched IH]; intros st HI; [exact HI|].
  cbn [run fold_left]. apply IH, step_shared, HI.
Qed.

(** X24.  No click is lost.  Any number of visits to one link, by
    whatever visitors and whether or not their events can be stored, run
    interleaved in any order: the links change in their counters and
    access stamps only, the click counter never runs ahead of the visits,
    and once all visits have finished it has gone up by exactly their
    number. *)
Theorem interleaved_visits_count_every_click (reqs : list Request)
    (sched : list (nat * Z)) (db : Db) (ths : list Visit) :
  findById db0 id <> None ->
  run uaParser geoip_lookup id sched (db0, map arrive reqs) = (db, ths) ->
  map sansCounters (urls db) = map sansCounters (urls db0)
  /\ clicksOf db0 id <= clicksOf db id
     <= clicksOf db0 id + Z.of_nat (List.length reqs)
  /\ (forallb isFinished ths = true ->
      clicksOf db id = clicksOf db0 id + Z.of_nat (List.length reqs)).
Proof.
  intros Hlink Hrun.
  pose proof (run_shared reqs sched Hlink) as HI.
  pose proof (run_length uaParser geoip_lookup id sched
                (db0, map arrive reqs)) as Hlen.
  rewrite Hrun in HI, Hlen. cbn [snd] in Hlen. rewrite length_map in Hlen.
  destruct HI as (_ & Hfix & Hclicks & _).
  rewrite Hlen in Hclicks.
  pose proof (total_bounds owesClick ths owesClick_bounds) as Hb.
  rewrite Hlen in Hb.
  split; [assumption|]. split; [lia|].
  intros Hfin. destruct (finished_totals ths Hfin) as [Hc _]. lia.
Qed.

(** X25.  Only first visits are recorded.  Under the same interleavings
    the events of the store are those it had, followed by new ones that
    all belong to the link and are all flagged unique, at most one per
    visit; no two events share a link and a visitor if none did before;
    and the unique-visitor counter, which never runs ahead of the new
    events, has gone up by exactly their number once all visits have
    finished. *)
Theorem interleaved_visits_record_first_visits (reqs : list Request)
    (sched : list (nat * Z)) (db : Db) (ths : list Visit) :
  findById db0 id <> None ->
  run uaParser geoip_lookup id sched (db0, map arrive reqs) = (db, ths) ->
  exists new,
    analytics db = analytics db0 ++ new
    /\ Forall (fun e => urlId e = id /\ isUnique e = true) new
    /\ (List.length new <= List.length reqs)%nat
    /\ (NoDup (map visitKey (analytics db0)) ->
        NoDup (map visitKey (analytics db)))
    /\ uniqueVisitorsOf db0 id <= uniqueVisitorsOf db id
       <= uniqueVisitorsOf db0 id + Z.of_nat (List.length new)
    /\ (forallb isFinished ths = true ->
        uniqueVisitorsOf db id
        = uniqueVisitorsOf db0 id + Z.of_nat (List.length new)).
Proof.
  intros Hlink Hrun.
  pose proof (run_shared reqs sched Hlink) as HI.
  pose proof (run_length uaParser geoip_lookup id sched
                (db0, map arrive reqs)) as Hlen.
  rewrite Hrun in HI, Hlen. cbn [snd] in Hlen. rewrite length_map in Hlen.
  destruct HI as (_ & _ & _ & _ & Hnd & new & Hnew & Hall & Hbound & Howed
                  & Huniq).
  rewrite Hlen in Hbound.
  pose proof (total_bounds mayInsert ths mayInsert_bounds) as Hb1.
  pose proof (total_bounds owesUnique ths owesUnique_bounds) as Hb2.
  exists new. split; [assumption|]. split; [assumption|].
  split; [lia|]. split; [assumption|].
  split; [lia|].
  intros Hfin. destruct (finished_totals ths Hfin) as [_ [Hu _]]. lia.
Qed.

End SharedProperties.

Lemma interleaved_visits_count_every_click_witness :
  let final := run Sample.uaParser Sample.geoip 1%N Crowd.sched
                 (Sample.db, map arrive Crowd.reqs) in
  map sansCounters (urls (fst final)) = map sansCounters (urls Sample.db)
  /\ clicksOf Sample.db 1%N <= clicksOf (fst final) 1%N
     <= clicksOf Sample.db 1%N + Z.of_nat (List.length Crowd.reqs)
  /\ (forallb isFinished (snd final) = true ->
      clicksOf (fst final) 1%N
      = clicksOf Sample.db 1%N + Z.of_nat (List.length Crowd.reqs)).
Proof.
  intros final.
  apply (interleaved_visits_count_every_click Sample.uaParser Sample.geoip
           1%N Sample.db Crowd.reqs Crowd.sched (fst final) (snd final)).
  - discriminate.
  - apply surjective_pairing.
Defined.

Lemma interleaved_visits_record_first_visits_witness :
  let final := run Sample.uaParser Sample.geoip 1%N Crowd.sched
                 (Sample.db, map arrive Crowd.reqs) in
  exists new,
    analytics (fst final) = analytics Sample.db ++ new
    /\ Forall (fun e => urlId e = 1%N /\ isUnique e = true) new
    /\ (List.length new <= List.length Crowd.reqs)%nat
    /\ (NoDup (map visitKey (analytics Sample.db)) ->
        NoDup (map visitKey (analytics (fst final))))
    /\ uniqueVisitorsOf Sample.db 1%N <= uniqueVisitorsOf (fst final) 1%N
       <= uniqueVisitorsOf Sample.db 1%N + Z.of_nat (List.length new)
    /\ (forallb isFinished (snd final) = true ->
        uniqueVisitorsOf (fst final) 1%N
        = uniqueVisitorsOf Sample.db 1%N + Z.of_nat (List.length new)).
Proof.
  intros final.
  apply (interleaved_visits_record_first_visits Sample.uaParser Sample.geoip
           1%N Sample.db Crowd.reqs Crowd.sched (fst final) (snd final)).
  - discriminate.
  - apply surjective_pairing.
Defined.
